(** * Extraction orchestration of the air-quality pipeline

  A shallow embedding of [src/pipeline/extraction.py]: month arithmetic on
  [datetime] values, the extraction ledger, the partition path compiler,
  the delete-before-insert guard, the load loop and the driver
  [extract_data] with its [try / except / finally] structure.

  The storage engine is an explicit state ([DB]) threaded through a small
  state-and-exception monad; what the engine and the file system decide
  (a statement that raises, the rows a remote partition holds, the clock)
  is collected in an environment record [Env]. *)

From Stdlib Require Import ZArith List String Ascii Bool Lia.
Import ListNotations.

Local Open Scope Z_scope.

(* ================================================================== *)
(** ** Python strings: [str(int)], [str.zfill], comparison             *)
(* ================================================================== *)

Module PyStr.

(** The character of a decimal digit [0..9]. *)
Definition digit_char (d : Z) : ascii := ascii_of_N (48 + Z.to_N d).

Definition is_digit (c : ascii) : bool :=
  (48 <=? N_of_ascii c)%N && (N_of_ascii c <=? 57)%N.

Definition digit_val (c : ascii) : Z := Z.of_N (N_of_ascii c) - 48.

(** Decimal digits of a non-negative integer, most significant first. *)
Fixpoint digits (fuel : nat) (n : Z) (acc : string) : string :=
  match fuel with
  | O => acc
  | S f =>
      let acc' := String (digit_char (n mod 10)) acc in
      if n <? 10 then acc' else digits f (n / 10) acc'
  end.

(** [str(n)] for a Python [int]. *)
Definition str_int (n : Z) : string :=
  if n <? 0
  then String "-" (digits (S (Z.to_nat (Z.log2 (- n)))) (- n) EmptyString)
  else digits (S (Z.to_nat (Z.log2 n))) n EmptyString.

Fixpoint zeros (k : nat) : string :=
  match k with
  | O => EmptyString
  | S k' => String "0" (zeros k')
  end.

(** [s.zfill(width)]: zeros are inserted on the left, after a sign. *)
Definition zfill (width : nat) (s : string) : string :=
  let pad := zeros (width - String.length s) in
  match s with
  | String c rest =>
      if (Ascii.eqb c "+" || Ascii.eqb c "-")%bool
      then String c (pad ++ rest)%string
      else (pad ++ s)%string
  | EmptyString => pad
  end.

(** Python truthiness of a [str]. *)
Definition truthy (s : string) : bool :=
  match s with
  | EmptyString => false
  | _ => true
  end.

(** Truthiness of an optional argument ([None] or a string). *)
Definition truthy_opt (o : option string) : bool :=
  match o with
  | Some s => truthy s
  | None => false
  end.

End PyStr.

(* ================================================================== *)
(** ** [datetime], [strptime] / [strftime] and [relativedelta]         *)
(* ================================================================== *)

Module PyDate.

Record datetime : Type := mkDatetime {
  year : Z;
  month : Z;
  day : Z;
  hour : Z;
  minute : Z;
  second : Z;
  microsecond : Z
}.

Definition MINYEAR : Z := 1.
Definition MAXYEAR : Z := 9999.

(** [datetime(y, m, 1)]: midnight on the first of the month. *)
Definition first_of_month (y m : Z) : datetime := mkDatetime y m 1 0 0 0 0.

(** Field-by-field comparison, as [datetime.__le__] on naive values. *)
Definition dt_compare (a b : datetime) : comparison :=
  match year a ?= year b with
  | Eq =>
    match month a ?= month b with
    | Eq =>
      match day a ?= day b with
      | Eq =>
        match hour a ?= hour b with
        | Eq =>
          match minute a ?= minute b with
          | Eq =>
            match second a ?= second b with
            | Eq => microsecond a ?= microsecond b
            | c => c
            end
          | c => c
          end
        | c => c
        end
      | c => c
      end
    | c => c
    end
  | c => c
  end.

Definition dt_leb (a b : datetime) : bool :=
  match dt_compare a b with
  | Gt => false
  | _ => true
  end.

Definition dt_geb (a b : datetime) : bool := dt_leb b a.

Definition isleap (y : Z) : bool :=
  (y mod 4 =? 0) && (negb (y mod 100 =? 0) || (y mod 400 =? 0)).

(** [calendar.monthrange(y, m)[1]]. *)
Definition days_in_month (y m : Z) : Z :=
  if m =? 2 then (if isleap y then 29 else 28)
  else if (m =? 4) || (m =? 6) || (m =? 9) || (m =? 11) then 30
  else 31.

(** [dt + relativedelta(months=k)] for [1 <= |k| <= 12]: the month is
    moved, the year carried, the day clipped to the length of the target
    month; [None] stands for the [ValueError] that [datetime.replace]
    raises when the year leaves [MINYEAR..MAXYEAR]. *)
Definition add_months (dt : datetime) (k : Z) : option datetime :=
  let m0 := month dt + k in
  let '(y, m) :=
    if m0 >? 12 then (year dt + 1, m0 - 12)
    else if m0 <? 1 then (year dt - 1, m0 + 12)
    else (year dt, m0) in
  let d := Z.min (days_in_month y m) (day dt) in
  if (MINYEAR <=? y) && (y <=? MAXYEAR)
  then Some (mkDatetime y m d (hour dt) (minute dt) (second dt)
               (microsecond dt))
  else None.

(** [dt.replace(day=1)]: only the day changes, the time of day stays. *)
Definition replace_day1 (dt : datetime) : datetime :=
  mkDatetime (year dt) (month dt) 1 (hour dt) (minute dt) (second dt)
    (microsecond dt).

(** [datetime.strptime(s, "%Y-%m")]: four digits, a dash, then a month
    matched by [1[0-2]|0[1-9]|[1-9]] with nothing left over; year 0 is
    refused by the [datetime] constructor.  [None] is the [ValueError]. *)
Definition strptime_Ym (s : string) : option datetime :=
  match s with
  | String a (String b (String c (String d (String dash rest)))) =>
      if (PyStr.is_digit a && PyStr.is_digit b && PyStr.is_digit c
          && PyStr.is_digit d && Ascii.eqb dash "-")%bool
      then
        let y := 1000 * PyStr.digit_val a + 100 * PyStr.digit_val b
                 + 10 * PyStr.digit_val c + PyStr.digit_val d in
        let mo :=
          match rest with
          | String m1 EmptyString =>
              if PyStr.is_digit m1 && negb (Ascii.eqb m1 "0")
              then Some (PyStr.digit_val m1) else None
          | String m1 (String m2 EmptyString) =>
              if PyStr.is_digit m1 && PyStr.is_digit m2
              then
                let v := 10 * PyStr.digit_val m1 + PyStr.digit_val m2 in
                if (1 <=? v) && (v <=? 12) then Some v else None
              else None
          | _ => None
          end in
        match mo with
        | Some m => if y =? 0 then None else Some (first_of_month y m)
        | None => None
        end
      else None
  | _ => None
  end.

(** [dt.strftime("%Y-%m")]: the year on four digits, the month on two. *)
Definition strftime_Ym (dt : datetime) : string :=
  (PyStr.zfill 4 (PyStr.str_int (year dt)) ++ "-"
     ++ PyStr.zfill 2 (PyStr.str_int (month dt)))%string.

(** Number of the month on a line of months; the order of [(year, month)]
    pairs for months [1..12]. *)
Definition month_index (dt : datetime) : Z := 12 * year dt + (month dt - 1).

(** A value as [strptime_Ym] builds them. *)
Definition is_month_start (dt : datetime) : Prop :=
  MINYEAR <= year dt <= MAXYEAR /\ 1 <= month dt <= 12 /\ day dt = 1
  /\ hour dt = 0 /\ minute dt = 0 /\ second dt = 0 /\ microsecond dt = 0.

End PyDate.

Import PyDate.

(* ================================================================== *)
(** ** Exceptions, the storage engine and the run monad                *)
(* ================================================================== *)

(** The exception classes the driver tells apart: [duckdb.IOException]
    (raised for a remote file that does not exist), [ValueError], and any
    other subclass of [Exception]. *)
Inductive exn_class : Type :=
| IOException
| ValueError
| OtherException.

(** An exception instance; [exn_msg] is what [str(e)] gives. *)
Record exn : Type := mkExn { exn_cls : exn_class; exn_msg : string }.

Definition is_IOException (e : exn) : bool :=
  match exn_cls e with
  | IOException => true
  | _ => false
  end.

Inductive result (A : Type) : Type :=
| Ok (a : A)
| Raise (e : exn).
Arguments Ok {A} a.
Arguments Raise {A} e.

(** [status] column of [raw.extraction_log]. *)
Inductive job_status : Type :=
| running
| completed
| failed.

(** One row of [raw.extraction_log], with the columns the statements of
    [log_extraction_start], [log_extraction_complete] and
    [log_extraction_failed] name. *)
Record ExtractionJob : Type := mkJob {
  extraction_id : Z;
  extraction_start_datetime : datetime;
  extraction_end_datetime : option datetime;
  start_date : string;
  end_date : string;
  status : job_status;
  records_extracted : option Z;
  error_message : option string
}.

(** Modelled from the spec: the table [raw.air_quality] is created by DDL
    scripts that are not among the sources.  A row carries the two partition
    columns that the statements of [extraction.py] compare ([year] against
    an integer literal, [month] against a two-character string) and the
    rest of the measurement as an opaque payload. *)
Record AirRow : Type := mkAirRow {
  aq_year : Z;
  aq_month : string;
  aq_payload : string
}.

(** Modelled from the spec: [extraction_id] is assigned by the ledger on
    insertion from an increasing sequence ([next_extraction_id]). *)
Record DB : Type := mkDB {
  extraction_log : list ExtractionJob;
  next_extraction_id : Z;
  air_quality : list AirRow
}.

(** The statements [extraction.py] submits to the connection. *)
Inductive stmt : Type :=
| SelectLastExtraction
    (* SELECT end_date FROM raw.last_successful_extraction *)
| InsertExtractionLog (start_d end_d : string)
    (* INSERT INTO raw.extraction_log ... 'running' RETURNING extraction_id *)
| UpdateCompleted (id records : Z)
    (* UPDATE raw.extraction_log SET ... status = 'completed' ... *)
| UpdateFailed (id : Z) (message : string)
    (* UPDATE raw.extraction_log SET ... status = 'failed' ... *)
| DeleteMonth (y : Z) (m : string)
    (* DELETE FROM raw.air_quality WHERE year = y AND month = 'm' *)
| LoadQuery (query : string)
    (* the rendered extraction template *)
| CountRange (start_d end_d : string).
    (* SELECT COUNT( * ) FROM raw.air_quality WHERE year||'-'||month ... *)

(** What the surroundings of a run decide.  [database_manager] (with
    [execute_query] and [read_query]), the view
    [raw.last_successful_extraction], the extraction template and the
    remote files are not among the sources: they are parameters here. *)
Record Env : Type := mkEnv {
  (** [datetime.now()] *)
  now : datetime;
  (** the exception, if any, with which the engine refuses a statement *)
  fault : DB -> stmt -> option exn;
  (** [fetchone()] on the view: no row, a NULL, or an [end_date] *)
  last_successful_extraction : DB -> option (option string);
  (** content of [raw.air_quality] after a load statement has run *)
  load_rows : DB -> string -> list AirRow;
  (** [Template(t).render(data_file_path=p)] on the external template *)
  render_query : string -> string -> result string;
  (** [read_query(path)] *)
  read_query : string -> result string;
  (** keys of the JSON object in the locations file, in document order *)
  read_json_keys : string -> result (list string)
}.

Inductive log_level : Type :=
| INFO
| WARNING
| ERROR.

(** What happens on the connection: a statement the engine carried out,
    a statement it refused with an exception, the connection closed. *)
Inductive event : Type :=
| Executed (s : stmt)
| Refused (s : stmt) (e : exn)
| Closed.

(** The state a run acts on: the database, what happened on the
    connection so far (oldest first), and the log. *)
Record World : Type := mkWorld {
  db : DB;
  events : list event;
  logs : list (log_level * string)
}.

Definition M (A : Type) : Type := World -> result A * World.

Definition ret {A : Type} (a : A) : M A := fun w => (Ok a, w).

Definition raise {A : Type} (e : exn) : M A := fun w => (Raise e, w).

Definition bind {A B : Type} (c : M A) (k : A -> M B) : M B :=
  fun w =>
    match c w with
    | (Ok a, w') => k a w'
    | (Raise e, w') => (Raise e, w')
    end.

Notation "x <- c ;; k" := (bind c (fun x => k))
  (at level 61, c at next level, right associativity).
Notation "c ;; k" := (bind c (fun _ => k))
  (at level 61, right associativity).

(** [try: c  except Exception as e: h e] *)
Definition try_except {A : Type} (c : M A) (h : exn -> M A) : M A :=
  fun w =>
    match c w with
    | (Ok a, w') => (Ok a, w')
    | (Raise e, w') => h e w'
    end.

(** [try: c  finally: f], for an [f] that does not raise. *)
Definition try_finally {A : Type} (c : M A) (f : World -> World) : M A :=
  fun w => let '(r, w') := c w in (r, f w').

Definition lift_result {A : Type} (r : result A) : M A := fun w => (r, w).

Definition logging (lvl : log_level) (msg : string) : M unit :=
  fun w => (Ok tt, mkWorld (db w) (events w) (logs w ++ [(lvl, msg)])).

Definition record_event (e : event) (w : World) : World :=
  mkWorld (db w) (events w ++ [e]) (logs w).

Definition get_db : M DB := fun w => (Ok (db w), w).

Definition put_db (d : DB) : M unit :=
  fun w => (Ok tt, mkWorld d (events w) (logs w)).

(** [con.execute(s)]: the statement is submitted; the engine either
    refuses it, leaving the database as it was, or lets it through. *)
Definition submit (env : Env) (s : stmt) : M unit :=
  fun w =>
    match fault env (db w) s with
    | Some e => (Raise e, record_event (Refused s e) w)
    | None => (Ok tt, record_event (Executed s) w)
    end.

(** Modelled from the spec: [close_database_connection] is not among the
    sources; it closes the connection and is taken not to raise. *)
Definition close_database_connection (w : World) : World :=
  record_event Closed w.

(* ------------------------------------------------------------------ *)
(** *** Effect of each statement on the database                       *)

Definition insert_job (d : DB) (t : datetime) (s e : string) : DB :=
  mkDB (extraction_log d
          ++ [mkJob (next_extraction_id d) t None s e running None None])
       (next_extraction_id d + 1)
       (air_quality d).

Definition set_completed (t : datetime) (id n : Z) (j : ExtractionJob)
  : ExtractionJob :=
  if extraction_id j =? id
  then mkJob (extraction_id j) (extraction_start_datetime j) (Some t)
         (start_date j) (end_date j) completed (Some n) (error_message j)
  else j.

Definition set_failed (t : datetime) (id : Z) (msg : string)
  (j : ExtractionJob) : ExtractionJob :=
  if extraction_id j =? id
  then mkJob (extraction_id j) (extraction_start_datetime j) (Some t)
         (start_date j) (end_date j) failed (records_extracted j) (Some msg)
  else j.

Definition update_jobs (f : ExtractionJob -> ExtractionJob) (d : DB) : DB :=
  mkDB (map f (extraction_log d)) (next_extraction_id d) (air_quality d).

Definition set_air_quality (rows : list AirRow) (d : DB) : DB :=
  mkDB (extraction_log d) (next_extraction_id d) rows.

(** [year || '-' || month] *)
Definition partition_key (r : AirRow) : string :=
  (PyStr.str_int (aq_year r) ++ "-" ++ aq_month r)%string.

(** [WHERE year || '-' || month >= ? AND year || '-' || month <= ?] *)
Definition in_range (start_d end_d : string) (r : AirRow) : bool :=
  String.leb start_d (partition_key r) && String.leb (partition_key r) end_d.

Definition count_range (start_d end_d : string) (rows : list AirRow) : Z :=
  Z.of_nat (List.length (filter (in_range start_d end_d) rows)).

(** [WHERE year = y AND month = 'm'] *)
Definition in_month (y : Z) (m : string) (r : AirRow) : bool :=
  (aq_year r =? y) && String.eqb (aq_month r) m.

Definition delete_month (y : Z) (m : string) (rows : list AirRow)
  : list AirRow :=
  filter (fun r => negb (in_month y m r)) rows.

(** Modelled from the spec: [execute_query(con, query)] of
    [database_manager] submits the statement to the connection.  It is
    called with the DELETE of the guard and with the rendered load. *)
Definition execute_query (env : Env) (s : stmt) : M unit :=
  submit env s ;;
  d <- get_db ;;
  match s with
  | DeleteMonth y m =>
      put_db (set_air_quality (delete_month y m (air_quality d)) d)
  | LoadQuery q => put_db (set_air_quality (load_rows env d q) d)
  | _ => ret tt
  end.

(* ================================================================== *)
(** ** The functions of [extraction.py]                                *)
(* ================================================================== *)

(** The text of the messages of library exceptions is abbreviated. *)
Definition strptime_error (s : string) : exn :=
  mkExn ValueError
    ("time data '" ++ s ++ "' does not match format '%Y-%m'")%string.

Definition year_out_of_range : exn :=
  mkExn ValueError "year is out of range"%string.

Definition strptime (s : string) : result datetime :=
  match strptime_Ym s with
  | Some dt => Ok dt
  | None => Raise (strptime_error s)
  end.

Definition plus_months (dt : datetime) (k : Z) : result datetime :=
  match add_months dt k with
  | Some dt' => Ok dt'
  | None => Raise year_out_of_range
  end.

Definition read_location_ids (env : Env) (file_path : string)
  : M (list string) :=
  lift_result (read_json_keys env file_path).

Definition get_last_extraction_date (env : Env) : M (option string) :=
  try_except
    (submit env SelectLastExtraction ;;
     d <- get_db ;;
     match last_successful_extraction env d with
     | Some (Some s) => if PyStr.truthy s then ret (Some s) else ret None
     | _ => ret None
     end)
    (fun e =>
       logging WARNING
         ("Could not retrieve last extraction date: " ++ exn_msg e)%string ;;
       ret None).

Definition determine_date_range (env : Env) (incremental : bool)
  : M (string * string) :=
  if incremental then
    last_end_date <- get_last_extraction_date env ;;
    let three_months_ago : M string :=
      start_dt <- lift_result (plus_months (now env) (-3)) ;;
      ret (strftime_Ym start_dt) in
    start_date <-
      match last_end_date with
      | Some s =>
          if PyStr.truthy s then
            last_end_dt <- lift_result (strptime s) ;;
            start_dt <- lift_result (plus_months last_end_dt 1) ;;
            ret (strftime_Ym start_dt)
          else three_months_ago
      | None => three_months_ago
      end ;;
    let end_date := strftime_Ym (now env) in
    logging INFO
      ("Incremental mode: Extracting from " ++ start_date ++ " to "
         ++ end_date)%string ;;
    ret (start_date, end_date)
  else
    raise (mkExn ValueError
             "Date range must be determined before calling this function in non-incremental mode"%string).

Definition log_extraction_start (env : Env) (start_d end_d : string) : M Z :=
  submit env (InsertExtractionLog start_d end_d) ;;
  d <- get_db ;;
  let extraction_id := next_extraction_id d in
  put_db (insert_job d (now env) start_d end_d) ;;
  logging INFO
    ("Started extraction job " ++ PyStr.str_int extraction_id)%string ;;
  ret extraction_id.

Definition log_extraction_complete (env : Env) (id records : Z) : M unit :=
  submit env (UpdateCompleted id records) ;;
  d <- get_db ;;
  put_db (update_jobs (set_completed (now env) id records) d) ;;
  logging INFO
    ("Completed extraction job " ++ PyStr.str_int id ++ " with "
       ++ PyStr.str_int records ++ " records")%string.

Definition log_extraction_failed (env : Env) (id : Z) (msg : string)
  : M unit :=
  submit env (UpdateFailed id msg) ;;
  d <- get_db ;;
  put_db (update_jobs (set_failed (now env) id msg) d) ;;
  logging ERROR
    ("Failed extraction job " ++ PyStr.str_int id ++ ": " ++ msg)%string.

(** The template [extract_data] passes to [compile_data_file_paths]. *)
Definition data_file_path_template : string :=
  "locationid={{location_id}}/year={{year}}/month={{month}}/*"%string.

(** [Template(data_file_path_template).render(location_id=.., year=..,
    month=..)]: each placeholder is replaced by its value as it is. *)
Definition render_data_file_path (location_id y m : string) : string :=
  ("locationid=" ++ location_id ++ "/year=" ++ y ++ "/month=" ++ m
     ++ "/*")%string.

(** Enough iterations for [while index_date <= end_date] when the index
    moves by one month (see [months_fuel_enough]). *)
Definition months_fuel (index_date end_date : datetime) : nat :=
  Z.to_nat (month_index end_date - month_index index_date + 1).

(** The [while] loop of [compile_data_file_paths] for one location. *)
Fixpoint compile_months (fuel : nat) (location_id : string)
  (index_date end_date : datetime) (data_file_paths : list string)
  : result (list string) :=
  match fuel with
  | O => Ok data_file_paths
  | S fuel' =>
      if dt_leb index_date end_date then
        let data_file_path :=
          render_data_file_path location_id
            (PyStr.str_int (year index_date))
            (PyStr.zfill 2 (PyStr.str_int (month index_date))) in
        match plus_months index_date 1 with
        | Ok index_date' =>
            compile_months fuel' location_id index_date' end_date
              (data_file_paths ++ [data_file_path])
        | Raise e => Raise e
        end
      else Ok data_file_paths
  end.

(** The [for] loop over the locations. *)
Fixpoint compile_locations (location_ids : list string)
  (start_dt end_dt : datetime) (data_file_paths : list string)
  : result (list string) :=
  match location_ids with
  | [] => Ok data_file_paths
  | location_id :: rest =>
      match compile_months (months_fuel start_dt end_dt) location_id
              start_dt end_dt data_file_paths with
      | Ok paths => compile_locations rest start_dt end_dt paths
      | Raise e => Raise e
      end
  end.

(** [compile_data_file_paths], at the template of its one call site. *)
Definition compile_data_file_paths (location_ids : list string)
  (start_d end_d : string) : result (list string) :=
  match strptime start_d with
  | Raise e => Raise e
  | Ok start_dt =>
      match strptime end_d with
      | Raise e => Raise e
      | Ok end_dt => compile_locations location_ids start_dt end_dt []
      end
  end.

Definition compile_data_file_query (env : Env)
  (base_path data_file_path extract_query_template : string)
  : result string :=
  render_query env extract_query_template
    (base_path ++ "/" ++ data_file_path)%string.

(** The [while] loop of [delete_existing_data]. *)
Fixpoint delete_months (env : Env) (fuel : nat)
  (index_date end_dt : datetime) : M unit :=
  match fuel with
  | O => ret tt
  | S fuel' =>
      if dt_leb index_date end_dt then
        let m := PyStr.zfill 2 (PyStr.str_int (month index_date)) in
        logging INFO
          ("Deleting existing data for "
             ++ PyStr.str_int (year index_date) ++ "-" ++ m)%string ;;
        execute_query env (DeleteMonth (year index_date) m) ;;
        index_date' <- lift_result (plus_months index_date 1) ;;
        delete_months env fuel' index_date' end_dt
      else ret tt
  end.

Definition delete_existing_data (env : Env) (start_d end_d : string)
  : M unit :=
  start_dt <- lift_result (strptime start_d) ;;
  end_dt <- lift_result (strptime end_d) ;;
  delete_months env (months_fuel start_dt end_dt) start_dt end_dt ;;
  logging INFO
    ("Deleted all existing data from " ++ start_d ++ " to " ++ end_d)%string.

(** The arguments of the command line. *)
Record Args : Type := mkArgs {
  locations_file_path : string;
  args_start_date : option string;
  args_end_date : option string;
  extract_query_template_path : string;
  database_path : string;
  source_base_path : string;
  incremental : bool
}.

(** The load loop of [extract_data]; the value is
    [successful_extractions] when the loop ends. *)
Fixpoint extract_partitions (env : Env)
  (base_path extract_query_template : string)
  (data_file_paths : list string) (successful_extractions : Z) : M Z :=
  match data_file_paths with
  | [] => ret successful_extractions
  | data_file_path :: rest =>
      logging INFO ("Extracting data from " ++ data_file_path)%string ;;
      query <-
        lift_result
          (compile_data_file_query env base_path data_file_path
             extract_query_template) ;;
      fun w =>
        match execute_query env (LoadQuery query) w with
        | (Ok _, w') =>
            (logging INFO
               ("Extracted data from " ++ data_file_path ++ "!")%string ;;
             extract_partitions env base_path extract_query_template rest
               (successful_extractions + 1)) w'
        | (Raise e, w') =>
            if is_IOException e then
              (logging WARNING
                 ("Could not find data from " ++ data_file_path ++ ": "
                    ++ exn_msg e)%string ;;
               extract_partitions env base_path extract_query_template rest
                 successful_extractions) w'
            else (Raise e, w')
        end
  end.

(** [SELECT COUNT( * ) FROM raw.air_quality WHERE ...] and [fetchone()[0]]. *)
Definition count_records (env : Env) (start_d end_d : string) : M Z :=
  submit env (CountRange start_d end_d) ;;
  d <- get_db ;;
  ret (count_range start_d end_d (air_quality d)).

(** Lines 177-184 of [extract_data]: the date range. *)
Definition resolve_range (env : Env) (args : Args) : M (string * string) :=
  if incremental args then determine_date_range env true
  else
    match args_start_date args, args_end_date args with
    | Some s, Some e =>
        if (negb (PyStr.truthy s) || negb (PyStr.truthy e))%bool
        then raise (mkExn ValueError
                      "start_date and end_date are required when not in incremental mode"%string)
        else ret (s, e)
    | _, _ =>
        raise (mkExn ValueError
                 "start_date and end_date are required when not in incremental mode"%string)
    end.

(** Lines 186-195: [true] when the run returns early ("already up to
    date"), after closing the connection. *)
Definition already_up_to_date (env : Env) (args : Args) : M bool :=
  if incremental args then
    last_end_date <- get_last_extraction_date env ;;
    match last_end_date with
    | Some s =>
        if PyStr.truthy s then
          last_end_dt <- lift_result (strptime s) ;;
          let current_month := replace_day1 (now env) in
          if dt_geb last_end_dt current_month then
            logging INFO
              "No new data to extract. Already up to date."%string ;;
            (fun w => (Ok tt, close_database_connection w)) ;;
            ret true
          else ret false
        else ret false
    | None => ret false
    end
  else ret false.

(** The part of the [try] block in which [extraction_id] is not yet
    bound: [None] is the early [return]. *)
Definition open_job (env : Env) (args : Args)
  : M (option (string * string * Z)) :=
  range <- resolve_range env args ;;
  done <- already_up_to_date env args ;;
  if done : bool then ret None
  else
    extraction_id <- log_extraction_start env (fst range) (snd range) ;;
    ret (Some (fst range, snd range, extraction_id)).

(** The rest of the [try] block, where [extraction_id] is bound. *)
Definition run_job (env : Env) (args : Args) (location_ids : list string)
  (start_d end_d : string) (extraction_id : Z) : M unit :=
  data_file_paths <-
    lift_result (compile_data_file_paths location_ids start_d end_d) ;;
  extract_query_template <-
    lift_result (read_query env (extract_query_template_path args)) ;;
  (if negb (incremental args) then
     logging INFO
       "Deleting existing data for the specified date range..."%string ;;
     delete_existing_data env start_d end_d
   else ret tt) ;;
  _ <- extract_partitions env (source_base_path args)
         extract_query_template data_file_paths 0 ;;
  records <- count_records env start_d end_d ;;
  log_extraction_complete env extraction_id records.

(** [except Exception as e]: the job is marked failed when
    ['extraction_id' in locals()], and the exception is raised again. *)
Definition on_exception (env : Env) (extraction_id : option Z) (e : exn)
  : M unit :=
  match extraction_id with
  | Some id => log_extraction_failed env id (exn_msg e)
  | None => ret tt
  end ;;
  logging ERROR ("Extraction failed: " ++ exn_msg e)%string ;;
  raise e.

(** [connect_to_database] is not among the sources either; the
    connection is taken to open, on the database of the world. *)
Definition extract_data (env : Env) (args : Args) : M unit :=
  location_ids <- read_location_ids env (locations_file_path args) ;;
  try_finally
    (fun w =>
       match open_job env args w with
       | (Raise e, w1) => on_exception env None e w1
       | (Ok None, w1) => (Ok tt, w1)
       | (Ok (Some (start_d, end_d, extraction_id)), w1) =>
           try_except
             (run_job env args location_ids start_d end_d extraction_id)
             (on_exception env (Some extraction_id)) w1
       end)
    close_database_connection.

(* ================================================================== *)
(** ** Reference definitions, in the words of the specification        *)
(* ================================================================== *)

(** The month with a given number on the line of months. *)
Definition month_of_index (i : Z) : datetime :=
  first_of_month (i / 12) (i mod 12 + 1).

Fixpoint months_from (n : nat) (i : Z) : list datetime :=
  match n with
  | O => []
  | S n' => month_of_index i :: months_from n' (i + 1)
  end.

(** Every calendar month from [start_month] to [end_month] inclusive,
    ascending, stepping by exactly one month. *)
Definition months_inclusive (start_dt end_dt : datetime) : list datetime :=
  months_from (Z.to_nat (month_index end_dt - month_index start_dt + 1))
    (month_index start_dt).

(** The last month a [datetime] can hold, 9999-12. *)
Definition last_month_index : Z := 12 * MAXYEAR + 11.

(** A partition locator: a location and a month. *)
Definition PartitionLocator : Type := (string * datetime)%type.

(** Locations in registry order and, within each location, the months of
    the range ascending. *)
Definition partition_sequence (location_ids : list string)
  (start_dt end_dt : datetime) : list PartitionLocator :=
  flat_map (fun loc => map (fun m => (loc, m))
                         (months_inclusive start_dt end_dt))
    location_ids.

(** The remote path of a locator. *)
Definition locator_path (l : PartitionLocator) : string :=
  render_data_file_path (fst l) (PyStr.str_int (year (snd l)))
    (PyStr.zfill 2 (PyStr.str_int (month (snd l)))).

(** The DELETE statement of the guard for a month. *)
Definition delete_stmt (m : datetime) : stmt :=
  DeleteMonth (year m) (PyStr.zfill 2 (PyStr.str_int (month m))).

(** What happened on the connection during a run from [w] to [w']. *)
Definition run_events (w w' : World) : list event :=
  skipn (List.length (events w)) (events w').

(** The statement of an event, carried out or refused. *)
Definition submitted (e : event) : option stmt :=
  match e with
  | Executed s => Some s
  | Refused s _ => Some s
  | Closed => None
  end.

Definition is_ledger_write (s : stmt) : bool :=
  match s with
  | InsertExtractionLog _ _ => true
  | UpdateCompleted _ _ => true
  | UpdateFailed _ _ => true
  | _ => false
  end.

Definition is_delete (s : stmt) : bool :=
  match s with
  | DeleteMonth _ _ => true
  | _ => false
  end.

Definition is_load (s : stmt) : bool :=
  match s with
  | LoadQuery _ => true
  | _ => false
  end.

Definition event_is (p : stmt -> bool) (e : event) : bool :=
  match submitted e with
  | Some s => p s
  | None => false
  end.

(** The writes to [raw.extraction_log] among some events, in order. *)
Definition ledger_writes (evs : list event) : list event :=
  filter (event_is is_ledger_write) evs.

(** The DELETE statements submitted among some events, in order. *)
Definition deletes_of (evs : list event) : list event :=
  filter (event_is is_delete) evs.

(** The load statements submitted among some events, in order. *)
Definition loads_of (evs : list event) : list event :=
  filter (event_is is_load) evs.

(** The row [log_extraction_start] inserts. *)
Definition new_job (env : Env) (id : Z) (start_d end_d : string)
  : ExtractionJob :=
  mkJob id (now env) None start_d end_d running None None.

(** The rows of the ledger with a given [extraction_id]. *)
Definition jobs_with_id (id : Z) (d : DB) : list ExtractionJob :=
  filter (fun j => extraction_id j =? id) (extraction_log d).

(** Every [extraction_id] in use is below the next one of the sequence. *)
Definition ledger_wf (d : DB) : Prop :=
  Forall (fun j => extraction_id j < next_extraction_id d)
    (extraction_log d).

(** An event is allowed by [p] when its statement, if any, satisfies [p]. *)
Definition allowed (p : stmt -> bool) (e : event) : Prop :=
  match submitted e with
  | Some s => p s = true
  | None => True
  end.

(** A computation that only submits statements satisfying [p]. *)
Definition emits {A : Type} (p : stmt -> bool) (c : M A) : Prop :=
  forall w r w',
    c w = (r, w') ->
    exists evs, events w' = events w ++ evs /\ Forall (allowed p) evs.

(** A computation that leaves [raw.extraction_log] and its sequence alone. *)
Definition keeps_ledger {A : Type} (c : M A) : Prop :=
  forall w r w',
    c w = (r, w') ->
    extraction_log (db w') = extraction_log (db w)
    /\ next_extraction_id (db w') = next_extraction_id (db w).

(** A computation that leaves the whole database alone. *)
Definition keeps_db {A : Type} (c : M A) : Prop :=
  forall w r w', c w = (r, w') -> db w' = db w.

Definition is_select (s : stmt) : bool :=
  match s with
  | SelectLastExtraction => true
  | _ => false
  end.

Definition is_count (s : stmt) : bool :=
  match s with
  | CountRange _ _ => true
  | _ => false
  end.

Definition not_ledger_write (s : stmt) : bool := negb (is_ledger_write s).

Definition not_delete (s : stmt) : bool := negb (is_delete s).

Definition any_stmt (s : stmt) : bool := true.

(** From [w] to [w'] only statements satisfying [p] were submitted and
    the ledger was left alone. *)
Definition quiet_step (p : stmt -> bool) (w w' : World) : Prop :=
  (exists evs, events w' = events w ++ evs /\ Forall (allowed p) evs)
  /\ extraction_log (db w') = extraction_log (db w)
  /\ next_extraction_id (db w') = next_extraction_id (db w).

(** How a run of [extract_data] from [w] to [w'] with result [r] stands
    with respect to the ledger: the writes to [raw.extraction_log] it
    submitted, in order, and the rows it leaves. *)
Inductive ledger_outcome (env : Env) (w : World) (r : result unit)
  (w' : World) : Prop :=
| no_job_opened :
    ledger_writes (run_events w w') = [] ->
    extraction_log (db w') = extraction_log (db w) ->
    ledger_outcome env w r w'
| open_refused (s e : string) (ex : exn) :
    ledger_writes (run_events w w')
    = [Refused (InsertExtractionLog s e) ex] ->
    extraction_log (db w') = extraction_log (db w) ->
    r = Raise ex ->
    ledger_outcome env w r w'
| job_completed (s e : string) (n : Z) (evs : list event) :
    run_events w w'
    = evs ++ [Executed (CountRange s e);
              Executed (UpdateCompleted (next_extraction_id (db w)) n);
              Closed] ->
    ledger_writes evs = [Executed (InsertExtractionLog s e)] ->
    n = count_range s e (air_quality (db w')) ->
    extraction_log (db w')
    = map (set_completed (now env) (next_extraction_id (db w)) n)
        (extraction_log (db w)
           ++ [new_job env (next_extraction_id (db w)) s e]) ->
    r = Ok tt ->
    ledger_outcome env w r w'
| complete_refused_job_failed (s e : string) (n : Z) (ex : exn) :
    ledger_writes (run_events w w')
    = [Executed (InsertExtractionLog s e);
       Refused (UpdateCompleted (next_extraction_id (db w)) n) ex;
       Executed (UpdateFailed (next_extraction_id (db w)) (exn_msg ex))] ->
    extraction_log (db w')
    = map (set_failed (now env) (next_extraction_id (db w)) (exn_msg ex))
        (extraction_log (db w)
           ++ [new_job env (next_extraction_id (db w)) s e]) ->
    r = Raise ex ->
    ledger_outcome env w r w'
| complete_refused_fail_refused (s e : string) (n : Z) (ex ex' : exn) :
    ledger_writes (run_events w w')
    = [Executed (InsertExtractionLog s e);
       Refused (UpdateCompleted (next_extraction_id (db w)) n) ex;
       Refused (UpdateFailed (next_extraction_id (db w)) (exn_msg ex)) ex'] ->
    extraction_log (db w')
    = extraction_log (db w)
        ++ [new_job env (next_extraction_id (db w)) s e] ->
    r = Raise ex' ->
    ledger_outcome env w r w'
| job_failed (s e : string) (ex : exn) :
    ledger_writes (run_events w w')
    = [Executed (InsertExtractionLog s e);
       Executed (UpdateFailed (next_extraction_id (db w)) (exn_msg ex))] ->
    extraction_log (db w')
    = map (set_failed (now env) (next_extraction_id (db w)) (exn_msg ex))
        (extraction_log (db w)
           ++ [new_job env (next_extraction_id (db w)) s e]) ->
    r = Raise ex ->
    ledger_outcome env w r w'
| fail_refused (s e : string) (ex ex' : exn) :
    ledger_writes (run_events w w')
    = [Executed (InsertExtractionLog s e);
       Refused (UpdateFailed (next_extraction_id (db w)) (exn_msg ex)) ex'] ->
    extraction_log (db w')
    = extraction_log (db w)
        ++ [new_job env (next_extraction_id (db w)) s e] ->
    r = Raise ex' ->
    ledger_outcome env w r w'.

Definition is_terminal (s : stmt) : bool :=
  match s with
  | UpdateCompleted _ _ => true
  | UpdateFailed _ _ => true
  | _ => false
  end.

(** A terminal transition the ledger carried out. *)
Definition applied_terminal (e : event) : bool :=
  match e with
  | Executed s => is_terminal s
  | _ => false
  end.

(** The statement was submitted (carried out or refused). *)
Definition invoked (s : stmt) (evs : list event) : Prop :=
  exists ev, In ev evs /\ submitted ev = Some s.

(** C2 as the specification states it, on the events of one run: once a
    job is opened, exactly one terminal transition is applied, and
    [complete] and [fail] are not both invoked for one job. *)
Definition one_terminal_transition (evs : list event) : Prop :=
  (exists s e, In (Executed (InsertExtractionLog s e)) evs) ->
  List.length (filter applied_terminal evs) = 1%nat
  /\ ~ (exists id n msg,
          invoked (UpdateCompleted id n) evs
          /\ invoked (UpdateFailed id msg) evs).

(* ------------------------------------------------------------------ *)
(** *** Concrete surroundings for the examples                         *)

Definition empty_db : DB := mkDB [] 1 [].

Definition fresh_world : World := mkWorld empty_db [] [].

(** 2026-11-03 14:38:00 *)
Definition an_afternoon : datetime := mkDatetime 2026 11 3 14 38 0 0.

(** A load statement that appends two measurements of January 2024,
    carrying the statement as payload. *)
Definition append_rows (d : DB) (q : string) : list AirRow :=
  air_quality d ++ [mkAirRow 2024 "01" q; mkAirRow 2024 "01" q].

(** A load statement the engine carried out. *)
Definition executed_load (e : event) : bool :=
  match e with
  | Executed (LoadQuery _) => true
  | _ => false
  end.

Definition no_fault (d : DB) (s : stmt) : option exn := None.

(** Surroundings in which the engine refuses according to [f] and the view
    of the ledger answers [last]; two locations A and B. *)
Definition env_with (f : DB -> stmt -> option exn)
  (last : option (option string)) : Env :=
  mkEnv an_afternoon f (fun _ => last) append_rows
    (fun _ p => Ok ("COPY " ++ p)%string)
    (fun _ => Ok "COPY {{data_file_path}}"%string)
    (fun _ => Ok ["A"; "B"]%string).

Definition manual_args (s e : string) : Args :=
  mkArgs "locations.json" (Some s) (Some e) "insert.sql" "air_quality.db"
    "s3://bucket" false.

Definition incremental_args : Args :=
  mkArgs "locations.json" None None "insert.sql" "air_quality.db"
    "s3://bucket" true.

(** The engine refuses the UPDATE of [log_extraction_complete]. *)
Definition refuse_complete (d : DB) (s : stmt) : option exn :=
  match s with
  | UpdateCompleted _ _ => Some (mkExn OtherException "disk full")
  | _ => None
  end.

(** Manual bounds that parse, with [start_month] strictly after
    [end_month]. *)
Definition range_reversed (args : Args) : Prop :=
  exists s e sdt edt,
    args_start_date args = Some s /\ args_end_date args = Some e
    /\ strptime s = Ok sdt /\ strptime e = Ok edt
    /\ dt_leb sdt edt = false.

(** C1 as the specification states it: a manual run over a reversed range
    fails with an error and writes nothing to the ledger. *)
Definition rejects_reversed_range (env : Env) (args : Args) (w : World)
  : Prop :=
  incremental args = false ->
  range_reversed args ->
  (exists ex, fst (extract_data env args w) = Raise ex)
  /\ ledger_writes (run_events w (snd (extract_data env args w))) = []
  /\ extraction_log (db (snd (extract_data env args w)))
     = extraction_log (db w).

(** The guard as [run_job] calls it. *)
Definition guard (env : Env) (args : Args) (start_d end_d : string)
  : M unit :=
  if negb (incremental args) then
    logging INFO
      "Deleting existing data for the specified date range..."%string ;;
    delete_existing_data env start_d end_d
  else ret tt.

(** A month number on exactly two decimal digits, zero-padded. *)
Definition two_digits (m : Z) : string :=
  String (PyStr.digit_char (m / 10))
    (String (PyStr.digit_char (m mod 10)) EmptyString).

(** A year on exactly four decimal digits. *)
Definition four_digits (y : Z) : string :=
  String (PyStr.digit_char (y / 1000))
    (String (PyStr.digit_char (y / 100 mod 10))
       (String (PyStr.digit_char (y / 10 mod 10))
          (String (PyStr.digit_char (y mod 10)) EmptyString))).

(** The text ["YYYY-MM"] of a month. *)
Definition year_month (y m : Z) : string :=
  (four_digits y ++ "-" ++ two_digits m)%string.

(** The engine refuses both terminal UPDATEs. *)
Definition refuse_updates (d : DB) (s : stmt) : option exn :=
  match s with
  | UpdateCompleted _ _ => Some (mkExn OtherException "disk full")
  | UpdateFailed _ _ => Some (mkExn OtherException "database is locked")
  | _ => None
  end.

(** The engine refuses the read of the view of the ledger. *)
Definition refuse_select (d : DB) (s : stmt) : option exn :=
  match s with
  | SelectLastExtraction =>
      Some (mkExn OtherException "Catalog Error: view does not exist")
  | _ => None
  end.

(** An event is the load of a path: its statement is the template
    rendered at that path. *)
Definition loads_path (env : Env) (base tmpl : string) (ev : event)
  (p : string) : Prop :=
  exists q, compile_data_file_query env base p tmpl = Ok q
            /\ submitted ev = Some (LoadQuery q).

(** The warning the executor logs for a missing partition. *)
Definition not_found_warning (p : string) (ex : exn)
  : log_level * string :=
  (WARNING, ("Could not find data from " ++ p ++ ": " ++ exn_msg ex)%string).

(** The engine refuses the load of location B in January 2024 with an
    exception of class [c], and nothing else. *)
Definition refuse_load_B (c : exn_class) (d : DB) (s : stmt) : option exn :=
  match s with
  | LoadQuery q =>
      if String.eqb q "COPY s3://bucket/locationid=B/year=2024/month=01/*"
      then Some (mkExn c "no files found")
      else None
  | _ => None
  end.

(** C9 as the specification states it: the number of rows of the target
    table whose year-month text, the year followed by a dash and the month,
    lies between the two bounds of the range, both included. *)
Fixpoint rows_between (start_d end_d : string) (rows : list AirRow) : Z :=
  match rows with
  | [] => 0
  | row :: rest =>
      let key := (PyStr.str_int (aq_year row) ++ "-" ++ aq_month row)%string in
      (if (String.leb start_d key && String.leb key end_d)%bool
       then 1 else 0)
      + rows_between start_d end_d rest
  end.

(** A table that already holds measurements of months before and after
    January and February 2024. *)
Definition stocked_world : World :=
  mkWorld (mkDB [] 1 [mkAirRow 2023 "12" "old"; mkAirRow 2024 "03" "old"])
    [] [].

(** C10, the rows the loads store: a measurement of month [m] of year [y]
    carries the month on two zero-padded digits. *)
Definition padded_row (t : Z * Z * string) : AirRow :=
  mkAirRow (fst (fst t)) (PyStr.zfill 2 (PyStr.str_int (snd (fst t))))
    (snd t).

(** A year on four digits and a month from 1 to 12. *)
Definition valid_month (t : Z * Z * string) : Prop :=
  1000 <= fst (fst t) <= 9999 /\ 1 <= snd (fst t) <= 12.

(** The month of [t] lies between the months [ms] of [ys] and [me] of
    [ye], both included. *)
Definition month_between (ys ms ye me : Z) (t : Z * Z * string) : bool :=
  (12 * ys + ms <=? 12 * fst (fst t) + snd (fst t))
  && (12 * fst (fst t) + snd (fst t) <=? 12 * ye + me).

(* ================================================================== *)
(** ** Further reference definitions                                   *)
(* ================================================================== *)

(** The text of a month whose number is written on one digit, as
    [strptime] accepts it: ["2024-1"]. *)
Definition one_digit_month (y m : Z) : string :=
  (four_digits y ++ "-"
     ++ String (PyStr.digit_char m) EmptyString)%string.

(** A row belongs to one of the months [ms], as the DELETE statements of
    the guard test it. *)
Definition in_months (ms : list datetime) (r : AirRow) : bool :=
  existsb (fun m => in_month (year m)
                      (PyStr.zfill 2 (PyStr.str_int (month m))) r) ms.

(** A load statement the engine refused. *)
Definition refused_load (e : event) : bool :=
  match e with
  | Refused (LoadQuery _) _ => true
  | _ => false
  end.

Definition is_closed (e : event) : bool :=
  match e with
  | Closed => true
  | _ => false
  end.

(** How many times the connection was closed among some events. *)
Definition closes (evs : list event) : nat :=
  List.length (filter is_closed evs).

(** The rows the load loop appends for some paths, when the load of a
    rendered statement appends the rows [remote] gives for it. *)
Definition loaded_rows (env : Env) (base tmpl : string)
  (remote : string -> list AirRow) (paths : list string) : list AirRow :=
  flat_map (fun p => match compile_data_file_query env base p tmpl with
                     | Ok q => remote q
                     | Raise _ => []
                     end) paths.

(** The rows of a table outside the months [ms]. *)
Definition rows_outside (ms : list datetime) (rows : list AirRow)
  : list AirRow :=
  filter (fun r => negb (in_months ms r)) rows.

(** An engine that refuses no statement. *)
Definition refuses_nothing (env : Env) : Prop :=
  forall d st, fault env d st = None.

(** A load statement appends to [raw.air_quality] the rows that [remote]
    gives for it, whatever the table holds. *)
Definition appending_loader (env : Env) (remote : string -> list AirRow)
  : Prop :=
  forall d q, load_rows env d q = air_quality d ++ remote q.

(** The load statement of a path. *)
Definition load_event (env : Env) (base tmpl p : string) : event :=
  Executed (LoadQuery match compile_data_file_query env base p tmpl with
                      | Ok q => q
                      | Raise _ => EmptyString
                      end).

(** The rows that two measurements per partition leave: the remote files
    of the example surroundings, keyed by the year and month of the path. *)
Definition two_rows_per_file (q : string) : list AirRow :=
  [mkAirRow 2024 "01" q; mkAirRow 2024 "01" q].

(** Example surroundings whose registry of locations is empty. *)
Definition env_no_locations : Env :=
  mkEnv an_afternoon no_fault (fun _ => None) append_rows
    (fun _ p => Ok ("COPY " ++ p)%string)
    (fun _ => Ok "COPY {{data_file_path}}"%string)
    (fun _ => Ok []).

(** A computation that does not close the connection. *)
Definition no_close {A : Type} (c : M A) : Prop :=
  forall w r w',
    c w = (r, w') ->
    exists evs, events w' = events w ++ evs
                /\ Forall (fun e => is_closed e = false) evs.

(** The run takes the early [return] of lines 193-195. *)
Definition returns_early (env : Env) (args : Args) (w : World) : bool :=
  match fst (open_job env args w) with
  | Ok None => true
  | _ => false
  end.

(** The statements of the loads the engine carried out, in order. *)
Definition load_queries (evs : list event) : list string :=
  flat_map (fun e => match e with
                     | Executed (LoadQuery q) => [q]
                     | _ => []
                     end) evs.

(** A computation under which [raw.air_quality] only grows, by the rows of
    the loads it carried out. *)
Definition appends_loads {A : Type} (remote : string -> list AirRow)
  (c : M A) : Prop :=
  forall w r w',
    c w = (r, w') ->
    exists evs,
      events w' = events w ++ evs
      /\ air_quality (db w')
         = air_quality (db w) ++ flat_map remote (load_queries evs).

(* ================================================================== *)
(** ** [setup_database.py]                                             *)
(* ================================================================== *)

Module Setup.

(** What a run does outside: a script file read, a statement the engine
    carried out, a statement it refused, the connection closed. *)
Inductive event : Type :=
| Read (path : string)
| Executed (query : string)
| Refused (query : string) (e : exn)
| Closed.

Record Env : Type := mkEnv {
  (** [os.path.dirname(os.path.abspath(__file__))] *)
  script_dir : string;
  (** the text of a file, or the exception that reading it raises *)
  read_file : string -> result string;
  (** the exception, if any, with which the engine refuses a statement
      after what has happened so far *)
  fault : list event -> string -> option exn
}.

Record World : Type := mkWorld {
  events : list event;
  logs : list (log_level * string)
}.

Definition logging (lvl : log_level) (msg : string) (w : World) : World :=
  mkWorld (events w) (logs w ++ [(lvl, msg)]).

Definition record_event (e : event) (w : World) : World :=
  mkWorld (events w ++ [e]) (logs w).

(** Modelled from the spec: [read_query(path)] of [database_manager]
    returns the text of the file, or raises. *)
Definition read_query (env : Env) (path : string) (w : World)
  : result string * World :=
  (read_file env path, record_event (Read path) w).

(** Modelled from the spec: [execute_query(con, query)] of
    [database_manager] submits the statement to the connection. *)
Definition execute_query (env : Env) (query : string) (w : World)
  : result unit * World :=
  match fault env (events w) query with
  | Some e => (Raise e, record_event (Refused query e) w)
  | None => (Ok tt, record_event (Executed query) w)
  end.

(** Modelled from the spec: [close_database_connection] closes the
    connection and is taken not to raise. *)
Definition close_database_connection (w : World) : World :=
  record_event Closed w.

Fixpoint ends_with_slash (s : string) : bool :=
  match s with
  | EmptyString => false
  | String c EmptyString => Ascii.eqb c "/"
  | String _ rest => ends_with_slash rest
  end.

(** [os.path.join(a, *p)] of [posixpath]. *)
Definition path_join (a : string) (p : list string) : string :=
  fold_left
    (fun path b =>
       if String.prefix "/" b then b
       else if (String.eqb path "" || ends_with_slash path)%bool
            then (path ++ b)%string
            else (path ++ "/" ++ b)%string)
    p a.

Definition ddl_scripts : list string :=
  ["0_schemas.sql"; "1_raw_air_quality.sql";
   "2_metadata_extraction_log.sql"]%string.

(** The [for] loop over the scripts. *)
Fixpoint run_scripts (env : Env) (sql_dir : string) (scripts : list string)
  (w : World) : result unit * World :=
  match scripts with
  | [] => (Ok tt, w)
  | script_name :: rest =>
      let script_path := path_join sql_dir [script_name] in
      let w := logging INFO ("Executing " ++ script_name ++ "...")%string w in
      match read_query env script_path w with
      | (Raise e, w) => (Raise e, w)
      | (Ok query, w) =>
          match execute_query env query w with
          | (Raise e, w) => (Raise e, w)
          | (Ok _, w) =>
              run_scripts env sql_dir rest
                (logging INFO
                   ("Successfully executed " ++ script_name)%string w)
          end
      end
  end.

Definition sql_dir (env : Env) : string :=
  path_join (script_dir env) [".."; "sql"; "ddl"]%string.

(** [connect_to_database] is not among the sources; the connection is
    taken to open. *)
Definition setup_database (env : Env) (database_path : string) (w : World)
  : result unit * World :=
  let w := logging INFO ("Setting up database at " ++ database_path)%string w in
  let '(r, w) :=
    match run_scripts env (sql_dir env) ddl_scripts w with
    | (Ok _, w) =>
        (Ok tt, logging INFO "Database setup completed successfully!"%string w)
    | (Raise e, w) =>
        (Raise e,
         logging ERROR ("Database setup failed: " ++ exn_msg e)%string w)
    end in
  (r, close_database_connection w).

(** The path of a script as [setup_database] builds it. *)
Definition script_path (env : Env) (script_name : string) : string :=
  path_join (sql_dir env) [script_name].

(** The events of scripts read and carried out, one after the other. *)
Definition script_events (pqs : list (string * string)) : list event :=
  flat_map (fun pq => [Read (fst pq); Executed (snd pq)]) pqs.

(** What a script that fails leaves: the read that raised, or the read and
    the statement the engine refused. *)
Definition failure_events (env : Env) (name : string) (ex : exn)
  (tail : list event) : Prop :=
  (read_file env (script_path env name) = Raise ex
   /\ tail = [Read (script_path env name)])
  \/ (exists q, read_file env (script_path env name) = Ok q
                /\ tail = [Read (script_path env name); Refused q ex]).

(** Example surroundings: the scripts are there, and the engine refuses
    according to [f]. *)
Definition env_with (f : list event -> string -> option exn) : Env :=
  mkEnv "/app/pipeline" (fun p => Ok ("-- " ++ p)%string) f.

(** The engine refuses the creation of the second script. *)
Definition refuse_second (evs : list event) (q : string) : option exn :=
  if String.eqb q "-- /app/pipeline/../sql/ddl/1_raw_air_quality.sql"
  then Some (mkExn OtherException "Catalog Error")
  else None.

Definition fresh_world : World := mkWorld [] [].

End Setup.

(* ================================================================== *)
(** ** [dashboard/app.py]: the callback of the dropdowns               *)
(* ================================================================== *)

Module Dashboard.

(** Modelled from the spec: a row of the view
    [presentation.daily_air_quality_stats], which is not among the
    sources.  The callback reads the columns [parameter] and
    [measurement_date]; the date is a point on the time line, the other
    columns are an opaque payload, and no column is taken to hold NULL. *)
Record StatRow : Type := mkStatRow {
  parameter : string;
  measurement_date : Z;
  stat_payload : string
}.

(** [Series.unique()]: the distinct values, in order of first
    appearance. *)
Fixpoint unique (values : list string) : list string :=
  match values with
  | [] => []
  | v :: rest => v :: filter (fun x => negb (String.eqb x v)) (unique rest)
  end.

(** [Series.min()] and [Series.max()]; [None] is [NaT], what an empty
    column gives. *)
Definition series_min (values : list Z) : option Z :=
  match values with
  | [] => None
  | v :: rest => Some (fold_left Z.min rest v)
  end.

Definition series_max (values : list Z) : option Z :=
  match values with
  | [] => None
  | v :: rest => Some (fold_left Z.max rest v)
  end.

(** [a[0]] on an array without elements. *)
Definition index_error : exn :=
  mkExn OtherException
    "index 0 is out of bounds for axis 0 with size 0"%string.

(** An option of the dropdown: [{"label": p, "value": p}]. *)
Record DropdownOption : Type := mkOption {
  label : string;
  value : string
}.

(** [update_dropdowns], on the frame that [fetchdf()] returned: the
    options, the selected value, and the two ends of the date picker. *)
Definition update_dropdowns (df : list StatRow)
  : result (list DropdownOption * string * option Z * option Z) :=
  let parameter_options :=
    map (fun p => mkOption p p) (unique (map parameter df)) in
  let start_date := series_min (map measurement_date df) in
  let end_date := series_max (map measurement_date df) in
  match unique (map parameter df) with
  | [] => Raise index_error
  | first :: _ => Ok (parameter_options, first, start_date, end_date)
  end.

End Dashboard.

(* ================================================================== *)
(** ** Months: parsing, order and successor                            *)
(* ================================================================== *)

Section Calendar.

Ltac fields :=
  cbn [year month day hour minute second microsecond first_of_month] in *.

Lemma is_digit_val (c : ascii) :
  PyStr.is_digit c = true -> 0 <= PyStr.digit_val c <= 9.
Proof.
  unfold PyStr.is_digit, PyStr.digit_val.
  rewrite andb_true_iff, !N.leb_le. lia.
Qed.

Lemma strptime_Ym_month_start (s : string) (dt : datetime) :
  strptime_Ym s = Some dt -> is_month_start dt.
Proof.
  unfold strptime_Ym.
  destruct s as [|a [|b [|c [|d [|dash rest]]]]]; try discriminate.
  destruct (PyStr.is_digit a) eqn:Ha; try discriminate.
  destruct (PyStr.is_digit b) eqn:Hb; try discriminate.
  destruct (PyStr.is_digit c) eqn:Hc; try discriminate.
  destruct (PyStr.is_digit d) eqn:Hd; try discriminate.
  destruct (Ascii.eqb dash "-"); try discriminate.
  cbn [andb].
  apply is_digit_val in Ha, Hb, Hc, Hd.
  set (y := 1000 * _ + _ + _ + _).
  assert (Hy : 0 <= y <= 9999) by (subst y; lia).
  clearbody y.
  assert (Hm : forall mo m,
             mo = Some m -> 1 <= m <= 12 ->
             match mo with
             | Some m => if y =? 0 then None else Some (first_of_month y m)
             | None => None
             end = Some dt -> is_month_start dt).
  { intros mo m -> Hm H. destruct (Z.eqb_spec y 0); try discriminate.
    injection H as <-. unfold is_month_start, MINYEAR, MAXYEAR; fields.
    lia. }
  destruct rest as [|m1 [|m2 [|]]]; try discriminate.
  - destruct (PyStr.is_digit m1) eqn:H1; try discriminate.
    destruct (Ascii.eqb_spec m1 "0"); try discriminate.
    cbn [andb negb]. apply (Hm _ (PyStr.digit_val m1) eq_refl).
    apply is_digit_val in H1.
    assert (PyStr.digit_val m1 <> 0).
    { intro H0. apply n. unfold PyStr.digit_val in H0.
      rewrite <- (ascii_N_embedding m1).
      replace (N_of_ascii m1) with 48%N by lia. reflexivity. }
    lia.
  - destruct (PyStr.is_digit m1) eqn:H1; try discriminate.
    destruct (PyStr.is_digit m2) eqn:H2; try discriminate.
    cbn [andb].
    destruct (1 <=? _) eqn:Hlo; try discriminate.
    destruct (_ <=? 12) eqn:Hhi; try discriminate.
    cbn [andb]. apply (Hm _ _ eq_refl). lia.
Qed.

Lemma strptime_month_start (s : string) (dt : datetime) :
  strptime s = Ok dt -> is_month_start dt.
Proof.
  unfold strptime. destruct (strptime_Ym s) eqn:E; try discriminate.
  intros [= <-]. eauto using strptime_Ym_month_start.
Qed.

Lemma month_index_bounds (dt : datetime) :
  is_month_start dt -> 12 <= month_index dt <= last_month_index.
Proof.
  unfold is_month_start, month_index, last_month_index, MINYEAR, MAXYEAR.
  lia.
Qed.

Lemma dt_leb_month_index (a b : datetime) :
  is_month_start a -> is_month_start b ->
  dt_leb a b = (month_index a <=? month_index b).
Proof.
  destruct a as [ya ma da ha mia sa ua], b as [yb mb db hb mib sb ub].
  unfold is_month_start, dt_leb, dt_compare, month_index, MINYEAR, MAXYEAR.
  fields.
  intros (Hya & Hma & -> & -> & -> & -> & ->)
         (Hyb & Hmb & -> & -> & -> & -> & ->).
  rewrite !Z.compare_refl.
  destruct (Z.leb_spec (12 * ya + (ma - 1)) (12 * yb + (mb - 1)));
    destruct (Z.compare_spec ya yb); try lia;
    destruct (Z.compare_spec ma mb); try lia; reflexivity.
Qed.

Lemma add_months_succ (dt : datetime) :
  is_month_start dt -> month_index dt < last_month_index ->
  exists dt', add_months dt 1 = Some dt' /\ is_month_start dt'
              /\ month_index dt' = month_index dt + 1.
Proof.
  destruct dt as [y m d h mi s u].
  unfold is_month_start, month_index, last_month_index, add_months,
    MINYEAR, MAXYEAR; fields.
  intros (Hy & Hm & -> & -> & -> & -> & ->) Hlt.
  assert (Hd : forall y' m', Z.min (days_in_month y' m') 1 = 1).
  { intros y' m'. unfold days_in_month.
    destruct (m' =? 2); [destruct (isleap y')|];
      try destruct (_ || _); lia. }
  destruct (Z.gtb_spec (m + 1) 12) as [Hgt|Hle].
  - rewrite Hd.
    replace ((1 <=? y + 1) && (y + 1 <=? 9999)) with true
      by (symmetry; apply andb_true_iff; split; apply Z.leb_le; lia).
    eexists; split; [reflexivity|]. fields. lia.
  - destruct (Z.ltb_spec (m + 1) 1); [lia|]. rewrite Hd.
    replace ((1 <=? y) && (y <=? 9999)) with true
      by (symmetry; apply andb_true_iff; split; apply Z.leb_le; lia).
    eexists; split; [reflexivity|]. fields. lia.
Qed.

Lemma add_months_last (dt : datetime) :
  is_month_start dt -> month_index dt = last_month_index ->
  add_months dt 1 = None.
Proof.
  destruct dt as [y m d h mi s u].
  unfold is_month_start, month_index, last_month_index, add_months,
    MINYEAR, MAXYEAR; fields.
  intros (Hy & Hm & -> & -> & -> & -> & ->) Heq.
  assert (y = 9999 /\ m = 12) as [-> ->] by lia. reflexivity.
Qed.

Lemma month_of_index_index (dt : datetime) :
  is_month_start dt -> month_of_index (month_index dt) = dt.
Proof.
  destruct dt as [y m d h mi s u].
  unfold is_month_start, month_index, month_of_index, MINYEAR, MAXYEAR.
  fields.
  intros (Hy & Hm & -> & -> & -> & -> & ->).
  replace (12 * y + (m - 1)) with ((m - 1) + y * 12) by lia.
  rewrite Z.div_add, Z.mod_add by lia.
  rewrite (Z.div_small (m - 1) 12), (Z.mod_small (m - 1) 12) by lia.
  unfold first_of_month. f_equal; lia.
Qed.

End Calendar.

(* ================================================================== *)
(** ** The partition path compiler                                     *)
(* ================================================================== *)

Section Compiler.

Lemma months_from_length (n : nat) (i : Z) :
  List.length (months_from n i) = n.
Proof. revert i; induction n; intros; cbn; auto. Qed.

Lemma months_from_nth (n k : nat) (i : Z) (d : datetime) :
  (k < n)%nat -> nth k (months_from n i) d = month_of_index (i + Z.of_nat k).
Proof.
  revert k i; induction n as [|n IH]; intros k i Hk; [lia|].
  destruct k as [|k]; cbn [months_from nth].
  - f_equal; lia.
  - rewrite IH by lia. f_equal; lia.
Qed.

Lemma months_fuel_zero (idx end_dt : datetime) :
  is_month_start idx -> is_month_start end_dt ->
  months_fuel idx end_dt = O -> dt_leb idx end_dt = false.
Proof.
  intros Hi He H. rewrite dt_leb_month_index by assumption.
  apply Z.leb_gt. unfold months_fuel in H. lia.
Qed.

Lemma months_fuel_succ (idx idx' end_dt : datetime) (n : nat) :
  months_fuel idx end_dt = S n -> month_index idx' = month_index idx + 1 ->
  months_fuel idx' end_dt = n.
Proof. unfold months_fuel. lia. Qed.

(** The fuel never runs out: started with [months_fuel], the function
    satisfies the equation of the [while] loop. *)
Lemma months_fuel_enough (loc : string) (idx end_dt : datetime)
  (acc : list string) :
  is_month_start idx -> is_month_start end_dt ->
  compile_months (months_fuel idx end_dt) loc idx end_dt acc =
  if dt_leb idx end_dt then
    match plus_months idx 1 with
    | Ok idx' =>
        compile_months (months_fuel idx' end_dt) loc idx' end_dt
          (acc ++ [locator_path (loc, idx)])
    | Raise e => Raise e
    end
  else Ok acc.
Proof.
  intros Hi He. destruct (months_fuel idx end_dt) as [|n] eqn:Hf.
  - rewrite (months_fuel_zero _ _ Hi He Hf). reflexivity.
  - cbn [compile_months]. destruct (dt_leb idx end_dt); [|reflexivity].
    unfold plus_months.
    destruct (Z.eq_dec (month_index idx) last_month_index) as [Hl|Hl].
    + rewrite (add_months_last _ Hi Hl). reflexivity.
    + pose proof (month_index_bounds _ Hi).
      destruct (add_months_succ idx Hi) as (idx' & -> & _ & Hs); [lia|].
      rewrite (months_fuel_succ _ _ _ _ Hf Hs). reflexivity.
Qed.

Lemma compile_months_spec (n : nat) (loc : string) :
  forall (idx end_dt : datetime) (acc : list string),
    is_month_start idx -> is_month_start end_dt ->
    n = months_fuel idx end_dt ->
    compile_months n loc idx end_dt acc =
    if (month_index idx <=? month_index end_dt)
       && (month_index end_dt =? last_month_index)
    then Raise year_out_of_range
    else Ok (acc ++ map (fun m => locator_path (loc, m))
                      (months_inclusive idx end_dt)).
Proof.
  induction n as [|n IH]; intros idx end_dt acc Hi He Hn.
  - pose proof (months_fuel_zero _ _ Hi He (eq_sym Hn)) as Hgt.
    rewrite dt_leb_month_index in Hgt by assumption. rewrite Hgt.
    cbn [andb compile_months]. unfold months_inclusive.
    unfold months_fuel in Hn. rewrite <- Hn. cbn. now rewrite app_nil_r.
  - assert (Hle : month_index idx <= month_index end_dt)
      by (unfold months_fuel in Hn; lia).
    cbn [compile_months]. rewrite dt_leb_month_index by assumption.
    replace (month_index idx <=? month_index end_dt) with true
      by (symmetry; now apply Z.leb_le).
    cbn [andb]. unfold plus_months.
    pose proof (month_index_bounds _ Hi).
    pose proof (month_index_bounds _ He).
    destruct (Z.eq_dec (month_index idx) last_month_index) as [Hl|Hl].
    + rewrite (add_months_last _ Hi Hl).
      replace (month_index end_dt =? last_month_index) with true
        by (symmetry; apply Z.eqb_eq; lia).
      reflexivity.
    + destruct (add_months_succ idx Hi) as (idx' & -> & Hi' & Hs); [lia|].
      rewrite (IH idx' end_dt _ Hi' He)
        by (symmetry; eapply months_fuel_succ; eauto).
      replace (month_index idx' <=? month_index end_dt)
        with (negb (month_index idx =? month_index end_dt))
        by (rewrite Hs; destruct (Z.eqb_spec (month_index idx)
                                    (month_index end_dt));
            cbn; symmetry; [apply Z.leb_gt|apply Z.leb_le]; lia).
      destruct (Z.eqb_spec (month_index end_dt) last_month_index) as [Hm|Hm].
      * replace (month_index idx =? month_index end_dt) with false
          by (symmetry; apply Z.eqb_neq; lia).
        reflexivity.
      * rewrite andb_false_r. f_equal. rewrite <- app_assoc. f_equal.
        unfold months_inclusive. unfold months_fuel in Hn.
        rewrite <- Hn, Hs.
        replace (Z.to_nat (month_index end_dt - (month_index idx + 1) + 1))
          with n by lia.
        cbn [months_from map app]. rewrite month_of_index_index by assumption.
        reflexivity.
Qed.

Lemma compile_locations_spec (location_ids : list string)
  (start_dt end_dt : datetime) :
  is_month_start start_dt -> is_month_start end_dt ->
  forall acc,
    compile_locations location_ids start_dt end_dt acc =
    match location_ids with
    | [] => Ok acc
    | _ :: _ =>
        if (month_index start_dt <=? month_index end_dt)
           && (month_index end_dt =? last_month_index)
        then Raise year_out_of_range
        else Ok (acc ++ map locator_path
                          (partition_sequence location_ids start_dt end_dt))
    end.
Proof.
  intros Hs He.
  induction location_ids as [|loc rest IH]; intros acc; [reflexivity|].
  cbn [compile_locations].
  rewrite (compile_months_spec _ loc start_dt end_dt acc Hs He eq_refl).
  destruct (_ && _); [reflexivity|].
  rewrite IH. unfold partition_sequence. cbn [flat_map].
  rewrite map_app, map_map.
  destruct rest; [cbn; now rewrite app_nil_r|].
  now rewrite app_assoc.
Qed.

End Compiler.

(** The loop steps once past [end_month]: for a range that ends in
    9999-12 that month is not a [datetime] and the compiler raises. *)
Example compile_last_month_raises :
  compile_data_file_paths ["A"]%string "9999-12" "9999-12"
  = Raise year_out_of_range.
Proof. reflexivity. Qed.

(** C8 -- for every location list and every range whose bounds parse and
    whose last month is before 9999-12, [compile_data_file_paths] returns the
    paths of the locators enumerated location by location in registry order
    and, within a location, month by month: the [k]-th month is [start_month]
    plus [k] months, up to [end_month] inclusive.  For locations A, B and
    2024-01..2024-02 the sequence is (A,2024-01), (A,2024-02), (B,2024-01),
    (B,2024-02). *)
Theorem C8_deterministic_enumeration
  (location_ids : list string) (start_d end_d : string)
  (start_dt end_dt : datetime) :
  strptime start_d = Ok start_dt ->
  strptime end_d = Ok end_dt ->
  month_index end_dt < last_month_index ->
  compile_data_file_paths location_ids start_d end_d
  = Ok (map locator_path (partition_sequence location_ids start_dt end_dt))
  /\ partition_sequence location_ids start_dt end_dt
     = flat_map (fun loc => map (pair loc) (months_inclusive start_dt end_dt))
         location_ids
  /\ List.length (months_inclusive start_dt end_dt)
     = Z.to_nat (month_index end_dt - month_index start_dt + 1)
  /\ (forall k d,
        (k < List.length (months_inclusive start_dt end_dt))%nat ->
        nth k (months_inclusive start_dt end_dt) d
        = month_of_index (month_index start_dt + Z.of_nat k))
  /\ partition_sequence ["A"; "B"]%string
       (first_of_month 2024 1) (first_of_month 2024 2)
     = [("A", first_of_month 2024 1); ("A", first_of_month 2024 2);
        ("B", first_of_month 2024 1); ("B", first_of_month 2024 2)]%string.
Proof.
  intros Hs He Hlast.
  pose proof (strptime_month_start _ _ Hs) as Hsm.
  pose proof (strptime_month_start _ _ He) as Hem.
  repeat split.
  - unfold compile_data_file_paths. rewrite Hs, He.
    rewrite compile_locations_spec by assumption.
    replace (month_index end_dt =? last_month_index) with false
      by (symmetry; apply Z.eqb_neq; lia).
    rewrite andb_false_r. now destruct location_ids.
  - unfold months_inclusive. apply months_from_length.
  - intros k d Hk. unfold months_inclusive in *.
    rewrite months_from_length in Hk. now apply months_from_nth.
Qed.

Lemma C8_witness :
  compile_data_file_paths ["A"; "B"]%string "2024-01" "2024-02"
  = Ok ["locationid=A/year=2024/month=01/*";
        "locationid=A/year=2024/month=02/*";
        "locationid=B/year=2024/month=01/*";
        "locationid=B/year=2024/month=02/*"]%string.
Proof.
  exact (proj1 (C8_deterministic_enumeration ["A"; "B"]%string
                  "2024-01" "2024-02"
                  (first_of_month 2024 1) (first_of_month 2024 2)
                  eq_refl eq_refl ltac:(vm_compute; reflexivity))).
Defined.

(* ================================================================== *)
(** ** Reasoning about runs                                            *)
(* ================================================================== *)

Section Runs.

Context {A B : Type}.

Lemma bind_inv (c : M A) (k : A -> M B) (w : World) (r : result B)
  (w' : World) :
  bind c k w = (r, w') ->
  (exists a w1, c w = (Ok a, w1) /\ k a w1 = (r, w'))
  \/ (exists e, c w = (Raise e, w') /\ r = Raise e).
Proof.
  unfold bind. destruct (c w) as [[a|e] w1]; intros H.
  - left; eauto.
  - right; injection H as <- <-; eauto.
Qed.

Lemma bind_ok (c : M A) (k : A -> M B) (w w1 : World) (a : A) :
  c w = (Ok a, w1) -> bind c k w = k a w1.
Proof. unfold bind; now intros ->. Qed.

Lemma bind_raise (c : M A) (k : A -> M B) (w w1 : World) (e : exn) :
  c w = (Raise e, w1) -> bind c k w = (Raise e, w1).
Proof. unfold bind; now intros ->. Qed.

End Runs.

Lemma run_events_app (w w' : World) (evs : list event) :
  events w' = events w ++ evs -> run_events w w' = evs.
Proof.
  unfold run_events; intros ->.
  rewrite skipn_app, skipn_all, Nat.sub_diag. reflexivity.
Qed.

Lemma allowed_weaken (p q : stmt -> bool) (e : event) :
  (forall s, p s = true -> q s = true) -> allowed p e -> allowed q e.
Proof. unfold allowed; destruct (submitted e); auto. Qed.

Lemma Forall_allowed_weaken (p q : stmt -> bool) (evs : list event) :
  (forall s, p s = true -> q s = true) ->
  Forall (allowed p) evs -> Forall (allowed q) evs.
Proof. intros H; apply Forall_impl; intros; eapply allowed_weaken; eauto. Qed.

Lemma allowed_filter_nil (p q : stmt -> bool) (evs : list event) :
  (forall s, p s = true -> q s = false) ->
  Forall (allowed p) evs -> filter (event_is q) evs = [].
Proof.
  intros Hpq; induction 1 as [|e evs He _ IH]; [reflexivity|].
  cbn [filter]. rewrite IH. unfold allowed, event_is in *.
  destruct (submitted e); [rewrite Hpq|]; auto.
Qed.

Section Emits.

Context {A B : Type}.

Lemma emits_weaken (p q : stmt -> bool) (c : M A) :
  (forall s, p s = true -> q s = true) -> emits p c -> emits q c.
Proof.
  intros Hpq Hc w r w' H. destruct (Hc _ _ _ H) as (evs & ? & ?).
  exists evs; split; [assumption|]. eapply Forall_allowed_weaken; eauto.
Qed.

Lemma emits_ret (p : stmt -> bool) (a : A) : emits p (ret a).
Proof.
  intros w r w' [= <- <-]. exists []; split; [now rewrite app_nil_r|auto].
Qed.

Lemma emits_raise (p : stmt -> bool) (e : exn) : emits p (@raise A e).
Proof.
  intros w r w' [= <- <-]. exists []; split; [now rewrite app_nil_r|auto].
Qed.

Lemma emits_lift (p : stmt -> bool) (x : result A) : emits p (lift_result x).
Proof.
  intros w r w' [= <- <-]. exists []; split; [now rewrite app_nil_r|auto].
Qed.

Lemma emits_bind (p : stmt -> bool) (c : M A) (k : A -> M B) :
  emits p c -> (forall a, emits p (k a)) -> emits p (bind c k).
Proof.
  intros Hc Hk w r w' H.
  destruct (bind_inv _ _ _ _ _ H) as [(a & w1 & H1 & H2)|(e & H1 & _)].
  - destruct (Hc _ _ _ H1) as (ev1 & E1 & F1).
    destruct (Hk a _ _ _ H2) as (ev2 & E2 & F2).
    exists (ev1 ++ ev2); split.
    + now rewrite E2, E1, app_assoc.
    + now apply Forall_app.
  - eauto.
Qed.

Lemma emits_try_except (p : stmt -> bool) (c : M A) (h : exn -> M A) :
  emits p c -> (forall e, emits p (h e)) -> emits p (try_except c h).
Proof.
  intros Hc Hh w r w' H. unfold try_except in H.
  destruct (c w) as [[a|e] w1] eqn:E.
  - injection H as <- <-. eauto.
  - destruct (Hc _ _ _ E) as (ev1 & E1 & F1).
    destruct (Hh e _ _ _ H) as (ev2 & E2 & F2).
    exists (ev1 ++ ev2); split.
    + now rewrite E2, E1, app_assoc.
    + now apply Forall_app.
Qed.

Lemma keeps_ledger_ret (a : A) : keeps_ledger (ret a).
Proof. intros w r w' [= <- <-]; auto. Qed.

Lemma keeps_ledger_raise (e : exn) : keeps_ledger (@raise A e).
Proof. intros w r w' [= <- <-]; auto. Qed.

Lemma keeps_ledger_lift (x : result A) : keeps_ledger (lift_result x).
Proof. intros w r w' [= <- <-]; auto. Qed.

Lemma keeps_ledger_bind (c : M A) (k : A -> M B) :
  keeps_ledger c -> (forall a, keeps_ledger (k a)) -> keeps_ledger (bind c k).
Proof.
  intros Hc Hk w r w' H.
  destruct (bind_inv _ _ _ _ _ H) as [(a & w1 & H1 & H2)|(e & H1 & _)].
  - destruct (Hc _ _ _ H1) as [E1 E2], (Hk a _ _ _ H2) as [E3 E4].
    split; congruence.
  - eauto.
Qed.

Lemma keeps_ledger_try_except (c : M A) (h : exn -> M A) :
  keeps_ledger c -> (forall e, keeps_ledger (h e)) ->
  keeps_ledger (try_except c h).
Proof.
  intros Hc Hh w r w' H. unfold try_except in H.
  destruct (c w) as [[a|e] w1] eqn:E.
  - injection H as <- <-. eauto.
  - destruct (Hc _ _ _ E) as [E1 E2], (Hh e _ _ _ H) as [E3 E4].
    split; congruence.
Qed.

Lemma keeps_db_ledger (c : M A) : keeps_db c -> keeps_ledger c.
Proof. intros H w r w' E. now rewrite (H _ _ _ E). Qed.

Lemma keeps_db_ret (a : A) : keeps_db (ret a).
Proof. now intros w r w' [= <- <-]. Qed.

Lemma keeps_db_raise (e : exn) : keeps_db (@raise A e).
Proof. now intros w r w' [= <- <-]. Qed.

Lemma keeps_db_lift (x : result A) : keeps_db (lift_result x).
Proof. now intros w r w' [= <- <-]. Qed.

Lemma keeps_db_bind (c : M A) (k : A -> M B) :
  keeps_db c -> (forall a, keeps_db (k a)) -> keeps_db (bind c k).
Proof.
  intros Hc Hk w r w' H.
  destruct (bind_inv _ _ _ _ _ H) as [(a & w1 & H1 & H2)|(e & H1 & _)].
  - rewrite <- (Hc _ _ _ H1). eapply Hk; eauto.
  - eauto.
Qed.

Lemma keeps_db_try_except (c : M A) (h : exn -> M A) :
  keeps_db c -> (forall e, keeps_db (h e)) -> keeps_db (try_except c h).
Proof.
  intros Hc Hh w r w' H. unfold try_except in H.
  destruct (c w) as [[a|e] w1] eqn:E.
  - injection H as <- <-. eauto.
  - rewrite <- (Hc _ _ _ E). eapply Hh; eauto.
Qed.

End Emits.

Lemma emits_logging (p : stmt -> bool) (lvl : log_level) (msg : string) :
  emits p (logging lvl msg).
Proof.
  intros w r w' [= <- <-]. exists []; split; [cbn; now rewrite app_nil_r|auto].
Qed.

Lemma keeps_db_logging (lvl : log_level) (msg : string) :
  keeps_db (logging lvl msg).
Proof. now intros w r w' [= <- <-]. Qed.

Lemma emits_get_db (p : stmt -> bool) : emits p get_db.
Proof.
  intros w r w' [= <- <-]. exists []; split; [now rewrite app_nil_r|auto].
Qed.

Lemma keeps_db_get_db : keeps_db get_db.
Proof. now intros w r w' [= <- <-]. Qed.

Lemma emits_put_db (p : stmt -> bool) (d : DB) : emits p (put_db d).
Proof.
  intros w r w' [= <- <-]. exists []; split; [cbn; now rewrite app_nil_r|auto].
Qed.

Lemma emits_submit (env : Env) (p : stmt -> bool) (s : stmt) :
  p s = true -> emits p (submit env s).
Proof.
  intros Hp w r w' H. unfold submit in H.
  destruct (fault env (db w) s); injection H as <- <-;
    eexists [_]; split; cbn; auto.
Qed.

Lemma keeps_db_submit (env : Env) (s : stmt) : keeps_db (submit env s).
Proof.
  intros w r w' H. unfold submit in H.
  destruct (fault env (db w) s); now injection H as <- <-.
Qed.

Create HintDb runs.

#[local] Hint Resolve emits_ret emits_raise emits_lift emits_logging
  emits_get_db emits_put_db emits_submit
  keeps_db_ret keeps_db_raise keeps_db_lift keeps_db_logging keeps_db_get_db
  keeps_db_submit keeps_ledger_ret keeps_ledger_raise keeps_ledger_lift
  : runs.
#[local] Hint Extern 2 (emits _ (bind _ _)) =>
  apply emits_bind; [|intro] : runs.
#[local] Hint Extern 2 (keeps_db (bind _ _)) =>
  apply keeps_db_bind; [|intro] : runs.
#[local] Hint Extern 2 (keeps_ledger (bind _ _)) =>
  apply keeps_ledger_bind; [|intro] : runs.
#[local] Hint Extern 2 (emits _ (try_except _ _)) =>
  apply emits_try_except; [|intro] : runs.
#[local] Hint Extern 2 (keeps_db (try_except _ _)) =>
  apply keeps_db_try_except; [|intro] : runs.
#[local] Hint Extern 3 (emits _ (if ?b then _ else _)) => destruct b : runs.
#[local] Hint Extern 3 (keeps_db (if ?b then _ else _)) => destruct b : runs.
#[local] Hint Extern 3 (keeps_ledger (if ?b then _ else _)) =>
  destruct b : runs.
#[local] Hint Extern 3 (emits _ (match ?x with _ => _ end)) =>
  destruct x : runs.
#[local] Hint Extern 3 (keeps_db (match ?x with _ => _ end)) =>
  destruct x : runs.
#[local] Hint Extern 3 (keeps_ledger (match ?x with _ => _ end)) =>
  destruct x : runs.
#[local] Hint Extern 5 (keeps_ledger _) =>
  apply keeps_db_ledger : runs.

Ltac runs := auto 30 with runs.

(* ------------------------------------------------------------------ *)
(** *** The ledger read                                                *)

Lemma get_last_extraction_date_emits (env : Env) :
  emits is_select (get_last_extraction_date env).
Proof. unfold get_last_extraction_date. runs. Qed.

Lemma get_last_extraction_date_keeps_db (env : Env) :
  keeps_db (get_last_extraction_date env).
Proof. unfold get_last_extraction_date. runs. Qed.

(** The read never raises. *)
Lemma get_last_extraction_date_total (env : Env) (w : World) :
  exists o w', get_last_extraction_date env w = (Ok o, w').
Proof.
  unfold get_last_extraction_date, try_except, bind, submit, get_db,
    logging, ret.
  destruct (fault env (db w) SelectLastExtraction); cbn; eauto.
  destruct (last_successful_extraction env (db w)) as [[s|]|]; cbn; eauto.
  destruct (PyStr.truthy s); cbn; eauto.
Qed.

Lemma determine_date_range_emits (env : Env) (b : bool) :
  emits is_select (determine_date_range env b).
Proof.
  pose proof (get_last_extraction_date_emits env).
  unfold determine_date_range. runs.
Qed.

Lemma determine_date_range_keeps_db (env : Env) (b : bool) :
  keeps_db (determine_date_range env b).
Proof.
  pose proof (get_last_extraction_date_keeps_db env).
  unfold determine_date_range. runs.
Qed.

Lemma resolve_range_emits (env : Env) (args : Args) :
  emits is_select (resolve_range env args).
Proof.
  pose proof (determine_date_range_emits env true).
  unfold resolve_range. runs.
Qed.

Lemma resolve_range_keeps_db (env : Env) (args : Args) :
  keeps_db (resolve_range env args).
Proof.
  pose proof (determine_date_range_keeps_db env true).
  unfold resolve_range. runs.
Qed.

Lemma close_emits (p : stmt -> bool) :
  emits p (fun w => (Ok tt, close_database_connection w)).
Proof.
  intros w r w' [= <- <-]. exists [Closed]; split; cbn; auto.
  constructor; cbn; auto.
Qed.

Lemma close_keeps_db :
  keeps_db (fun w => (Ok tt, close_database_connection w)).
Proof. now intros w r w' [= <- <-]. Qed.

Lemma already_up_to_date_emits (env : Env) (args : Args) :
  emits is_select (already_up_to_date env args).
Proof.
  pose proof (get_last_extraction_date_emits env).
  pose proof (close_emits is_select).
  unfold already_up_to_date. runs.
Qed.

Lemma already_up_to_date_keeps_db (env : Env) (args : Args) :
  keeps_db (already_up_to_date env args).
Proof.
  pose proof (get_last_extraction_date_keeps_db env).
  pose proof close_keeps_db.
  unfold already_up_to_date. runs.
Qed.

(* ------------------------------------------------------------------ *)
(** *** The guard, the load loop and the count                         *)

Lemma execute_query_emits (env : Env) (p : stmt -> bool) (s : stmt) :
  p s = true -> emits p (execute_query env s).
Proof. intros Hp. unfold execute_query. runs. Qed.

Lemma execute_query_keeps_ledger (env : Env) (s : stmt) :
  keeps_ledger (execute_query env s).
Proof.
  intros w r w' H. unfold execute_query, bind, submit, get_db in H.
  destruct (fault env (db w) s); [now injection H as <- <-|].
  destruct s; now injection H as <- <-.
Qed.

Lemma execute_query_refused (env : Env) (s : stmt) (w : World) (e : exn) :
  fault env (db w) s = Some e ->
  execute_query env s w = (Raise e, record_event (Refused s e) w).
Proof. intros H. unfold execute_query, bind, submit. now rewrite H. Qed.

Lemma execute_query_executed (env : Env) (s : stmt) (w : World) :
  fault env (db w) s = None ->
  exists w', execute_query env s w = (Ok tt, w')
             /\ events w' = events w ++ [Executed s]
             /\ logs w' = logs w.
Proof.
  intros H. unfold execute_query, bind, submit, get_db. rewrite H.
  destruct s; eexists; split; try reflexivity; split; reflexivity.
Qed.

Lemma delete_months_emits (env : Env) (fuel : nat) :
  forall idx end_dt, emits is_delete (delete_months env fuel idx end_dt).
Proof.
  induction fuel as [|fuel IH]; intros idx end_dt; cbn [delete_months].
  - runs.
  - pose proof (execute_query_emits env is_delete
                  (DeleteMonth (year idx)
                     (PyStr.zfill 2 (PyStr.str_int (month idx)))) eq_refl).
    runs.
Qed.

Lemma delete_months_keeps_ledger (env : Env) (fuel : nat) :
  forall idx end_dt, keeps_ledger (delete_months env fuel idx end_dt).
Proof.
  induction fuel as [|fuel IH]; intros idx end_dt; cbn [delete_months].
  - runs.
  - pose proof (execute_query_keeps_ledger env
                  (DeleteMonth (year idx)
                     (PyStr.zfill 2 (PyStr.str_int (month idx))))).
    runs.
Qed.

Lemma delete_existing_data_emits (env : Env) (s e : string) :
  emits is_delete (delete_existing_data env s e).
Proof.
  unfold delete_existing_data.
  apply emits_bind; [runs|intro]. apply emits_bind; [runs|intro].
  apply emits_bind; [apply delete_months_emits|intro]. runs.
Qed.

Lemma delete_existing_data_keeps_ledger (env : Env) (s e : string) :
  keeps_ledger (delete_existing_data env s e).
Proof.
  unfold delete_existing_data.
  apply keeps_ledger_bind; [runs|intro].
  apply keeps_ledger_bind; [runs|intro].
  apply keeps_ledger_bind; [apply delete_months_keeps_ledger|intro]. runs.
Qed.

(** One turn of the load loop, by the outcome of the load statement. *)
Lemma extract_partitions_step (env : Env) (base tmpl p : string)
  (rest : list string) (n : Z) (w : World) (q : string) :
  compile_data_file_query env base p tmpl = Ok q ->
  let w0 := mkWorld (db w) (events w)
              (logs w ++ [(INFO, ("Extracting data from " ++ p)%string)]) in
  extract_partitions env base tmpl (p :: rest) n w =
  match execute_query env (LoadQuery q) w0 with
  | (Ok _, w') =>
      extract_partitions env base tmpl rest (n + 1)
        (mkWorld (db w') (events w')
           (logs w' ++ [(INFO, ("Extracted data from " ++ p ++ "!")%string)]))
  | (Raise e, w') =>
      if is_IOException e then
        extract_partitions env base tmpl rest n
          (mkWorld (db w') (events w')
             (logs w' ++ [(WARNING,
                           ("Could not find data from " ++ p ++ ": "
                              ++ exn_msg e)%string)]))
      else (Raise e, w')
  end.
Proof.
  intros Hq w0. cbn [extract_partitions].
  unfold bind at 1. unfold logging at 1. fold w0.
  unfold bind at 1. unfold lift_result. rewrite Hq.
  destruct (execute_query env (LoadQuery q) w0) as [[[]|e] w']; [reflexivity|].
  destruct (is_IOException e); reflexivity.
Qed.

Lemma extract_partitions_render_error (env : Env) (base tmpl p : string)
  (rest : list string) (n : Z) (w : World) (e : exn) :
  compile_data_file_query env base p tmpl = Raise e ->
  extract_partitions env base tmpl (p :: rest) n w =
  (Raise e, mkWorld (db w) (events w)
              (logs w ++ [(INFO, ("Extracting data from " ++ p)%string)])).
Proof.
  intros Hq. cbn [extract_partitions].
  unfold bind at 1. unfold logging at 1.
  unfold bind at 1. unfold lift_result. now rewrite Hq.
Qed.

Lemma extract_partitions_emits (env : Env) (base tmpl : string)
  (paths : list string) :
  forall n, emits is_load (extract_partitions env base tmpl paths n).
Proof.
  induction paths as [|p rest IH]; intros n; [cbn; runs|].
  intros w r w' H.
  destruct (compile_data_file_query env base p tmpl) as [q|e] eqn:Hq.
  - rewrite (extract_partitions_step _ _ _ _ _ _ _ _ Hq) in H. cbv zeta in H.
    match type of H with
    | context [execute_query env ?s ?w0] =>
        destruct (execute_query env s w0) as [[[]|e] w1] eqn:E;
        destruct (execute_query_emits env is_load s eq_refl _ _ _ E)
          as (ev1 & E1 & F1)
    end; cbn [events] in E1.
    + destruct (IH _ _ _ _ H) as (ev2 & E2 & F2). cbn [events] in E2.
      exists (ev1 ++ ev2); split;
        [now rewrite E2, E1, app_assoc|now apply Forall_app].
    + destruct (is_IOException e).
      * destruct (IH _ _ _ _ H) as (ev2 & E2 & F2). cbn [events] in E2.
        exists (ev1 ++ ev2); split;
          [now rewrite E2, E1, app_assoc|now apply Forall_app].
      * injection H as <- <-. eauto.
  - rewrite (extract_partitions_render_error _ _ _ _ _ _ _ _ Hq) in H.
    injection H as <- <-. exists []; split; [cbn; now rewrite app_nil_r|auto].
Qed.

Lemma extract_partitions_keeps_ledger (env : Env) (base tmpl : string)
  (paths : list string) :
  forall n, keeps_ledger (extract_partitions env base tmpl paths n).
Proof.
  induction paths as [|p rest IH]; intros n; [cbn; runs|].
  intros w r w' H.
  destruct (compile_data_file_query env base p tmpl) as [q|e] eqn:Hq.
  - rewrite (extract_partitions_step _ _ _ _ _ _ _ _ Hq) in H. cbv zeta in H.
    match type of H with
    | context [execute_query env ?s ?w0] =>
        destruct (execute_query env s w0) as [[[]|e] w1] eqn:E;
        destruct (execute_query_keeps_ledger env s _ _ _ E) as [E1 E2]
    end; cbn [db] in E1, E2.
    + destruct (IH _ _ _ _ H) as [E3 E4]. cbn [db] in *. split; congruence.
    + destruct (is_IOException e).
      * destruct (IH _ _ _ _ H) as [E3 E4]. cbn [db] in *. split; congruence.
      * injection H as <- <-. auto.
  - rewrite (extract_partitions_render_error _ _ _ _ _ _ _ _ Hq) in H.
    now injection H as <- <-.
Qed.

Lemma count_records_emits (env : Env) (s e : string) :
  emits is_count (count_records env s e).
Proof. unfold count_records. runs. Qed.

Lemma count_records_keeps_db (env : Env) (s e : string) :
  keeps_db (count_records env s e).
Proof. unfold count_records. runs. Qed.

Lemma count_records_value (env : Env) (s e : string) (w w' : World) (n : Z) :
  count_records env s e w = (Ok n, w') ->
  n = count_range s e (air_quality (db w'))
  /\ events w' = events w ++ [Executed (CountRange s e)].
Proof.
  unfold count_records, bind, submit, get_db, ret.
  destruct (fault env (db w) _); [discriminate|].
  now intros [= <- <-].
Qed.

(* ------------------------------------------------------------------ *)
(** *** The three ledger writes                                        *)

Lemma log_extraction_start_cases (env : Env) (s e : string) (w : World)
  (r : result Z) (w' : World) :
  log_extraction_start env s e w = (r, w') ->
  (exists ex, fault env (db w) (InsertExtractionLog s e) = Some ex
              /\ r = Raise ex /\ db w' = db w
              /\ events w' = events w ++ [Refused (InsertExtractionLog s e) ex])
  \/ (fault env (db w) (InsertExtractionLog s e) = None
      /\ r = Ok (next_extraction_id (db w))
      /\ db w' = insert_job (db w) (now env) s e
      /\ events w' = events w ++ [Executed (InsertExtractionLog s e)]).
Proof.
  unfold log_extraction_start, bind, submit, get_db, put_db, logging, ret.
  destruct (fault env (db w) _) as [ex|]; intros [= <- <-].
  - left; eauto.
  - right; auto.
Qed.

Lemma log_extraction_complete_cases (env : Env) (id n : Z) (w : World)
  (r : result unit) (w' : World) :
  log_extraction_complete env id n w = (r, w') ->
  (exists ex, fault env (db w) (UpdateCompleted id n) = Some ex
              /\ r = Raise ex /\ db w' = db w
              /\ events w' = events w ++ [Refused (UpdateCompleted id n) ex])
  \/ (fault env (db w) (UpdateCompleted id n) = None
      /\ r = Ok tt
      /\ db w' = update_jobs (set_completed (now env) id n) (db w)
      /\ events w' = events w ++ [Executed (UpdateCompleted id n)]).
Proof.
  unfold log_extraction_complete, bind, submit, get_db, put_db, logging.
  destruct (fault env (db w) _) as [ex|]; intros [= <- <-].
  - left; eauto.
  - right; auto.
Qed.

Lemma log_extraction_failed_cases (env : Env) (id : Z) (msg : string)
  (w : World) (r : result unit) (w' : World) :
  log_extraction_failed env id msg w = (r, w') ->
  (exists ex, fault env (db w) (UpdateFailed id msg) = Some ex
              /\ r = Raise ex /\ db w' = db w
              /\ events w' = events w ++ [Refused (UpdateFailed id msg) ex])
  \/ (fault env (db w) (UpdateFailed id msg) = None
      /\ r = Ok tt
      /\ db w' = update_jobs (set_failed (now env) id msg) (db w)
      /\ events w' = events w ++ [Executed (UpdateFailed id msg)]).
Proof.
  unfold log_extraction_failed, bind, submit, get_db, put_db, logging.
  destruct (fault env (db w) _) as [ex|]; intros [= <- <-].
  - left; eauto.
  - right; auto.
Qed.

(* ------------------------------------------------------------------ *)
(** *** The shape of a run with respect to the ledger                  *)

Lemma quiet_step_refl (p : stmt -> bool) (w : World) : quiet_step p w w.
Proof.
  repeat split. exists []; split; [now rewrite app_nil_r|auto].
Qed.

Lemma quiet_step_trans (p : stmt -> bool) (w1 w2 w3 : World) :
  quiet_step p w1 w2 -> quiet_step p w2 w3 -> quiet_step p w1 w3.
Proof.
  intros ((e1 & E1 & F1) & L1 & N1) ((e2 & E2 & F2) & L2 & N2).
  repeat split; try congruence.
  exists (e1 ++ e2); split; [now rewrite E2, E1, app_assoc|].
  now apply Forall_app.
Qed.

Lemma quiet_step_weaken (p q : stmt -> bool) (w w' : World) :
  (forall s, p s = true -> q s = true) ->
  quiet_step p w w' -> quiet_step q w w'.
Proof.
  intros Hpq ((e1 & E1 & F1) & L1 & N1). repeat split; auto.
  exists e1; split; [assumption|]. eapply Forall_allowed_weaken; eauto.
Qed.

Lemma quiet_step_run {A : Type} (p : stmt -> bool) (c : M A) (w : World)
  (r : result A) (w' : World) :
  emits p c -> keeps_ledger c -> c w = (r, w') -> quiet_step p w w'.
Proof.
  intros He Hk H. destruct (Hk _ _ _ H). repeat split; eauto.
Qed.

Lemma quiet_step_logs (p : stmt -> bool) (w w' : World)
  (l : list (log_level * string)) :
  quiet_step p w w' -> quiet_step p w (mkWorld (db w') (events w') l).
Proof. intros (H & L & N). repeat split; auto. Qed.

Lemma quiet_step_close (p : stmt -> bool) (w w' : World) :
  quiet_step p w w' -> quiet_step p w (close_database_connection w').
Proof.
  intros ((e1 & E1 & F1) & L1 & N1). repeat split; auto.
  exists (e1 ++ [Closed]); split; [cbn; now rewrite E1, app_assoc|].
  apply Forall_app; split; [assumption|]. constructor; cbn; auto.
Qed.

Lemma quiet_no_ledger_writes (w w' : World) :
  quiet_step not_ledger_write w w' ->
  ledger_writes (run_events w w') = [].
Proof.
  intros ((evs & E & F) & _). rewrite (run_events_app _ _ _ E).
  eapply allowed_filter_nil; [|eassumption].
  intros s; unfold not_ledger_write; now destruct (is_ledger_write s).
Qed.

Lemma ledger_writes_app (a b : list event) :
  ledger_writes (a ++ b) = ledger_writes a ++ ledger_writes b.
Proof. apply filter_app. Qed.

Lemma ledger_writes_quiet (evs : list event) :
  Forall (allowed not_ledger_write) evs -> ledger_writes evs = [].
Proof.
  apply allowed_filter_nil.
  intros s; unfold not_ledger_write; now destruct (is_ledger_write s).
Qed.

Lemma select_not_ledger (s : stmt) :
  is_select s = true -> not_ledger_write s = true.
Proof. now destruct s. Qed.

Lemma delete_not_ledger (s : stmt) :
  is_delete s = true -> not_ledger_write s = true.
Proof. now destruct s. Qed.

Lemma load_not_ledger (s : stmt) :
  is_load s = true -> not_ledger_write s = true.
Proof. now destruct s. Qed.

Lemma count_not_ledger (s : stmt) :
  is_count s = true -> not_ledger_write s = true.
Proof. now destruct s. Qed.

(** The first part of the [try] block: nothing is written to the ledger
    before [log_extraction_start], whose INSERT is refused or carried out. *)
Lemma open_job_cases (env : Env) (args : Args) (w : World)
  (ro : result (option (string * string * Z))) (w1 : World) :
  open_job env args w = (ro, w1) ->
  (quiet_step is_select w w1 /\ db w1 = db w
   /\ (ro = Ok None \/ exists ex, ro = Raise ex))
  \/ (exists w0 s e ex,
        quiet_step is_select w w0 /\ db w0 = db w
        /\ events w1 = events w0 ++ [Refused (InsertExtractionLog s e) ex]
        /\ db w1 = db w /\ ro = Raise ex)
  \/ (exists w0 s e,
        quiet_step is_select w w0 /\ db w0 = db w
        /\ fault env (db w) (InsertExtractionLog s e) = None
        /\ events w1 = events w0 ++ [Executed (InsertExtractionLog s e)]
        /\ db w1 = insert_job (db w) (now env) s e
        /\ ro = Ok (Some (s, e, next_extraction_id (db w)))).
Proof.
  intros H. unfold open_job in H.
  apply bind_inv in H as [(range & wa & Ha & H)|(ex & Ha & ->)].
  2:{ left. pose proof (resolve_range_keeps_db _ _ _ _ _ Ha) as D1.
      split; [|split; [assumption|eauto]].
      eapply quiet_step_run; eauto using resolve_range_emits,
        keeps_db_ledger, resolve_range_keeps_db. }
  assert (Q1 : quiet_step is_select w wa).
  { eapply quiet_step_run; eauto using resolve_range_emits,
      keeps_db_ledger, resolve_range_keeps_db. }
  pose proof (resolve_range_keeps_db _ _ _ _ _ Ha) as D1.
  apply bind_inv in H as [(done & wb & Hb & H)|(ex & Hb & ->)].
  2:{ left. pose proof (already_up_to_date_keeps_db _ _ _ _ _ Hb) as D2.
      split; [|split; [congruence|eauto]].
      eapply quiet_step_trans; [exact Q1|].
      eapply quiet_step_run; eauto using already_up_to_date_emits,
        keeps_db_ledger, already_up_to_date_keeps_db. }
  assert (Q2 : quiet_step is_select w wb).
  { eapply quiet_step_trans; [exact Q1|].
    eapply quiet_step_run; eauto using already_up_to_date_emits,
      keeps_db_ledger, already_up_to_date_keeps_db. }
  pose proof (already_up_to_date_keeps_db _ _ _ _ _ Hb) as D2.
  assert (D : db wb = db w) by congruence.
  destruct done.
  { injection H as <- <-. left. auto. }
  apply bind_inv in H as [(id & wc & Hc & H)|(ex & Hc & ->)].
  - injection H as <- <-.
    apply log_extraction_start_cases in Hc
      as [(ex & _ & [=] & _)|(F & [= ->] & Dc & Ec)].
    right; right. exists wb, (fst range), (snd range).
    rewrite D in *. repeat split; auto; apply Q2.
  - apply log_extraction_start_cases in Hc
      as [(ex' & _ & [= ->] & Dc & Ec)|(_ & [=] & _)].
    right; left. exists wb, (fst range), (snd range), ex'.
    repeat split; try congruence; apply Q2.
Qed.

(** The rest of the [try] block: nothing is written to the ledger before
    [log_extraction_complete], which comes right after the count. *)
Lemma run_job_cases (env : Env) (args : Args) (locs : list string)
  (s e : string) (id : Z) (w1 : World) (r : result unit) (w2 : World) :
  run_job env args locs s e id w1 = (r, w2) ->
  (exists ex, r = Raise ex /\ quiet_step not_ledger_write w1 w2)
  \/ (exists w0 n,
        quiet_step not_ledger_write w1 w0
        /\ n = count_range s e (air_quality (db w0))
        /\ exists evs,
            events w0 = events w1 ++ evs ++ [Executed (CountRange s e)]
            /\ Forall (allowed not_ledger_write) evs
            /\ ((exists ex,
                   r = Raise ex /\ db w2 = db w0
                   /\ events w2
                      = events w0 ++ [Refused (UpdateCompleted id n) ex])
                \/ (r = Ok tt
                    /\ db w2
                       = update_jobs (set_completed (now env) id n) (db w0)
                    /\ events w2
                       = events w0 ++ [Executed (UpdateCompleted id n)]))).
Proof.
  intros H. unfold run_job in H.
  apply bind_inv in H as [(paths & wa & Ha & H)|(ex & Ha & ->)].
  2:{ left. injection Ha as _ <-. eauto using quiet_step_refl. }
  injection Ha as _ <-.
  apply bind_inv in H as [(tmpl & wa & Ha & H)|(ex & Ha & ->)].
  2:{ left. injection Ha as _ <-. eauto using quiet_step_refl. }
  injection Ha as _ <-.
  assert (Hguard : forall r' w',
             (if negb (incremental args)
              then logging INFO
                     "Deleting existing data for the specified date range..."%string ;;
                   delete_existing_data env s e
              else ret tt) w1 = (r', w') ->
             quiet_step not_ledger_write w1 w').
  { intros r' w' Hg. eapply quiet_step_weaken; [apply delete_not_ledger|].
    pose proof (delete_existing_data_emits env s e).
    pose proof (delete_existing_data_keeps_ledger env s e).
    eapply quiet_step_run; [| |exact Hg]; destruct (incremental args); cbn;
      runs. }
  apply bind_inv in H as [([] & wb & Hb & H)|(ex & Hb & ->)].
  2:{ left. eauto. }
  apply Hguard in Hb.
  apply bind_inv in H as [(cnt & wc & Hc & H)|(ex & Hc & ->)].
  2:{ left. eexists; split; [reflexivity|].
      eapply quiet_step_trans; [exact Hb|].
      eapply quiet_step_weaken; [apply load_not_ledger|].
      eapply quiet_step_run; eauto using extract_partitions_emits,
        extract_partitions_keeps_ledger. }
  assert (Qc : quiet_step not_ledger_write w1 wc).
  { eapply quiet_step_trans; [exact Hb|].
    eapply quiet_step_weaken; [apply load_not_ledger|].
    eapply quiet_step_run; eauto using extract_partitions_emits,
      extract_partitions_keeps_ledger. }
  apply bind_inv in H as [(n & wd & Hd & H)|(ex & Hd & ->)].
  2:{ left. eexists; split; [reflexivity|].
      eapply quiet_step_trans; [exact Qc|].
      eapply quiet_step_weaken; [apply count_not_ledger|].
      eapply quiet_step_run; eauto using count_records_emits,
        keeps_db_ledger, count_records_keeps_db. }
  right. exists wd, n.
  pose proof (count_records_keeps_db _ _ _ _ _ _ Hd) as Dd.
  destruct (count_records_value _ _ _ _ _ _ Hd) as [Hn Ed].
  destruct Qc as ((evs & Ec & Fc) & Lc & Nc).
  split; [|split; [assumption|]].
  { repeat split; try congruence.
    exists (evs ++ [Executed (CountRange s e)]); split.
    - now rewrite Ed, Ec, app_assoc.
    - apply Forall_app; split; [assumption|]. constructor; cbn; auto. }
  exists evs; split; [now rewrite Ed, Ec, app_assoc|].
  split; [assumption|].
  apply log_extraction_complete_cases in H
    as [(ex & _ & -> & D & E)|(_ & -> & D & E)]; [left|right]; eauto.
Qed.

Lemma on_exception_none (env : Env) (ex : exn) (w : World) :
  exists w', on_exception env None ex w = (Raise ex, w')
             /\ db w' = db w /\ events w' = events w.
Proof. eexists; split; [reflexivity|]. split; reflexivity. Qed.

Lemma on_exception_some_cases (env : Env) (id : Z) (ex : exn) (w : World)
  (r : result unit) (w' : World) :
  on_exception env (Some id) ex w = (r, w') ->
  (exists ex', fault env (db w) (UpdateFailed id (exn_msg ex)) = Some ex'
               /\ r = Raise ex' /\ db w' = db w
               /\ events w'
                  = events w ++ [Refused (UpdateFailed id (exn_msg ex)) ex'])
  \/ (fault env (db w) (UpdateFailed id (exn_msg ex)) = None
      /\ r = Raise ex
      /\ db w' = update_jobs (set_failed (now env) id (exn_msg ex)) (db w)
      /\ events w' = events w ++ [Executed (UpdateFailed id (exn_msg ex))]).
Proof.
  intros H. unfold on_exception in H.
  apply bind_inv in H as [([] & wa & Ha & H)|(ex' & Ha & ->)].
  - apply log_extraction_failed_cases in Ha
      as [(ex' & _ & [=] & _)|(F & _ & D & E)].
    injection H as <- <-. right. auto.
  - apply log_extraction_failed_cases in Ha
      as [(ex'' & F & [= ->] & D & E)|(_ & [=] & _)].
    left. eauto.
Qed.

Ltac ledger_trace :=
  rewrite ?ledger_writes_app;
  repeat match goal with
         | F : Forall (allowed not_ledger_write) ?l
           |- context [ledger_writes ?l] =>
             rewrite (ledger_writes_quiet l F)
         | F : Forall (allowed is_select) ?l
           |- context [ledger_writes ?l] =>
             rewrite (ledger_writes_quiet l
                        (Forall_allowed_weaken _ _ _ select_not_ledger F))
         end;
  reflexivity.

(** Every run of [extract_data] ends in one of the seven ways of
    [ledger_outcome]. *)
Lemma extract_data_ledger_outcome (env : Env) (args : Args) (w : World)
  (r : result unit) (w' : World) :
  extract_data env args w = (r, w') -> ledger_outcome env w r w'.
Proof.
  intros H. unfold extract_data in H.
  apply bind_inv in H as [(locs & wa & Ha & H)|(ex & Ha & ->)].
  2:{ injection Ha as _ <-. apply no_job_opened; [|reflexivity].
      apply quiet_no_ledger_writes, quiet_step_refl. }
  injection Ha as _ <-. unfold try_finally in H.
  destruct (open_job env args w) as [ro w1] eqn:Ho.
  apply open_job_cases in Ho
    as [(Q & D & Hro)
       |[(w0 & s & e & ex & Q & D0 & E1 & D1 & ->)
        |(w0 & s & e & Q & D0 & Fi & E1 & D1 & ->)]].
  - (* no INSERT was submitted *)
    assert (Hw : exists w2, w' = close_database_connection w2
                            /\ db w2 = db w1 /\ events w2 = events w1).
    { destruct Hro as [->|(ex & ->)].
      - injection H as _ <-. eauto.
      - destruct (on_exception_none env ex w1) as (w2 & E & ? & ?).
        rewrite E in H. injection H as _ <-. eauto. }
    destruct Hw as (w2 & -> & D2 & E2).
    apply no_job_opened; [|cbn [close_database_connection record_event db]; congruence].
    apply quiet_no_ledger_writes.
    destruct Q as ((evs & E & F) & _).
    repeat split; cbn; try congruence.
    exists (evs ++ [Closed]); split; [now rewrite E2, E, app_assoc|].
    apply Forall_app; split;
      [exact (Forall_allowed_weaken _ _ _ select_not_ledger F)|].
    constructor; cbn; auto.
  - (* the INSERT was refused *)
    destruct (on_exception_none env ex w1) as (w2 & E & D2 & E2).
    rewrite E in H. injection H as <- <-.
    destruct Q as ((evs & E0 & F) & _).
    eapply open_refused with (s := s) (e := e); [|cbn [close_database_connection record_event db]; congruence|reflexivity].
    erewrite run_events_app
      with (evs := evs ++ [Refused (InsertExtractionLog s e) ex] ++ [Closed]).
    + ledger_trace.
    + cbn [close_database_connection record_event events].
      rewrite E2, E1, E0, <- !app_assoc. reflexivity.
  - (* the job is open *)
    destruct Q as ((evs0 & E0 & F0) & L0 & N0).
    assert (L1 : extraction_log (db w1)
                 = extraction_log (db w)
                     ++ [new_job env (next_extraction_id (db w)) s e])
      by (rewrite D1; reflexivity).
    unfold try_except in H.
    destruct (run_job env args locs s e (next_extraction_id (db w)) w1)
      as [rj wr] eqn:Hr.
    apply run_job_cases in Hr
      as [(ex & -> & (evs1 & Er & F1) & Lr & Nr)
         |(wc & n & ((evsc & Ec & Fc) & Lc & Nc) & Hn & evs1 & Ec' & F1
           & [(ex & -> & Dr & Er)|(-> & Dr & Er)])].
    + (* an exception before log_extraction_complete *)
      destruct (on_exception env (Some (next_extraction_id (db w))) ex wr)
        as [rf wf] eqn:Hf.
      injection H as <- <-.
      apply on_exception_some_cases in Hf
        as [(ex' & _ & -> & Df & Ef)|(_ & -> & Df & Ef)].
      * eapply fail_refused with (s := s) (e := e); [|cbn [close_database_connection record_event db]; congruence|reflexivity].
        erewrite run_events_app
          with (evs := evs0 ++ [Executed (InsertExtractionLog s e)] ++ evs1
                         ++ [Refused (UpdateFailed _ (exn_msg ex)) ex']
                         ++ [Closed]).
        -- ledger_trace.
        -- cbn [close_database_connection record_event events].
           rewrite Ef, Er, E1, E0, <- !app_assoc. reflexivity.
      * eapply job_failed with (s := s) (e := e); [| |reflexivity].
        -- erewrite run_events_app
             with (evs := evs0 ++ [Executed (InsertExtractionLog s e)] ++ evs1
                            ++ [Executed (UpdateFailed _ (exn_msg ex))]
                            ++ [Closed]).
           ++ ledger_trace.
           ++ cbn [close_database_connection record_event events].
              rewrite Ef, Er, E1, E0, <- !app_assoc. reflexivity.
        -- cbn [close_database_connection record_event db].
           rewrite Df. cbn [update_jobs extraction_log]. congruence.
    + (* log_extraction_complete was refused *)
      destruct (on_exception env (Some (next_extraction_id (db w))) ex wr)
        as [rf wf] eqn:Hf.
      injection H as <- <-.
      apply on_exception_some_cases in Hf
        as [(ex' & _ & -> & Df & Ef)|(_ & -> & Df & Ef)].
      * eapply complete_refused_fail_refused with (s := s) (e := e) (n := n);
          [|cbn [close_database_connection record_event db]; congruence|reflexivity].
        erewrite run_events_app
          with (evs := evs0 ++ [Executed (InsertExtractionLog s e)] ++ evs1
                         ++ [Executed (CountRange s e)]
                         ++ [Refused (UpdateCompleted _ n) ex]
                         ++ [Refused (UpdateFailed _ (exn_msg ex)) ex']
                         ++ [Closed]).
        -- ledger_trace.
        -- cbn [close_database_connection record_event events].
           rewrite Ef, Er, Ec', E1, E0, <- !app_assoc. reflexivity.
      * eapply complete_refused_job_failed with (s := s) (e := e) (n := n); [| |reflexivity].
        -- erewrite run_events_app
             with (evs := evs0 ++ [Executed (InsertExtractionLog s e)] ++ evs1
                            ++ [Executed (CountRange s e)]
                            ++ [Refused (UpdateCompleted _ n) ex]
                            ++ [Executed (UpdateFailed _ (exn_msg ex))]
                            ++ [Closed]).
           ++ ledger_trace.
           ++ cbn [close_database_connection record_event events].
              rewrite Ef, Er, Ec', E1, E0, <- !app_assoc. reflexivity.
        -- cbn [close_database_connection record_event db].
           rewrite Df. cbn [update_jobs extraction_log]. congruence.
    + (* the job is completed *)
      injection H as <- <-.
      eapply job_completed
        with (s := s) (e := e)
             (evs := evs0 ++ [Executed (InsertExtractionLog s e)] ++ evs1);
        [| | | |reflexivity].
      * apply run_events_app.
        cbn [close_database_connection record_event events].
        rewrite Er, Ec', E1, E0, <- !app_assoc. reflexivity.
      * ledger_trace.
      * cbn [close_database_connection record_event db].
        rewrite Dr. exact Hn.
      * cbn [close_database_connection record_event db].
        rewrite Dr. cbn [update_jobs extraction_log]. congruence.
Qed.

(* ================================================================== *)
(** ** Terminal transitions of a job                                   *)
(* ================================================================== *)

Lemma applied_terminal_ledger (ev : event) :
  applied_terminal ev = true -> event_is is_ledger_write ev = true.
Proof. destruct ev as [[]| |]; cbn; auto; discriminate. Qed.

Lemma filter_terminal_ledger (evs : list event) :
  filter applied_terminal evs = filter applied_terminal (ledger_writes evs).
Proof.
  induction evs as [|ev evs IH]; [reflexivity|].
  unfold ledger_writes in *. cbn [filter].
  destruct (applied_terminal ev) eqn:Ht.
  - rewrite (applied_terminal_ledger _ Ht). cbn [filter]. rewrite Ht.
    now f_equal.
  - destruct (event_is is_ledger_write ev); cbn [filter]; rewrite ?Ht; auto.
Qed.

Lemma in_ledger_writes (ev : event) (evs : list event) (s : stmt) :
  In ev evs -> submitted ev = Some s -> is_ledger_write s = true ->
  In ev (ledger_writes evs).
Proof.
  intros Hin Hs Hl. apply filter_In; split; [assumption|].
  unfold event_is. now rewrite Hs.
Qed.

Lemma ledger_writes_in (ev : event) (evs : list event) :
  In ev (ledger_writes evs) -> In ev evs.
Proof. intros H; now apply filter_In in H. Qed.

Lemma map_old_jobs (f : ExtractionJob -> ExtractionJob) (id : Z)
  (rows : list ExtractionJob) :
  (forall j, extraction_id j <> id -> f j = j) ->
  Forall (fun j => extraction_id j < id) rows ->
  map f rows = rows.
Proof.
  intros Hf; induction 1 as [|j rows Hj _ IH]; [reflexivity|].
  cbn. rewrite IH, Hf by lia. reflexivity.
Qed.

Lemma set_failed_other (t : datetime) (id : Z) (msg : string)
  (j : ExtractionJob) :
  extraction_id j <> id -> set_failed t id msg j = j.
Proof. unfold set_failed. destruct (Z.eqb_spec (extraction_id j) id); tauto. Qed.

Lemma set_completed_other (t : datetime) (id n : Z) (j : ExtractionJob) :
  extraction_id j <> id -> set_completed t id n j = j.
Proof.
  unfold set_completed. destruct (Z.eqb_spec (extraction_id j) id); tauto.
Qed.

(** The ledger writes of a run are one of seven lists. *)
Lemma ledger_writes_of_run (env : Env) (args : Args) (w : World)
  (r : result unit) (w' : World) :
  extract_data env args w = (r, w') ->
  let id := next_extraction_id (db w) in
  let lw := ledger_writes (run_events w w') in
  lw = []
  \/ (exists s e ex, lw = [Refused (InsertExtractionLog s e) ex])
  \/ (exists s e n,
        lw = [Executed (InsertExtractionLog s e);
              Executed (UpdateCompleted id n)])
  \/ (exists s e n ex,
        lw = [Executed (InsertExtractionLog s e);
              Refused (UpdateCompleted id n) ex;
              Executed (UpdateFailed id (exn_msg ex))])
  \/ (exists s e n ex ex',
        lw = [Executed (InsertExtractionLog s e);
              Refused (UpdateCompleted id n) ex;
              Refused (UpdateFailed id (exn_msg ex)) ex'])
  \/ (exists s e ex,
        lw = [Executed (InsertExtractionLog s e);
              Executed (UpdateFailed id (exn_msg ex))])
  \/ (exists s e ex ex',
        lw = [Executed (InsertExtractionLog s e);
              Refused (UpdateFailed id (exn_msg ex)) ex']).
Proof.
  intros H id lw. subst id lw.
  destruct (extract_data_ledger_outcome _ _ _ _ _ H)
    as [Hl _|s e ex Hl _ _|s e n evs He Hl _ _ _|s e n ex Hl _ _
       |s e n ex ex' Hl _ _|s e ex Hl _ _|s e ex ex' Hl _ _].
  - auto.
  - right; left; eauto.
  - right; right; left. exists s, e, n.
    rewrite He, ledger_writes_app, Hl. reflexivity.
  - do 3 right; left; eauto.
  - do 4 right; left. exists s, e, n, ex, ex'. exact Hl.
  - do 5 right; left; eauto.
  - do 6 right; eauto.
Qed.

(** The rows of earlier jobs are left as they were. *)
Lemma earlier_jobs_untouched (env : Env) (args : Args) (w : World)
  (r : result unit) (w' : World) :
  extract_data env args w = (r, w') -> ledger_wf (db w) ->
  exists rows, extraction_log (db w') = extraction_log (db w) ++ rows.
Proof.
  intros H Hwf. unfold ledger_wf in Hwf.
  assert (Hc : forall n,
             map (set_completed (now env) (next_extraction_id (db w)) n)
               (extraction_log (db w)) = extraction_log (db w)).
  { intros n. eapply map_old_jobs; [|exact Hwf].
    intros; now apply set_completed_other. }
  assert (Hf : forall m,
             map (set_failed (now env) (next_extraction_id (db w)) m)
               (extraction_log (db w)) = extraction_log (db w)).
  { intros m. eapply map_old_jobs; [|exact Hwf].
    intros; now apply set_failed_other. }
  destruct (extract_data_ledger_outcome _ _ _ _ _ H)
    as [_ Hd|s e ex _ Hd _|s e n evs _ _ _ Hd _|s e n ex _ Hd _
       |s e n ex ex' _ Hd _|s e ex _ Hd _|s e ex ex' _ Hd _];
    rewrite Hd, ?map_app, ?Hc, ?Hf;
    solve [exists []; now rewrite app_nil_r | now eexists].
Qed.

Lemma jobs_with_id_completed (env : Env) (d' d : DB) (id n : Z)
  (s e : string) :
  ledger_wf d -> id = next_extraction_id d ->
  extraction_log d'
  = map (set_completed (now env) id n)
      (extraction_log d ++ [new_job env id s e]) ->
  jobs_with_id id d'
  = [mkJob id (now env) (Some (now env)) s e completed (Some n) None].
Proof.
  intros Hwf -> Hd. unfold jobs_with_id, ledger_wf in *. rewrite Hd.
  rewrite map_app, filter_app.
  rewrite (map_old_jobs _ (next_extraction_id d) _
             (fun j Hj => set_completed_other _ _ _ j Hj) Hwf).
  replace (filter _ (extraction_log d)) with (@nil ExtractionJob).
  - cbn. unfold set_completed, new_job. cbn. rewrite Z.eqb_refl. cbn.
    now rewrite Z.eqb_refl.
  - symmetry. clear Hd. induction Hwf as [|j rows Hj _ IH]; [reflexivity|].
    cbn. destruct (Z.eqb_spec (extraction_id j) (next_extraction_id d));
      [lia|exact IH].
Qed.

Lemma jobs_with_id_failed (env : Env) (d' d : DB) (id : Z)
  (s e msg : string) :
  ledger_wf d -> id = next_extraction_id d ->
  extraction_log d'
  = map (set_failed (now env) id msg)
      (extraction_log d ++ [new_job env id s e]) ->
  jobs_with_id id d'
  = [mkJob id (now env) (Some (now env)) s e failed None (Some msg)].
Proof.
  intros Hwf -> Hd. unfold jobs_with_id, ledger_wf in *. rewrite Hd.
  rewrite map_app, filter_app.
  rewrite (map_old_jobs _ (next_extraction_id d) _
             (fun j Hj => set_failed_other _ _ _ j Hj) Hwf).
  replace (filter _ (extraction_log d)) with (@nil ExtractionJob).
  - cbn. unfold set_failed, new_job. cbn. rewrite Z.eqb_refl. cbn.
    now rewrite Z.eqb_refl.
  - symmetry. clear Hd. induction Hwf as [|j rows Hj _ IH]; [reflexivity|].
    cbn. destruct (Z.eqb_spec (extraction_id j) (next_extraction_id d));
      [lia|exact IH].
Qed.

Lemma jobs_with_id_running (env : Env) (d' d : DB) (id : Z) (s e : string) :
  ledger_wf d -> id = next_extraction_id d ->
  extraction_log d' = extraction_log d ++ [new_job env id s e] ->
  jobs_with_id id d' = [new_job env id s e].
Proof.
  intros Hwf -> Hd. unfold jobs_with_id, ledger_wf in *. rewrite Hd.
  rewrite filter_app.
  replace (filter _ (extraction_log d)) with (@nil ExtractionJob).
  - cbn. now rewrite Z.eqb_refl.
  - symmetry. clear Hd. induction Hwf as [|j rows Hj _ IH]; [reflexivity|].
    cbn. destruct (Z.eqb_spec (extraction_id j) (next_extraction_id d));
      [lia|exact IH].
Qed.

(** The ledger writes of a run together with the row they leave for the
    job and the result of the run. *)
Lemma ledger_rows_of_run (env : Env) (args : Args) (w : World)
  (r : result unit) (w' : World) :
  extract_data env args w = (r, w') ->
  ledger_wf (db w) ->
  let id := next_extraction_id (db w) in
  let lw := ledger_writes (run_events w w') in
  let jobs := jobs_with_id id (db w') in
  lw = []
  \/ (exists s e ex, lw = [Refused (InsertExtractionLog s e) ex])
  \/ (exists s e n,
        lw = [Executed (InsertExtractionLog s e);
              Executed (UpdateCompleted id n)]
        /\ jobs = [mkJob id (now env) (Some (now env)) s e completed
                     (Some n) None]
        /\ r = Ok tt)
  \/ (exists s e n ex,
        lw = [Executed (InsertExtractionLog s e);
              Refused (UpdateCompleted id n) ex;
              Executed (UpdateFailed id (exn_msg ex))]
        /\ jobs = [mkJob id (now env) (Some (now env)) s e failed None
                     (Some (exn_msg ex))]
        /\ r = Raise ex)
  \/ (exists s e n ex ex',
        lw = [Executed (InsertExtractionLog s e);
              Refused (UpdateCompleted id n) ex;
              Refused (UpdateFailed id (exn_msg ex)) ex']
        /\ jobs = [new_job env id s e]
        /\ r = Raise ex')
  \/ (exists s e ex,
        lw = [Executed (InsertExtractionLog s e);
              Executed (UpdateFailed id (exn_msg ex))]
        /\ jobs = [mkJob id (now env) (Some (now env)) s e failed None
                     (Some (exn_msg ex))]
        /\ r = Raise ex)
  \/ (exists s e ex ex',
        lw = [Executed (InsertExtractionLog s e);
              Refused (UpdateFailed id (exn_msg ex)) ex']
        /\ jobs = [new_job env id s e]
        /\ r = Raise ex').
Proof.
  intros H Hwf id lw jobs. subst id lw jobs.
  destruct (extract_data_ledger_outcome _ _ _ _ _ H)
    as [Hl _|s e ex Hl _ _|s e n evs He Hl _ Hd Hr|s e n ex Hl Hd Hr
       |s e n ex ex' Hl Hd Hr|s e ex Hl Hd Hr|s e ex ex' Hl Hd Hr].
  - auto.
  - right; left; eauto.
  - right; right; left. exists s, e, n.
    rewrite He, ledger_writes_app, Hl. split; [reflexivity|].
    split; [|exact Hr]. eapply jobs_with_id_completed; eauto.
  - do 3 right; left. exists s, e, n, ex. split; [exact Hl|].
    split; [|exact Hr]. eapply jobs_with_id_failed; eauto.
  - do 4 right; left. exists s, e, n, ex, ex'. split; [exact Hl|].
    split; [|exact Hr]. eapply jobs_with_id_running; eauto.
  - do 5 right; left. exists s, e, ex. split; [exact Hl|].
    split; [|exact Hr]. eapply jobs_with_id_failed; eauto.
  - do 6 right. exists s, e, ex, ex'. split; [exact Hl|].
    split; [|exact Hr]. eapply jobs_with_id_running; eauto.
Qed.

Ltac in_cases H :=
  cbn [In] in H;
  repeat (let H' := fresh in
          destruct H as [H'|H]; [try discriminate H'; subst|]);
  try contradiction.

Ltac split_writes Heq pre :=
  destruct pre as [|? [|? [|? [|? pre]]]]; cbn in Heq; inversion Heq; subst.

(** C2, amended -- in every run at most one terminal transition is applied
    to the job the run opened, it is the last write to the ledger, every
    terminal statement names that job, and the rows of earlier jobs are left
    as they were.  Exactly one is applied unless the UPDATE of [fail] is
    itself refused (the job then stays [running]); [complete] and [fail] are
    both invoked for the job exactly when the UPDATE of [complete] is
    refused, [fail] then carrying the message of that refusal. *)
Theorem C2_terminal_transitions (env : Env) (args : Args) (w : World)
  (r : result unit) (w' : World) :
  extract_data env args w = (r, w') ->
  ledger_wf (db w) ->
  let evs := run_events w w' in
  let id := next_extraction_id (db w) in
  (List.length (filter applied_terminal evs) <= 1)%nat
  /\ (forall pre t post,
        ledger_writes evs = pre ++ Executed t :: post ->
        is_terminal t = true -> post = [])
  /\ (forall ev t,
        In ev evs -> submitted ev = Some t -> is_terminal t = true ->
        (exists n, t = UpdateCompleted id n)
        \/ (exists m, t = UpdateFailed id m))
  /\ ((exists s e, In (Executed (InsertExtractionLog s e)) evs) ->
      (forall m ex, ~ In (Refused (UpdateFailed id m) ex) evs) ->
      List.length (filter applied_terminal evs) = 1%nat)
  /\ (forall i n m,
        invoked (UpdateCompleted i n) evs ->
        invoked (UpdateFailed i m) evs ->
        exists ex, In (Refused (UpdateCompleted i n) ex) evs
                   /\ m = exn_msg ex)
  /\ (forall i n ex,
        In (Refused (UpdateCompleted i n) ex) evs ->
        invoked (UpdateCompleted i n) evs
        /\ invoked (UpdateFailed i (exn_msg ex)) evs)
  /\ (forall m ex,
        In (Refused (UpdateFailed id m) ex) evs ->
        filter applied_terminal evs = []
        /\ r = Raise ex
        /\ exists s e,
            jobs_with_id id (db w') = [new_job env id s e]
            /\ map status (jobs_with_id id (db w')) = [running])
  /\ (forall n,
        In (Executed (UpdateCompleted id n)) evs ->
        r = Ok tt
        /\ map status (jobs_with_id id (db w')) = [completed]
        /\ map records_extracted (jobs_with_id id (db w')) = [Some n])
  /\ (forall m,
        In (Executed (UpdateFailed id m)) evs ->
        map status (jobs_with_id id (db w')) = [failed]
        /\ map error_message (jobs_with_id id (db w')) = [Some m])
  /\ (exists rows, extraction_log (db w') = extraction_log (db w) ++ rows).
Proof.
  intros H Hwf evs id.
  pose proof (ledger_writes_of_run _ _ _ _ _ H) as Hl. cbv zeta in Hl.
  fold evs id in Hl.
  assert (Hin : forall ev t,
             In ev evs -> submitted ev = Some t -> is_terminal t = true ->
             In ev (ledger_writes evs)).
  { intros ev t Hi Hs Ht. apply (in_ledger_writes ev evs t Hi Hs).
    destruct t; try discriminate; reflexivity. }
  assert (Hopen : forall s e,
             In (Executed (InsertExtractionLog s e)) evs ->
             In (Executed (InsertExtractionLog s e)) (ledger_writes evs)).
  { intros s e Hi. now apply (in_ledger_writes _ evs _ Hi eq_refl). }
  pose proof (ledger_writes_in) as Hback.
  pose proof (ledger_rows_of_run _ _ _ _ _ H Hwf) as Hj. cbv zeta in Hj.
  fold evs id in Hj.
  split; [|split; [|split; [|split; [|split; [|split; [|split; [|split;
    [|split]]]]]]]].
  - rewrite filter_terminal_ledger.
    destruct Hl as [Hl|[(s & e & ex & Hl)|[(s & e & n & Hl)
      |[(s & e & n & ex & Hl)|[(s & e & n & ex & ex' & Hl)
      |[(s & e & ex & Hl)|(s & e & ex & ex' & Hl)]]]]]];
      rewrite Hl; cbn; lia.
  - intros pre t post Heq Ht.
    destruct Hl as [Hl|[(s & e & ex & Hl)|[(s & e & n & Hl)
      |[(s & e & n & ex & Hl)|[(s & e & n & ex & ex' & Hl)
      |[(s & e & ex & Hl)|(s & e & ex & ex' & Hl)]]]]]];
      rewrite Hl in Heq; split_writes Heq pre;
      cbn in Ht; try discriminate; reflexivity.
  - intros ev t Hi Hs Ht. pose proof (Hin _ _ Hi Hs Ht) as Hw.
    destruct Hl as [Hl|[(s & e & ex & Hl)|[(s & e & n & Hl)
      |[(s & e & n & ex & Hl)|[(s & e & n & ex & ex' & Hl)
      |[(s & e & ex & Hl)|(s & e & ex & ex' & Hl)]]]]]];
      rewrite Hl in Hw; in_cases Hw; cbn in Hs; injection Hs as <-;
      cbn in Ht; try discriminate; eauto.
  - intros (s0 & e0 & Ho) Hnf. apply Hopen in Ho.
    rewrite filter_terminal_ledger.
    destruct Hl as [Hl|[(s & e & ex & Hl)|[(s & e & n & Hl)
      |[(s & e & n & ex & Hl)|[(s & e & n & ex & ex' & Hl)
      |[(s & e & ex & Hl)|(s & e & ex & ex' & Hl)]]]]]];
      rewrite Hl in *; try reflexivity;
      try (in_cases Ho; discriminate);
      exfalso; eapply Hnf, Hback; rewrite Hl; cbn; eauto.
  - intros i n0 m (ev1 & Hi1 & Hs1) (ev2 & Hi2 & Hs2).
    pose proof (Hin _ _ Hi1 Hs1 eq_refl) as Hw1.
    pose proof (Hin _ _ Hi2 Hs2 eq_refl) as Hw2.
    destruct Hl as [Hl|[(s & e & ex & Hl)|[(s & e & n & Hl)
      |[(s & e & n & ex & Hl)|[(s & e & n & ex & ex' & Hl)
      |[(s & e & ex & Hl)|(s & e & ex & ex' & Hl)]]]]]];
      rewrite Hl in Hw1, Hw2; in_cases Hw1; try discriminate Hs1;
      in_cases Hw2; try discriminate Hs2;
      cbn in Hs1, Hs2; inversion Hs1; inversion Hs2; subst.
    all: exists ex; (split; [|reflexivity]); apply Hback; rewrite Hl; cbn;
      auto.
  - intros i n0 ex0 Hi.
    pose proof (Hin _ _ Hi eq_refl eq_refl) as Hw.
    split; [exists (Refused (UpdateCompleted i n0) ex0); auto|].
    destruct Hl as [Hl|[(s & e & ex & Hl)|[(s & e & n & Hl)
      |[(s & e & n & ex & Hl)|[(s & e & n & ex & ex' & Hl)
      |[(s & e & ex & Hl)|(s & e & ex & ex' & Hl)]]]]]];
      rewrite Hl in Hw; in_cases Hw;
      match goal with E : Refused _ _ = Refused _ _ |- _ =>
        injection E as <- <- <- end.
    + exists (Executed (UpdateFailed id (exn_msg ex))).
      split; [apply Hback; rewrite Hl; cbn; auto|reflexivity].
    + exists (Refused (UpdateFailed id (exn_msg ex)) ex').
      split; [apply Hback; rewrite Hl; cbn; auto|reflexivity].
  - intros m ex0 Hi.
    pose proof (Hin _ _ Hi eq_refl eq_refl) as Hw.
    rewrite filter_terminal_ledger.
    destruct Hj as [Hl'|[(s & e & ex & Hl')|[(s & e & n & Hl' & Hrow & Hr)
      |[(s & e & n & ex & Hl' & Hrow & Hr)
      |[(s & e & n & ex & ex' & Hl' & Hrow & Hr)
      |[(s & e & ex & Hl' & Hrow & Hr)
       |(s & e & ex & ex' & Hl' & Hrow & Hr)]]]]]];
      rewrite Hl' in Hw |- *; in_cases Hw;
      match goal with E : Refused _ _ = Refused _ _ |- _ =>
        injection E as <- <- end;
      (split; [reflexivity|]); (split; [first [exact Hr|reflexivity]|]);
      exists s, e; rewrite Hrow; split; reflexivity.
  - intros n0 Hi.
    pose proof (Hin _ _ Hi eq_refl eq_refl) as Hw.
    destruct Hj as [Hl'|[(s & e & ex & Hl')|[(s & e & n & Hl' & Hrow & Hr)
      |[(s & e & n & ex & Hl' & Hrow & Hr)
      |[(s & e & n & ex & ex' & Hl' & Hrow & Hr)
      |[(s & e & ex & Hl' & Hrow & Hr)
       |(s & e & ex & ex' & Hl' & Hrow & Hr)]]]]]];
      rewrite Hl' in Hw; in_cases Hw.
    match goal with E : Executed _ = Executed _ |- _ =>
      injection E as <- end.
    rewrite Hrow. repeat split; auto.
  - intros m Hi.
    pose proof (Hin _ _ Hi eq_refl eq_refl) as Hw.
    destruct Hj as [Hl'|[(s & e & ex & Hl')|[(s & e & n & Hl' & Hrow & Hr)
      |[(s & e & n & ex & Hl' & Hrow & Hr)
      |[(s & e & n & ex & ex' & Hl' & Hrow & Hr)
      |[(s & e & ex & Hl' & Hrow & Hr)
       |(s & e & ex & ex' & Hl' & Hrow & Hr)]]]]]];
      rewrite Hl' in Hw; in_cases Hw;
      match goal with E : Executed _ = Executed _ |- _ =>
        injection E as <- end;
      rewrite Hrow; split; reflexivity.
  - eapply earlier_jobs_untouched; eauto.
Qed.

Lemma C2_witness :
  let w' := snd (extract_data (env_with refuse_complete None)
                   (manual_args "2024-01" "2024-02") fresh_world) in
  (List.length (filter applied_terminal (run_events fresh_world w')) <= 1)%nat
  /\ exists rows, extraction_log (db w') = rows.
Proof.
  intros w'.
  destruct (C2_terminal_transitions (env_with refuse_complete None)
              (manual_args "2024-01" "2024-02") fresh_world
              (fst (extract_data (env_with refuse_complete None)
                      (manual_args "2024-01" "2024-02") fresh_world))
              w')
    as (H1 & _ & _ & _ & _ & _ & _ & _ & _ & rows & H6).
  - vm_compute. reflexivity.
  - constructor.
  - split; [exact H1|]. exists rows. exact H6.
Defined.

(** C2 as stated fails: when the engine refuses the UPDATE of
    [log_extraction_complete], the handler invokes [log_extraction_failed]
    for the same job. *)
Lemma C2_counterexample :
  ~ one_terminal_transition
      (run_events fresh_world
         (snd (extract_data (env_with refuse_complete None)
                 (manual_args "2024-01" "2024-02") fresh_world))).
Proof.
  intros H. destruct H as [_ H].
  - exists "2024-01"%string, "2024-02"%string. vm_compute. auto.
  - apply H. exists 1, 8, "disk full"%string. split.
    + exists (Refused (UpdateCompleted 1 8)
                (mkExn OtherException "disk full")).
      split; [vm_compute; auto 20|reflexivity].
    + exists (Executed (UpdateFailed 1 "disk full")).
      split; [vm_compute; auto 20|reflexivity].
Qed.

(** When the UPDATE of [log_extraction_failed] is refused as well, no
    terminal transition is applied: the job stays [running] and the caller
    gets the refusal of that last UPDATE. *)
Example job_left_running_when_fail_refused :
  let run := extract_data (env_with refuse_updates None)
               (manual_args "2024-01" "2024-02") fresh_world in
  fst run = Raise (mkExn OtherException "database is locked")
  /\ map status (extraction_log (db (snd run))) = [running]
  /\ filter applied_terminal (run_events fresh_world (snd run)) = [].
Proof. vm_compute. repeat split; reflexivity. Qed.

(* ================================================================== *)
(** ** The recorded number of records                                  *)
(* ================================================================== *)

(** The value of the loop is its starting value plus the number of load
    statements the engine carried out. *)
Lemma extract_partitions_counter (env : Env) (base tmpl : string)
  (paths : list string) :
  forall (n : Z) (w : World) (c : Z) (w' : World),
    extract_partitions env base tmpl paths n w = (Ok c, w') ->
    c = n + Z.of_nat (List.length (filter executed_load (run_events w w'))).
Proof.
  induction paths as [|p rest IH]; intros n w c w' H.
  - injection H as <- <-. unfold run_events. rewrite skipn_all. cbn. lia.
  - destruct (compile_data_file_query env base p tmpl) as [q|e] eqn:Hq.
    2:{ rewrite (extract_partitions_render_error _ _ _ _ _ _ _ _ Hq) in H.
        discriminate. }
    rewrite (extract_partitions_step _ _ _ _ _ _ _ _ Hq) in H. cbv zeta in H.
    match type of H with
    | context [execute_query env ?s ?w0] =>
        destruct (fault env (db w0) s) as [ex|] eqn:Ef;
        [rewrite (execute_query_refused _ _ _ _ Ef) in H
        |destruct (execute_query_executed _ _ _ Ef) as (w1 & E & Ev & _);
         rewrite E in H]
    end.
    + destruct (is_IOException ex); [|discriminate].
      pose proof (extract_partitions_emits _ _ _ _ _ _ _ _ H)
        as (evs & Ee & _).
      apply IH in H. rewrite (run_events_app _ _ _ Ee) in H.
      cbn [events record_event] in Ee.
      rewrite <- app_assoc in Ee. rewrite (run_events_app _ _ _ Ee).
      cbn [app filter executed_load]. exact H.
    + pose proof (extract_partitions_emits _ _ _ _ _ _ _ _ H)
        as (evs & Ee & _).
      apply IH in H. rewrite (run_events_app _ _ _ Ee) in H.
      cbn [events] in Ee, Ev.
      rewrite Ev, <- app_assoc in Ee. rewrite (run_events_app _ _ _ Ee).
      cbn [app filter executed_load List.length]. lia.
Qed.

(** The count of the code is the count of the specification. *)
Lemma count_range_rows_between (s e : string) (rows : list AirRow) :
  count_range s e rows = rows_between s e rows.
Proof.
  unfold count_range. induction rows as [|row rest IH]; [reflexivity|].
  cbn [filter rows_between]. cbv zeta. unfold in_range at 1, partition_key.
  destruct (String.leb s _ && String.leb _ e)%bool;
    cbn [List.length]; lia.
Qed.

(** C9 -- when a run marks its job completed, the UPDATE comes right after
    the COUNT over the range the job was opened with, which comes after
    every load, and [records_extracted] is the number of rows of
    [raw.air_quality], as the run leaves it, whose [year || '-' || month]
    lies in that range; rows outside the range are not counted, and it is
    not [successful_extractions]: on a run that loads four files of two
    rows each into a table that holds two rows of other months, the table
    ends with 10 rows and the ledger records 8. *)
Theorem C9_records_from_count (env : Env) (args : Args) (w : World)
  (r : result unit) (w' : World) (id n : Z) :
  extract_data env args w = (r, w') ->
  ledger_wf (db w) ->
  In (Executed (UpdateCompleted id n)) (run_events w w') ->
  (exists s e evs,
     run_events w w'
     = evs ++ [Executed (CountRange s e); Executed (UpdateCompleted id n);
               Closed]
     /\ ledger_writes evs = [Executed (InsertExtractionLog s e)]
     /\ n = rows_between s e (air_quality (db w'))
     /\ jobs_with_id id (db w')
        = [mkJob id (now env) (Some (now env)) s e completed (Some n) None])
  /\ (let run := extract_data (env_with no_fault None)
                   (manual_args "2024-01" "2024-02") stocked_world in
      map records_extracted (jobs_with_id 1 (db (snd run))) = [Some 8]
      /\ List.length (air_quality (db (snd run))) = 10%nat
      /\ List.length (filter executed_load (run_events stocked_world (snd run)))
         = 4%nat).
Proof.
  intros H Hwf Hin. split; [|vm_compute; auto].
  assert (Hw : In (Executed (UpdateCompleted id n))
                 (ledger_writes (run_events w w')))
    by now apply (in_ledger_writes _ _ _ Hin eq_refl).
  destruct (extract_data_ledger_outcome _ _ _ _ _ H)
    as [Hl _|s e ex Hl _ _|s e n' evs He Hl Hn Hd _|s e n' ex Hl _ _
       |s e n' ex ex' Hl _ _|s e ex Hl _ _|s e ex ex' Hl _ _];
    try (rewrite Hl in Hw; in_cases Hw; fail).
  rewrite He, ledger_writes_app, Hl in Hw. in_cases Hw.
  match goal with E : Executed _ = Executed _ |- _ => injection E as <- <- end.
  exists s, e, evs. repeat split; auto.
  - now rewrite <- count_range_rows_between.
  - eapply jobs_with_id_completed; eauto.
Qed.

Lemma C9_witness :
  exists s e evs,
    run_events stocked_world
      (snd (extract_data (env_with no_fault None)
              (manual_args "2024-01" "2024-02") stocked_world))
    = evs ++ [Executed (CountRange s e); Executed (UpdateCompleted 1 8);
              Closed]
    /\ 8 = rows_between s e
             (air_quality
                (db (snd (extract_data (env_with no_fault None)
                            (manual_args "2024-01" "2024-02")
                            stocked_world))))
    /\ List.length
         (air_quality
            (db (snd (extract_data (env_with no_fault None)
                        (manual_args "2024-01" "2024-02") stocked_world))))
       = 10%nat.
Proof.
  destruct (C9_records_from_count (env_with no_fault None)
              (manual_args "2024-01" "2024-02") stocked_world
              (fst (extract_data (env_with no_fault None)
                      (manual_args "2024-01" "2024-02") stocked_world))
              (snd (extract_data (env_with no_fault None)
                      (manual_args "2024-01" "2024-02") stocked_world))
              1 8)
    as ((s & e & evs & H1 & _ & H3 & _) & (_ & H5 & _)).
  - vm_compute. reflexivity.
  - constructor.
  - vm_compute. auto 20.
  - exists s, e, evs. split; [exact H1|]. split; [exact H3|exact H5].
Defined.

(* ================================================================== *)
(** ** Unfolding the driver along a run                                *)
(* ================================================================== *)

Lemma strptime_truthy (s : string) (dt : datetime) :
  strptime s = Ok dt -> PyStr.truthy s = true.
Proof. destruct s; [discriminate|reflexivity]. Qed.

(** In manual mode with both bounds given the job is opened at once. *)
Lemma open_job_manual (env : Env) (args : Args) (s e : string) (w : World) :
  incremental args = false ->
  args_start_date args = Some s -> args_end_date args = Some e ->
  PyStr.truthy s = true -> PyStr.truthy e = true ->
  open_job env args w
  = bind (log_extraction_start env s e) (fun id => ret (Some (s, e, id))) w.
Proof.
  intros Hm Hs He Ts Te.
  unfold open_job, resolve_range, already_up_to_date.
  rewrite Hm, Hs, He, Ts, Te. reflexivity.
Qed.

(** Once the job is open the rest of the run is the second part of the
    [try] block under its handler, and then the [finally]. *)
Lemma extract_data_opened (env : Env) (args : Args) (w w1 : World)
  (locs : list string) (s e : string) (id : Z) :
  read_json_keys env (locations_file_path args) = Ok locs ->
  open_job env args w = (Ok (Some (s, e, id)), w1) ->
  extract_data env args w
  = (let '(r, w2) :=
       try_except (run_job env args locs s e id)
         (on_exception env (Some id)) w1 in
     (r, close_database_connection w2)).
Proof.
  intros Hl Ho. unfold extract_data, read_location_ids, lift_result, bind.
  rewrite Hl. unfold try_finally. rewrite Ho. reflexivity.
Qed.

Lemma run_job_unfold (env : Env) (args : Args) (locs paths : list string)
  (s e tmpl : string) (id : Z) (w : World) :
  compile_data_file_paths locs s e = Ok paths ->
  read_query env (extract_query_template_path args) = Ok tmpl ->
  run_job env args locs s e id w
  = (guard env args s e ;;
     _ <- extract_partitions env (source_base_path args) tmpl paths 0 ;;
     records <- count_records env s e ;;
     log_extraction_complete env id records) w.
Proof.
  intros Hp Ht. unfold run_job, lift_result, guard.
  unfold bind at 1. rewrite Hp. unfold bind at 1. rewrite Ht. reflexivity.
Qed.

Lemma compile_months_reversed (fuel : nat) (loc : string)
  (idx end_dt : datetime) (acc : list string) :
  dt_leb idx end_dt = false ->
  compile_months fuel loc idx end_dt acc = Ok acc.
Proof. intros H. destruct fuel; cbn; [|rewrite H]; reflexivity. Qed.

Lemma compile_reversed (locs : list string) (s e : string)
  (sdt edt : datetime) :
  strptime s = Ok sdt -> strptime e = Ok edt -> dt_leb sdt edt = false ->
  compile_data_file_paths locs s e = Ok [].
Proof.
  intros Hs He Hr. unfold compile_data_file_paths. rewrite Hs, He.
  induction locs as [|loc rest IH]; [reflexivity|].
  cbn [compile_locations]. now rewrite compile_months_reversed.
Qed.

Lemma delete_months_reversed (env : Env) (fuel : nat)
  (idx end_dt : datetime) (w : World) :
  dt_leb idx end_dt = false ->
  delete_months env fuel idx end_dt w = (Ok tt, w).
Proof. intros H. destruct fuel; cbn; [|rewrite H]; reflexivity. Qed.

Lemma guard_reversed (env : Env) (args : Args) (s e : string)
  (sdt edt : datetime) (w : World) :
  strptime s = Ok sdt -> strptime e = Ok edt -> dt_leb sdt edt = false ->
  exists w', guard env args s e w = (Ok tt, w')
             /\ db w' = db w /\ events w' = events w.
Proof.
  intros Hs He Hr. unfold guard. destruct (negb (incremental args)).
  - unfold delete_existing_data, bind, lift_result, logging.
    rewrite Hs, He, delete_months_reversed by assumption.
    eexists; split; [reflexivity|]. split; reflexivity.
  - eexists; split; [reflexivity|]. split; reflexivity.
Qed.

(* ================================================================== *)
(** ** Manual mode and the order of the bounds                         *)
(* ================================================================== *)

(** C1, amended -- in manual mode a run whose [start_month] is strictly
    after its [end_month] is not rejected: when the engine refuses nothing,
    the job row is inserted, no DELETE and no load is submitted, the rows of
    [raw.air_quality] stay as they are, and the job is completed with the
    count of the range.  What manual mode does reject before any ledger
    write is a missing or empty bound. *)
Theorem C1_reversed_range_runs (env : Env) (args : Args) (w : World)
  (s e tmpl : string) (sdt edt : datetime) (locs : list string) :
  incremental args = false ->
  args_start_date args = Some s ->
  args_end_date args = Some e ->
  strptime s = Ok sdt ->
  strptime e = Ok edt ->
  dt_leb sdt edt = false ->
  read_json_keys env (locations_file_path args) = Ok locs ->
  read_query env (extract_query_template_path args) = Ok tmpl ->
  (forall d st, fault env d st = None) ->
  let id := next_extraction_id (db w) in
  let n := count_range s e (air_quality (db w)) in
  (exists w',
     extract_data env args w = (Ok tt, w')
     /\ run_events w w'
        = [Executed (InsertExtractionLog s e); Executed (CountRange s e);
           Executed (UpdateCompleted id n); Closed]
     /\ air_quality (db w') = air_quality (db w)
     /\ extraction_log (db w')
        = map (set_completed (now env) id n)
            (extraction_log (db w) ++ [new_job env id s e]))
  /\ (forall args0 w0,
        incremental args0 = false ->
        PyStr.truthy_opt (args_start_date args0) = false
        \/ PyStr.truthy_opt (args_end_date args0) = false ->
        read_json_keys env (locations_file_path args0) = Ok locs ->
        exists ex w',
          extract_data env args0 w0 = (Raise ex, w')
          /\ exn_cls ex = ValueError
          /\ run_events w0 w' = [Closed]
          /\ db w' = db w0).
Proof.
  intros Hm Hs He Ps Pe Hr Hl Ht Hnf id n. split.
  - pose proof (strptime_truthy _ _ Ps) as Ts.
    pose proof (strptime_truthy _ _ Pe) as Te.
    destruct (log_extraction_start env s e w) as [r1 w1] eqn:E1.
    pose proof E1 as E1'.
    apply log_extraction_start_cases in E1'
      as [(ex & F & _)|(_ & -> & D1 & V1)]; [now rewrite Hnf in F|].
    assert (Ho : open_job env args w = (Ok (Some (s, e, id)), w1)).
    { rewrite (open_job_manual _ _ s e) by assumption.
      unfold bind. rewrite E1. reflexivity. }
    rewrite (extract_data_opened _ _ _ _ _ _ _ _ Hl Ho).
    unfold try_except.
    rewrite (run_job_unfold _ _ _ [] _ _ tmpl)
      by eauto using compile_reversed.
    destruct (guard_reversed env args s e sdt edt w1 Ps Pe Hr)
      as (w2 & G & D2 & V2).
    unfold bind at 1. rewrite G.
    unfold bind at 1. cbn [extract_partitions]. unfold ret at 1.
    destruct (count_records env s e w2) as [r3 w3] eqn:E3.
    pose proof (count_records_keeps_db _ _ _ _ _ _ E3) as D3.
    assert (r3 = Ok (count_range s e (air_quality (db w3)))
            /\ events w3 = events w2 ++ [Executed (CountRange s e)])
      as [-> V3].
    { revert E3. unfold count_records, bind, submit, get_db, ret.
      rewrite Hnf. now intros [= <- <-]. }
    unfold bind at 1. rewrite E3.
    destruct (log_extraction_complete env id
                (count_range s e (air_quality (db w3))) w3)
      as [r4 w4] eqn:E4.
    apply log_extraction_complete_cases in E4
      as [(ex & F & _)|(_ & -> & D4 & V4)]; [now rewrite Hnf in F|].
    assert (Ha : air_quality (db w3) = air_quality (db w))
      by (rewrite D3, D2, D1; reflexivity).
    eexists; split; [reflexivity|]. split; [|split].
    + apply run_events_app.
      cbn [close_database_connection record_event events].
      rewrite V4, V3, V2, V1, Ha, <- !app_assoc. reflexivity.
    + cbn [close_database_connection record_event db]. rewrite D4.
      cbn [update_jobs air_quality]. exact Ha.
    + cbn [close_database_connection record_event db]. rewrite D4.
      cbn [update_jobs extraction_log]. rewrite Ha, D3, D2, D1. reflexivity.
  - intros args0 w0 Hm0 Hmiss Hl0.
    unfold extract_data, read_location_ids, lift_result, bind.
    rewrite Hl0. unfold try_finally, open_job, resolve_range, bind.
    rewrite Hm0.
    assert (Hraise :
              match args_start_date args0, args_end_date args0 with
              | Some s0, Some e0 =>
                  if (negb (PyStr.truthy s0) || negb (PyStr.truthy e0))%bool
                  then raise (mkExn ValueError
                                "start_date and end_date are required when not in incremental mode"%string)
                  else ret (s0, e0)
              | _, _ =>
                  raise (mkExn ValueError
                           "start_date and end_date are required when not in incremental mode"%string)
              end
              = raise (mkExn ValueError
                         "start_date and end_date are required when not in incremental mode"%string)).
    { destruct (args_start_date args0) as [s0|], (args_end_date args0)
        as [e0|]; cbn [PyStr.truthy_opt] in Hmiss; try reflexivity.
      destruct Hmiss as [-> | ->]; cbn; now rewrite ?orb_true_r. }
    rewrite Hraise. cbn.
    do 2 eexists. split; [reflexivity|]. split; [reflexivity|].
    split; [|reflexivity]. apply run_events_app. reflexivity.
Qed.

Lemma C1_witness :
  exists w',
    extract_data (env_with no_fault None) (manual_args "2024-03" "2024-02")
      fresh_world = (Ok tt, w')
    /\ run_events fresh_world w'
       = [Executed (InsertExtractionLog "2024-03" "2024-02");
          Executed (CountRange "2024-03" "2024-02");
          Executed (UpdateCompleted 1 0); Closed].
Proof.
  destruct (C1_reversed_range_runs (env_with no_fault None)
              (manual_args "2024-03" "2024-02") fresh_world
              "2024-03" "2024-02" "COPY {{data_file_path}}"
              (first_of_month 2024 3) (first_of_month 2024 2)
              ["A"; "B"]%string
              eq_refl eq_refl eq_refl eq_refl eq_refl eq_refl eq_refl eq_refl
              (fun _ _ => eq_refl))
    as ((w' & H1 & H2 & _) & _).
  exists w'. split; [exact H1|exact H2].
Defined.

(** C1 as stated fails: the manual run over 2024-03..2024-02 returns
    normally and leaves a completed job in the ledger. *)
Lemma C1_counterexample :
  ~ rejects_reversed_range (env_with no_fault None)
      (manual_args "2024-03" "2024-02") fresh_world.
Proof.
  intros H. destruct H as ((ex & H) & _).
  - reflexivity.
  - exists "2024-03"%string, "2024-02"%string,
      (first_of_month 2024 3), (first_of_month 2024 2).
    repeat split; reflexivity.
  - vm_compute in H. discriminate.
Qed.

(* ================================================================== *)
(** ** The delete-before-insert guard                                  *)
(* ================================================================== *)

(** With no DELETE refused, the loop of the guard submits one DELETE per
    month of the range, in ascending order; it raises only when the month
    after [end_dt] is not a [datetime]. *)
Lemma delete_months_trace (env : Env) :
  (forall d y m, fault env d (DeleteMonth y m) = None) ->
  forall (n : nat) (idx end_dt : datetime) (w : World),
    is_month_start idx -> is_month_start end_dt ->
    n = months_fuel idx end_dt ->
    exists r w',
      delete_months env n idx end_dt w = (r, w')
      /\ events w'
         = events w ++ map (fun m => Executed (delete_stmt m))
                         (months_inclusive idx end_dt)
      /\ (month_index end_dt < last_month_index -> r = Ok tt).
Proof.
  intros Hnf. induction n as [|n IH]; intros idx end_dt w Hi He Hn.
  - exists (Ok tt), w. unfold months_inclusive, months_fuel in *.
    rewrite <- Hn. cbn. rewrite app_nil_r. auto.
  - assert (Hle : month_index idx <= month_index end_dt)
      by (unfold months_fuel in Hn; lia).
    cbn [delete_months]. rewrite dt_leb_month_index by assumption.
    replace (month_index idx <=? month_index end_dt) with true
      by (symmetry; now apply Z.leb_le).
    unfold bind at 1. unfold logging at 1. unfold bind at 1.
    match goal with
    | |- context [execute_query env ?s ?w0] =>
        destruct (execute_query_executed env s w0 (Hnf _ _ _))
          as (w1 & E1 & V1 & _)
    end.
    rewrite E1. cbn [events] in V1.
    pose proof (month_index_bounds _ Hi).
    pose proof (month_index_bounds _ He).
    assert (Hm : months_inclusive idx end_dt
                 = idx :: months_from n (month_index idx + 1)).
    { unfold months_inclusive. unfold months_fuel in Hn. rewrite <- Hn.
      cbn [months_from]. now rewrite month_of_index_index. }
    unfold bind at 1, lift_result, plus_months.
    destruct (Z.eq_dec (month_index idx) last_month_index) as [Hl|Hl].
    + rewrite (add_months_last _ Hi Hl).
      do 2 eexists. split; [reflexivity|]. split; [|lia].
      rewrite V1, Hm.
      replace n with O by (unfold months_fuel in Hn; lia). reflexivity.
    + destruct (add_months_succ idx Hi) as (idx' & -> & Hi' & Hs); [lia|].
      destruct (IH idx' end_dt w1 Hi' He) as (r & w' & E & V & R).
      { symmetry; eapply months_fuel_succ; eauto. }
      exists r, w'. split; [exact E|]. split; [|exact R].
      rewrite V, V1, Hm, <- app_assoc. cbn [map app]. do 3 f_equal.
      unfold months_inclusive. rewrite Hs. f_equal.
      unfold months_fuel in Hn. lia.
Qed.

(** The fuel of the loop of the guard never runs out either. *)
Lemma delete_months_fuel_enough (env : Env) (idx end_dt : datetime)
  (w : World) :
  is_month_start idx -> is_month_start end_dt ->
  delete_months env (months_fuel idx end_dt) idx end_dt w =
  if dt_leb idx end_dt then
    (logging INFO
       ("Deleting existing data for " ++ PyStr.str_int (year idx) ++ "-"
          ++ PyStr.zfill 2 (PyStr.str_int (month idx)))%string ;;
     execute_query env (delete_stmt idx) ;;
     idx' <- lift_result (plus_months idx 1) ;;
     delete_months env (months_fuel idx' end_dt) idx' end_dt) w
  else (Ok tt, w).
Proof.
  intros Hi He. destruct (months_fuel idx end_dt) as [|n] eqn:Hf.
  - rewrite (months_fuel_zero _ _ Hi He Hf). reflexivity.
  - cbn [delete_months]. destruct (dt_leb idx end_dt); [|reflexivity].
    unfold bind, logging, lift_result, delete_stmt, plus_months.
    match goal with
    | |- context [execute_query env ?s ?w0] =>
        destruct (execute_query env s w0) as [[[]|ex] w1]
    end; [|reflexivity].
    destruct (Z.eq_dec (month_index idx) last_month_index) as [Hl|Hl].
    + rewrite (add_months_last _ Hi Hl). reflexivity.
    + pose proof (month_index_bounds _ Hi).
      destruct (add_months_succ idx Hi) as (idx' & -> & _ & Hs); [lia|].
      rewrite (months_fuel_succ _ _ _ _ Hf Hs). reflexivity.
Qed.

Lemma delete_existing_data_trace (env : Env) (s e : string)
  (sdt edt : datetime) (w : World) :
  (forall d y m, fault env d (DeleteMonth y m) = None) ->
  strptime s = Ok sdt -> strptime e = Ok edt ->
  exists r w',
    delete_existing_data env s e w = (r, w')
    /\ events w'
       = events w ++ map (fun m => Executed (delete_stmt m))
                       (months_inclusive sdt edt)
    /\ (month_index edt < last_month_index -> r = Ok tt).
Proof.
  intros Hnf Hs He.
  destruct (delete_months_trace env Hnf _ sdt edt w
              (strptime_month_start _ _ Hs) (strptime_month_start _ _ He)
              eq_refl) as (r & w1 & E & V & R).
  unfold delete_existing_data, bind, lift_result. rewrite Hs, He, E.
  destruct r as [[]|ex]; do 2 eexists; (split; [reflexivity|]);
    split; auto.
Qed.

Lemma deletes_of_app (a b : list event) :
  deletes_of (a ++ b) = deletes_of a ++ deletes_of b.
Proof. apply filter_app. Qed.

Lemma deletes_of_months (ms : list datetime) :
  deletes_of (map (fun m => Executed (delete_stmt m)) ms)
  = map (fun m => Executed (delete_stmt m)) ms.
Proof. induction ms as [|m ms IH]; [reflexivity|]. cbn. now f_equal. Qed.

Lemma not_delete_no_deletes (evs : list event) :
  Forall (allowed not_delete) evs -> deletes_of evs = [].
Proof.
  apply allowed_filter_nil. intros s; unfold not_delete.
  now destruct (is_delete s).
Qed.

Lemma select_no_loads (evs : list event) :
  Forall (allowed is_select) evs -> loads_of evs = [].
Proof. apply allowed_filter_nil. now intros []. Qed.

Lemma select_not_delete (s : stmt) : is_select s = true -> not_delete s = true.
Proof. now destruct s. Qed.

Lemma load_not_delete (s : stmt) : is_load s = true -> not_delete s = true.
Proof. now destruct s. Qed.

Lemma count_not_delete (s : stmt) : is_count s = true -> not_delete s = true.
Proof. now destruct s. Qed.

Lemma log_extraction_start_emits (env : Env) (s e : string) :
  emits not_delete (log_extraction_start env s e).
Proof. unfold log_extraction_start. runs. Qed.

Lemma log_extraction_complete_emits (env : Env) (id n : Z) :
  emits not_delete (log_extraction_complete env id n).
Proof. unfold log_extraction_complete. runs. Qed.

Lemma log_extraction_failed_emits (env : Env) (id : Z) (msg : string) :
  emits not_delete (log_extraction_failed env id msg).
Proof. unfold log_extraction_failed. runs. Qed.

Lemma on_exception_emits (env : Env) (o : option Z) (ex : exn) :
  emits not_delete (on_exception env o ex).
Proof.
  pose proof (log_extraction_failed_emits env).
  unfold on_exception. runs.
Qed.

Lemma open_job_emits (env : Env) (args : Args) :
  emits not_delete (open_job env args).
Proof.
  pose proof (emits_weaken _ _ _ select_not_delete (resolve_range_emits env args)).
  pose proof (emits_weaken _ _ _ select_not_delete
                (already_up_to_date_emits env args)).
  pose proof (log_extraction_start_emits env).
  unfold open_job. runs.
Qed.

(** What follows the guard in [run_job]. *)
Lemma after_guard_emits (env : Env) (base tmpl s e : string)
  (paths : list string) (id : Z) :
  emits not_delete
    (_ <- extract_partitions env base tmpl paths 0 ;;
     records <- count_records env s e ;;
     log_extraction_complete env id records).
Proof.
  pose proof (emits_weaken _ _ _ load_not_delete
                (extract_partitions_emits env base tmpl paths 0)).
  pose proof (emits_weaken _ _ _ count_not_delete
                (count_records_emits env s e)).
  pose proof (log_extraction_complete_emits env id).
  runs.
Qed.

Lemma run_job_emits_incremental (env : Env) (args : Args)
  (locs : list string) (s e : string) (id : Z) :
  incremental args = true ->
  emits not_delete (run_job env args locs s e id).
Proof.
  intros Hi. unfold run_job. rewrite Hi. cbn [negb].
  apply emits_bind; [runs|intros paths].
  apply emits_bind; [runs|intros tmpl].
  apply emits_bind; [runs|intros _].
  apply after_guard_emits.
Qed.

Lemma emits_finally {A : Type} (p : stmt -> bool) (c : M A) :
  emits p c -> emits p (try_finally c close_database_connection).
Proof.
  intros Hc w r w' H. unfold try_finally in H.
  destruct (c w) as [r0 w0] eqn:E. injection H as <- <-.
  destruct (Hc _ _ _ E) as (evs & Ev & F).
  exists (evs ++ [Closed]); split.
  - cbn. now rewrite Ev, app_assoc.
  - apply Forall_app; split; [assumption|]. constructor; cbn; auto.
Qed.

Lemma extract_data_emits_incremental (env : Env) (args : Args) :
  incremental args = true -> emits not_delete (extract_data env args).
Proof.
  intros Hi. unfold extract_data.
  apply emits_bind; [unfold read_location_ids; runs|intros locs].
  apply emits_finally. intros w r w' H.
  destruct (open_job env args w) as [ro w1] eqn:Ho.
  destruct (open_job_emits env args _ _ _ Ho) as (ev1 & E1 & F1).
  assert (Hk : forall (c : M unit),
             emits not_delete c -> c w1 = (r, w') ->
             exists evs, events w' = events w ++ evs
                         /\ Forall (allowed not_delete) evs).
  { intros c Hc Hr. destruct (Hc _ _ _ Hr) as (ev2 & E2 & F2).
    exists (ev1 ++ ev2); split; [now rewrite E2, E1, app_assoc|].
    now apply Forall_app. }
  destruct ro as [[[[s e] id]|]|ex].
  - eapply Hk; [|exact H]. apply emits_try_except.
    + now apply run_job_emits_incremental.
    + intro; apply on_exception_emits.
  - injection H as <- <-. eauto.
  - eapply Hk; [|exact H]. apply on_exception_emits.
Qed.

(** C7 -- the guard runs if and only if the run is manual: an incremental
    run submits no DELETE at all, and a manual run that reaches the guard
    submits, before any load and with no DELETE refused, exactly one DELETE
    per calendar month of the inclusive range, in ascending order. *)
Theorem C7_guard_manual_only (env : Env) (args : Args) (w : World)
  (r : result unit) (w' : World) :
  extract_data env args w = (r, w') ->
  (incremental args = true -> deletes_of (run_events w w') = [])
  /\ (incremental args = false ->
      forall s e sdt edt locs paths tmpl id w1,
        read_json_keys env (locations_file_path args) = Ok locs ->
        open_job env args w = (Ok (Some (s, e, id)), w1) ->
        compile_data_file_paths locs s e = Ok paths ->
        read_query env (extract_query_template_path args) = Ok tmpl ->
        strptime s = Ok sdt -> strptime e = Ok edt ->
        (forall d y m, fault env d (DeleteMonth y m) = None) ->
        let deletes := map (fun m => Executed (delete_stmt m))
                         (months_inclusive sdt edt) in
        deletes_of (run_events w w') = deletes
        /\ exists before after,
            run_events w w' = before ++ deletes ++ after
            /\ loads_of before = [] /\ deletes_of after = []).
Proof.
  intros H. split.
  - intros Hi.
    destruct (extract_data_emits_incremental env args Hi _ _ _ H)
      as (evs & E & F).
    rewrite (run_events_app _ _ _ E). now apply not_delete_no_deletes.
  - intros Hm s e sdt edt locs paths tmpl id w1 Hl Ho Hp Ht Hs He Hnf deletes.
    rewrite (extract_data_opened _ _ _ _ _ _ _ _ Hl Ho) in H.
    destruct (open_job_emits env args _ _ _ Ho) as (ev0 & E0 & F0).
    assert (L0 : loads_of ev0 = []).
    { pose proof Ho as Ho'. apply open_job_cases in Ho'
        as [(_ & _ & [[=]|(? & [=])])
           |[(? & ? & ? & ? & _ & _ & _ & _ & [=])
            |(w0 & s' & e' & ((evq & Eq & Fq) & _) & _ & _ & E1 & _ & _)]].
      rewrite Eq, <- app_assoc in E1. rewrite E0 in E1.
      apply app_inv_head in E1. subst ev0.
      unfold loads_of. rewrite filter_app.
      fold (loads_of evq). rewrite (select_no_loads _ Fq). reflexivity. }
    unfold try_except in H.
    rewrite (run_job_unfold _ _ _ _ _ _ _ _ _ Hp Ht) in H.
    unfold guard in H. rewrite Hm in H. cbn [negb] in H.
    destruct (delete_existing_data_trace env s e sdt edt
                (mkWorld (db w1) (events w1)
                   (logs w1 ++ [(INFO,
                      "Deleting existing data for the specified date range..."%string)]))
                Hnf Hs He) as (rg & w2 & Eg & Vg & _).
    cbn [events] in Vg. fold deletes in Vg.
    assert (Hrest : exists ev3, events w' = events w2 ++ ev3
                                /\ Forall (allowed not_delete) ev3).
    { unfold bind at 1 in H. unfold bind at 1 in H.
      unfold logging at 1 in H. rewrite Eg in H.
      destruct rg as [[]|ex].
      - match type of H with
        | context [bind ?c ?k w2] =>
            destruct (bind c k w2) as [[[]|ex] w3] eqn:E3;
            destruct (after_guard_emits env _ tmpl s e paths id _ _ _ E3)
              as (ev3 & V3 & F3)
        end.
        + injection H as _ <-. exists (ev3 ++ [Closed]). split.
          * cbn. now rewrite V3, app_assoc.
          * apply Forall_app; split; [assumption|]. constructor; cbn; auto.
        + destruct (on_exception env (Some id) ex w3) as [r4 w4] eqn:E4.
          destruct (on_exception_emits env _ _ _ _ _ E4) as (ev4 & V4 & F4).
          injection H as _ <-. exists (ev3 ++ ev4 ++ [Closed]). split.
          * cbn. now rewrite V4, V3, <- !app_assoc.
          * repeat (apply Forall_app; split; [assumption|]).
            constructor; cbn; auto.
      - destruct (on_exception env (Some id) ex w2) as [r4 w4] eqn:E4.
        destruct (on_exception_emits env _ _ _ _ _ E4) as (ev4 & V4 & F4).
        injection H as _ <-. exists (ev4 ++ [Closed]). split.
        + cbn. now rewrite V4, <- !app_assoc.
        + apply Forall_app; split; [assumption|]. constructor; cbn; auto. }
    destruct Hrest as (ev3 & V3 & F3).
    assert (E : events w' = events w ++ ev0 ++ deletes ++ ev3)
      by (rewrite V3, Vg, E0, <- !app_assoc; reflexivity).
    rewrite (run_events_app _ _ _ E). split.
    + rewrite !deletes_of_app, (not_delete_no_deletes _ F0),
        (not_delete_no_deletes _ F3). unfold deletes.
      rewrite deletes_of_months. now rewrite app_nil_r.
    + exists ev0, ev3. repeat split; auto using not_delete_no_deletes.
Qed.

Lemma C7_witness :
  deletes_of
    (run_events fresh_world
       (snd (extract_data (env_with no_fault None)
               (manual_args "2024-01" "2024-03") fresh_world)))
  = [Executed (DeleteMonth 2024 "01"); Executed (DeleteMonth 2024 "02");
     Executed (DeleteMonth 2024 "03")].
Proof.
  refine (proj1 (proj2 (C7_guard_manual_only (env_with no_fault None)
              (manual_args "2024-01" "2024-03") fresh_world
              (fst (extract_data (env_with no_fault None)
                      (manual_args "2024-01" "2024-03") fresh_world))
              (snd (extract_data (env_with no_fault None)
                      (manual_args "2024-01" "2024-03") fresh_world))
              _) eq_refl "2024-01"%string "2024-03"%string
              (first_of_month 2024 1) (first_of_month 2024 3)
              ["A"; "B"]%string
              _ "COPY {{data_file_path}}"%string 1 _
              eq_refl _ _ eq_refl eq_refl eq_refl (fun _ _ _ => eq_refl))).
  - vm_compute. reflexivity.
  - vm_compute. reflexivity.
  - vm_compute. reflexivity.
Defined.

(* ================================================================== *)
(** ** Decimal digits and the order of ["YYYY-MM"] strings             *)
(* ================================================================== *)

Section Digits.

Ltac zdiv := Z.div_mod_to_equations; lia.

Lemma digit_char_code (d : Z) :
  0 <= d <= 9 -> N_of_ascii (PyStr.digit_char d) = (48 + Z.to_N d)%N.
Proof.
  intros H. unfold PyStr.digit_char. apply N_ascii_embedding. lia.
Qed.

Lemma is_digit_char (d : Z) :
  0 <= d <= 9 -> PyStr.is_digit (PyStr.digit_char d) = true.
Proof.
  intros H. unfold PyStr.is_digit. rewrite digit_char_code by assumption.
  apply andb_true_iff; split; apply N.leb_le; lia.
Qed.

Lemma digit_val_char (d : Z) :
  0 <= d <= 9 -> PyStr.digit_val (PyStr.digit_char d) = d.
Proof.
  intros H. unfold PyStr.digit_val. rewrite digit_char_code by assumption.
  lia.
Qed.

Lemma digit_char_compare (a b : Z) :
  0 <= a <= 9 -> 0 <= b <= 9 ->
  Ascii.compare (PyStr.digit_char a) (PyStr.digit_char b) = (a ?= b).
Proof.
  intros Ha Hb. unfold Ascii.compare. rewrite !digit_char_code by assumption.
  destruct (N.compare_spec (48 + Z.to_N a) (48 + Z.to_N b));
    destruct (Z.compare_spec a b); try reflexivity; lia.
Qed.

Lemma digit_char_not_sign (d : Z) :
  0 <= d <= 9 ->
  (Ascii.eqb (PyStr.digit_char d) "+" || Ascii.eqb (PyStr.digit_char d) "-")%bool
  = false.
Proof.
  intros H.
  assert (d = 0 \/ d = 1 \/ d = 2 \/ d = 3 \/ d = 4 \/ d = 5 \/ d = 6
          \/ d = 7 \/ d = 8 \/ d = 9) as Hd by lia.
  repeat (destruct Hd as [->|Hd]; [reflexivity|]). subst. reflexivity.
Qed.

Lemma log2_at_least (n k : Z) :
  0 <= k -> 2 ^ k <= n -> (Z.to_nat k <= Z.to_nat (Z.log2 n))%nat.
Proof.
  intros Hk Hn. apply Z2Nat.inj_le; try lia.
  - apply Z.log2_nonneg.
  - apply Z.log2_le_pow2; [|assumption].
    pose proof (Z.pow_pos_nonneg 2 k). lia.
Qed.

Lemma str_int_4 (y : Z) :
  1000 <= y <= 9999 -> PyStr.str_int y = four_digits y.
Proof.
  intros H. unfold PyStr.str_int.
  destruct (Z.ltb_spec y 0); [lia|].
  pose proof (log2_at_least y 3 ltac:(lia) ltac:(cbn; lia)) as Hf.
  destruct (Z.to_nat (Z.log2 y)) as [|[|[|f]]]; try (cbn in Hf; lia).
  cbn [PyStr.digits].
  assert (Hd : y / 10 / 10 / 10 = y / 1000)
    by (rewrite !Z.div_div by lia; reflexivity).
  assert (Hc : y / 10 / 10 = y / 100)
    by (rewrite !Z.div_div by lia; reflexivity).
  destruct (Z.ltb_spec y 10); [lia|].
  destruct (Z.ltb_spec (y / 10) 10); [zdiv|].
  destruct (Z.ltb_spec (y / 10 / 10) 10); [zdiv|].
  destruct (Z.ltb_spec (y / 10 / 10 / 10) 10); [|zdiv].
  unfold four_digits. rewrite Hd, Hc.
  rewrite (Z.mod_small (y / 1000) 10) by zdiv. reflexivity.
Qed.

Lemma zfill_2_month (m : Z) :
  1 <= m <= 12 -> PyStr.zfill 2 (PyStr.str_int m) = two_digits m.
Proof.
  intros H.
  assert (m = 1 \/ m = 2 \/ m = 3 \/ m = 4 \/ m = 5 \/ m = 6 \/ m = 7
          \/ m = 8 \/ m = 9 \/ m = 10 \/ m = 11 \/ m = 12) as Hm by lia.
  repeat (destruct Hm as [->|Hm]; [reflexivity|]). subst. reflexivity.
Qed.

Lemma zfill_4_year (y : Z) :
  1000 <= y <= 9999 -> PyStr.zfill 4 (PyStr.str_int y) = four_digits y.
Proof.
  intros H. rewrite str_int_4 by assumption.
  unfold four_digits, PyStr.zfill.
  rewrite digit_char_not_sign by zdiv. reflexivity.
Qed.

Lemma strftime_year_month (y m : Z) :
  1000 <= y <= 9999 -> 1 <= m <= 12 ->
  strftime_Ym (first_of_month y m) = year_month y m.
Proof.
  intros Hy Hm. unfold strftime_Ym, year_month. cbn [year month first_of_month].
  now rewrite zfill_4_year, zfill_2_month.
Qed.

Lemma partition_key_year_month (y m : Z) (payload : string) :
  1000 <= y <= 9999 -> 1 <= m <= 12 ->
  partition_key (mkAirRow y (PyStr.zfill 2 (PyStr.str_int m)) payload)
  = year_month y m.
Proof.
  intros Hy Hm. unfold partition_key, year_month. cbn [aq_year aq_month].
  now rewrite str_int_4, zfill_2_month.
Qed.

Lemma compare_digit_cons (a b : Z) (s t : string) :
  0 <= a <= 9 -> 0 <= b <= 9 ->
  String.compare (String (PyStr.digit_char a) s)
    (String (PyStr.digit_char b) t)
  = match a ?= b with
    | Eq => String.compare s t
    | c => c
    end.
Proof.
  intros Ha Hb. cbn [String.compare]. now rewrite digit_char_compare.
Qed.

(** On ["YYYY-MM"] texts the order of strings is the order of months. *)
Lemma year_month_leb (y m y' m' : Z) :
  1000 <= y <= 9999 -> 1 <= m <= 12 ->
  1000 <= y' <= 9999 -> 1 <= m' <= 12 ->
  String.leb (year_month y m) (year_month y' m')
  = (12 * y + m <=? 12 * y' + m').
Proof.
  intros Hy Hm Hy' Hm'.
  unfold String.leb, year_month, four_digits, two_digits.
  cbn [String.append].
  assert (D : forall n, 0 <= n mod 10 <= 9)
    by (intros n; pose proof (Z.mod_pos_bound n 10); lia).
  rewrite !compare_digit_cons by (try apply D; zdiv).
  match goal with
  | |- context [String.compare (String "-" ?s) (String "-" ?t)] =>
      change (String.compare (String "-" s) (String "-" t))
        with (String.compare s t)
  end.
  rewrite !compare_digit_cons by (try apply D; zdiv).
  cbn [String.compare].
  assert (Ey : y = 1000 * (y / 1000) + 100 * (y / 100 mod 10)
                   + 10 * (y / 10 mod 10) + y mod 10) by zdiv.
  assert (Ey' : y' = 1000 * (y' / 1000) + 100 * (y' / 100 mod 10)
                     + 10 * (y' / 10 mod 10) + y' mod 10) by zdiv.
  assert (Em : m = 10 * (m / 10) + m mod 10) by zdiv.
  assert (Em' : m' = 10 * (m' / 10) + m' mod 10) by zdiv.
  pose proof (D (y / 100)). pose proof (D (y / 10)). pose proof (D y).
  pose proof (D (y' / 100)). pose proof (D (y' / 10)). pose proof (D y').
  pose proof (D m). pose proof (D m').
  assert (0 <= y / 1000 <= 9) by zdiv. assert (0 <= y' / 1000 <= 9) by zdiv.
  assert (0 <= m / 10 <= 1) by zdiv. assert (0 <= m' / 10 <= 1) by zdiv.
  generalize dependent (y / 1000). generalize dependent (y / 100 mod 10).
  generalize dependent (y / 10 mod 10). generalize dependent (y mod 10).
  generalize dependent (y' / 1000). generalize dependent (y' / 100 mod 10).
  generalize dependent (y' / 10 mod 10). generalize dependent (y' mod 10).
  generalize dependent (m / 10). generalize dependent (m mod 10).
  generalize dependent (m' / 10). generalize dependent (m' mod 10).
  intros f' Hf' e' He' Em' f Hf e He Em d' Hd' c' Hc' b' Hb' a' Ha' Ey'
    d Hd c Hc b Hb a Ha Ey.
  subst y y' m m'.
  destruct (Z.compare_spec a a'); [subst| |]; cycle 1.
  { symmetry; apply Z.leb_le; lia. }
  { symmetry; apply Z.leb_gt; lia. }
  destruct (Z.compare_spec b b'); [subst| |]; cycle 1.
  { symmetry; apply Z.leb_le; lia. }
  { symmetry; apply Z.leb_gt; lia. }
  destruct (Z.compare_spec c c'); [subst| |]; cycle 1.
  { symmetry; apply Z.leb_le; lia. }
  { symmetry; apply Z.leb_gt; lia. }
  destruct (Z.compare_spec d d'); [subst| |]; cycle 1.
  { symmetry; apply Z.leb_le; lia. }
  { symmetry; apply Z.leb_gt; lia. }
  destruct (Z.compare_spec e e'); [subst| |]; cycle 1.
  { symmetry; apply Z.leb_le; lia. }
  { symmetry; apply Z.leb_gt; lia. }
  destruct (Z.compare_spec f f'); [subst| |];
    symmetry; try (apply Z.leb_le; lia); apply Z.leb_gt; lia.
Qed.

End Digits.

(* ================================================================== *)
(** ** Zero-padded months and the count over a range                   *)
(* ================================================================== *)

Lemma months_from_valid (n : nat) :
  forall (i : Z) (m : datetime),
    In m (months_from n i) -> 1 <= month m <= 12.
Proof.
  induction n as [|n IH]; intros i m Hin; [contradiction|].
  destruct Hin as [<-|Hin]; [|eauto].
  unfold month_of_index, first_of_month; cbn [month].
  pose proof (Z.mod_pos_bound i 12). lia.
Qed.

Lemma two_digits_length (m : Z) : String.length (two_digits m) = 2%nat.
Proof. reflexivity. Qed.

Lemma in_range_month_between (ys ms ye me : Z) (t : Z * Z * string) :
  1000 <= ys <= 9999 -> 1 <= ms <= 12 ->
  1000 <= ye <= 9999 -> 1 <= me <= 12 ->
  valid_month t ->
  in_range (strftime_Ym (first_of_month ys ms))
    (strftime_Ym (first_of_month ye me)) (padded_row t)
  = month_between ys ms ye me t.
Proof.
  intros Hys Hms Hye Hme [Hy Hm]. destruct t as [[y m] payload].
  cbn [fst snd] in *. unfold in_range, padded_row, month_between.
  cbn [fst snd].
  rewrite partition_key_year_month, !strftime_year_month by assumption.
  now rewrite !year_month_leb by assumption.
Qed.

Lemma count_range_month_between (ys ms ye me : Z)
  (table : list (Z * Z * string)) :
  1000 <= ys <= 9999 -> 1 <= ms <= 12 ->
  1000 <= ye <= 9999 -> 1 <= me <= 12 ->
  Forall valid_month table ->
  count_range (strftime_Ym (first_of_month ys ms))
    (strftime_Ym (first_of_month ye me)) (map padded_row table)
  = Z.of_nat (List.length (filter (month_between ys ms ye me) table)).
Proof.
  intros Hys Hms Hye Hme Hv. unfold count_range. f_equal.
  induction Hv as [|t table Ht _ IH]; [reflexivity|].
  cbn [map filter].
  rewrite (in_range_month_between ys ms ye me t) by assumption.
  destruct (month_between ys ms ye me t); cbn [List.length]; now rewrite IH.
Qed.

(** C10 -- a month number from 1 to 12 is rendered on exactly two
    zero-padded digits, by the path compiler and by the guard alike; with
    years on four digits, a row of such a month is selected by the
    comparison of [year || '-' || month] against the bounds of the count
    exactly when its month lies between the bounds, inclusive; so, over a
    table of such rows, the count of the completion query -- the value
    [count_records] returns -- is the number of rows whose month lies
    between the bounds: rows of other months are not counted. *)
Theorem C10_zero_padded_months (env : Env) (locs : list string)
  (s e : string) (sdt edt : datetime) (w : World) :
  strptime s = Ok sdt ->
  strptime e = Ok edt ->
  month_index edt < last_month_index ->
  (forall d y m, fault env d (DeleteMonth y m) = None) ->
  (forall m, 1 <= m <= 12 ->
             PyStr.zfill 2 (PyStr.str_int m) = two_digits m
             /\ String.length (PyStr.zfill 2 (PyStr.str_int m)) = 2%nat)
  /\ compile_data_file_paths locs s e
     = Ok (map (fun l => render_data_file_path (fst l)
                           (PyStr.str_int (year (snd l)))
                           (two_digits (month (snd l))))
             (partition_sequence locs sdt edt))
  /\ (exists w',
        delete_existing_data env s e w = (Ok tt, w')
        /\ run_events w w'
           = map (fun m => Executed (DeleteMonth (year m)
                                       (two_digits (month m))))
               (months_inclusive sdt edt))
  /\ (forall y m ys ms ye me payload,
        1000 <= y <= 9999 -> 1 <= m <= 12 ->
        1000 <= ys <= 9999 -> 1 <= ms <= 12 ->
        1000 <= ye <= 9999 -> 1 <= me <= 12 ->
        in_range (strftime_Ym (first_of_month ys ms))
          (strftime_Ym (first_of_month ye me))
          (mkAirRow y (PyStr.zfill 2 (PyStr.str_int m)) payload)
        = (12 * ys + ms <=? 12 * y + m) && (12 * y + m <=? 12 * ye + me))
  /\ (forall ys ms ye me table,
        1000 <= ys <= 9999 -> 1 <= ms <= 12 ->
        1000 <= ye <= 9999 -> 1 <= me <= 12 ->
        Forall valid_month table ->
        count_range (strftime_Ym (first_of_month ys ms))
          (strftime_Ym (first_of_month ye me)) (map padded_row table)
        = Z.of_nat (List.length (filter (month_between ys ms ye me) table)))
  /\ (forall ys ms ye me table w0,
        1000 <= ys <= 9999 -> 1 <= ms <= 12 ->
        1000 <= ye <= 9999 -> 1 <= me <= 12 ->
        Forall valid_month table ->
        air_quality (db w0) = map padded_row table ->
        fault env (db w0)
          (CountRange (strftime_Ym (first_of_month ys ms))
             (strftime_Ym (first_of_month ye me))) = None ->
        fst (count_records env (strftime_Ym (first_of_month ys ms))
               (strftime_Ym (first_of_month ye me)) w0)
        = Ok (Z.of_nat
                (List.length (filter (month_between ys ms ye me) table)))).
Proof.
  intros Hs He Hlast Hnf.
  pose proof (strptime_month_start _ _ Hs) as Hsm.
  pose proof (strptime_month_start _ _ He) as Hem.
  split; [|split; [|split; [|split; [|split]]]].
  5:{ intros; now apply count_range_month_between. }
  5:{ intros ys ms ye me table w0 Hys Hms Hye Hme Hv Ha Hf.
      unfold count_records, bind, submit, get_db, ret. rewrite Hf.
      cbn [fst db record_event]. rewrite Ha.
      now rewrite count_range_month_between. }
  - intros m Hm. rewrite zfill_2_month by assumption. auto.
  - unfold compile_data_file_paths. rewrite Hs, He.
    rewrite compile_locations_spec by assumption.
    replace (month_index edt =? last_month_index) with false
      by (symmetry; apply Z.eqb_neq; lia).
    rewrite andb_false_r.
    assert (Hmap : map locator_path (partition_sequence locs sdt edt)
                   = map (fun l => render_data_file_path (fst l)
                                     (PyStr.str_int (year (snd l)))
                                     (two_digits (month (snd l))))
                       (partition_sequence locs sdt edt)).
    { apply map_ext_in. intros [loc m] Hin. unfold locator_path.
      cbn [fst snd]. rewrite zfill_2_month; [reflexivity|].
      unfold partition_sequence in Hin. apply in_flat_map in Hin
        as (loc' & _ & Hin).
      apply in_map_iff in Hin as (m' & [= _ <-] & Hin).
      eapply months_from_valid; exact Hin. }
    destruct locs; [reflexivity|]. now rewrite Hmap.
  - destruct (delete_existing_data_trace env s e sdt edt w Hnf Hs He)
      as (r & w' & E & V & R).
    rewrite (R Hlast) in E. exists w'. split; [exact E|].
    rewrite (run_events_app _ _ _ V). apply map_ext_in.
    intros m Hin. unfold delete_stmt. rewrite zfill_2_month; [reflexivity|].
    eapply months_from_valid; exact Hin.
  - intros y m ys ms ye me payload Hy Hm Hys Hms Hye Hme.
    unfold in_range.
    rewrite partition_key_year_month, !strftime_year_month by assumption.
    now rewrite !year_month_leb by assumption.
Qed.

Lemma C10_witness :
  compile_data_file_paths ["A"]%string "2024-09" "2024-10"
  = Ok ["locationid=A/year=2024/month=09/*";
        "locationid=A/year=2024/month=10/*"]%string
  /\ in_range "2024-09" "2024-10" (mkAirRow 2024 "09" "pm25") = true
  /\ count_range "2024-09" "2024-10"
       [mkAirRow 2023 "10" "a"; mkAirRow 2024 "08" "b";
        mkAirRow 2024 "09" "c"; mkAirRow 2024 "10" "d";
        mkAirRow 2024 "11" "e"] = 2.
Proof.
  destruct (C10_zero_padded_months (env_with no_fault None) ["A"]%string
              "2024-09" "2024-10"
              (first_of_month 2024 9) (first_of_month 2024 10) fresh_world
              eq_refl eq_refl ltac:(vm_compute; reflexivity)
              (fun _ _ _ => eq_refl))
    as (_ & H2 & _ & H4 & H5 & _).
  split; [exact H2|]. split.
  - exact (H4 2024 9 2024 9 2024 10 "pm25"%string
             ltac:(lia) ltac:(lia) ltac:(lia) ltac:(lia) ltac:(lia)
             ltac:(lia)).
  - refine (H5 2024 9 2024 10
              [(2023, 10, "a"%string); (2024, 8, "b"%string);
               (2024, 9, "c"%string); (2024, 10, "d"%string);
               (2024, 11, "e"%string)]
              ltac:(lia) ltac:(lia) ltac:(lia) ltac:(lia) _).
    repeat constructor; cbn; lia.
Defined.

(** With a year below 1000 the texts are not aligned and the comparison
    of strings no longer follows the months: a row of May 999 is not
    selected by the bounds 0999-01 and 0999-12. *)
Example short_year_not_selected :
  in_range (strftime_Ym (first_of_month 999 1))
    (strftime_Ym (first_of_month 999 12))
    (mkAirRow 999 (PyStr.zfill 2 (PyStr.str_int 5)) "pm25") = false.
Proof. reflexivity. Qed.

(* ================================================================== *)
(** ** The incremental date range                                      *)
(* ================================================================== *)

Lemma add_months_back3 (dt : datetime) :
  1 <= month dt <= 12 -> MINYEAR <= year dt <= MAXYEAR ->
  15 <= month_index dt ->
  exists dt', add_months dt (-3) = Some dt' /\ 1 <= month dt' <= 12
              /\ month_index dt' = month_index dt - 3.
Proof.
  destruct dt as [y m d h mi s u].
  unfold month_index, add_months, MINYEAR, MAXYEAR.
  cbn [year month day hour minute second microsecond].
  intros Hm Hy Hi.
  destruct (Z.gtb_spec (m + -3) 12); [lia|].
  destruct (Z.ltb_spec (m + -3) 1).
  - replace ((1 <=? y - 1) && (y - 1 <=? 9999)) with true
      by (symmetry; apply andb_true_iff; split; apply Z.leb_le; lia).
    eexists; split; [reflexivity|]. cbn [year month]. lia.
  - replace ((1 <=? y) && (y <=? 9999)) with true
      by (symmetry; apply andb_true_iff; split; apply Z.leb_le; lia).
    eexists; split; [reflexivity|]. cbn [year month]. lia.
Qed.

(** The texts of four-digit years read back as the month they render. *)
Lemma strptime_year_month (y m : Z) :
  1000 <= y <= 9999 -> 1 <= m <= 12 ->
  strptime (year_month y m) = Ok (first_of_month y m).
Proof.
  intros Hy Hm. unfold strptime, strptime_Ym, year_month, four_digits,
    two_digits. cbn [String.append].
  assert (D : forall n, 0 <= n mod 10 <= 9)
    by (intros n; pose proof (Z.mod_pos_bound n 10); lia).
  assert (0 <= y / 1000 <= 9) by (Z.div_mod_to_equations; lia).
  assert (0 <= m / 10 <= 9) by (Z.div_mod_to_equations; lia).
  rewrite !is_digit_char, !digit_val_char by (try apply D; assumption).
  change (Ascii.eqb "-" "-") with true. cbn [andb].
  replace (1000 * (y / 1000) + 100 * (y / 100 mod 10)
           + 10 * (y / 10 mod 10) + y mod 10) with y
    by (Z.div_mod_to_equations; lia).
  replace (10 * (m / 10) + m mod 10) with m
    by (Z.div_mod_to_equations; lia).
  replace ((1 <=? m) && (m <=? 12)) with true
    by (symmetry; apply andb_true_iff; split; apply Z.leb_le; lia).
  destruct (Z.eqb_spec y 0); [lia|reflexivity].
Qed.

(** C6 -- the read of the ledger never raises; when the engine refuses
    it, a warning is logged and the answer is [None], as when there is no
    prior run.  With a prior [end_month] (before 9999-12) the incremental
    range starts one month after it; with none it starts three months
    before the current month; in both cases it ends at the current month. *)
Theorem C6_incremental_range (env : Env) (w : World) :
  (exists o w', get_last_extraction_date env w = (Ok o, w') /\ db w' = db w)
  /\ (forall ex,
        fault env (db w) SelectLastExtraction = Some ex ->
        exists w',
          get_last_extraction_date env w = (Ok None, w')
          /\ In (WARNING,
                 ("Could not retrieve last extraction date: "
                    ++ exn_msg ex)%string) (logs w'))
  /\ (forall s last_dt,
        fst (get_last_extraction_date env w) = Ok (Some s) ->
        strptime s = Ok last_dt ->
        month_index last_dt < last_month_index ->
        exists start_dt w',
          determine_date_range env true w
          = (Ok (strftime_Ym start_dt, strftime_Ym (now env)), w')
          /\ is_month_start start_dt
          /\ month_index start_dt = month_index last_dt + 1)
  /\ (fst (get_last_extraction_date env w) = Ok None ->
      1 <= month (now env) <= 12 ->
      MINYEAR <= year (now env) <= MAXYEAR ->
      15 <= month_index (now env) ->
      exists start_dt w',
        determine_date_range env true w
        = (Ok (strftime_Ym start_dt, strftime_Ym (now env)), w')
        /\ 1 <= month start_dt <= 12
        /\ month_index start_dt = month_index (now env) - 3).
Proof.
  split; [|split; [|split]].
  - destruct (get_last_extraction_date_total env w) as (o & w' & E).
    exists o, w'. split; [exact E|].
    eapply get_last_extraction_date_keeps_db; eauto.
  - intros ex Hf.
    unfold get_last_extraction_date, try_except, bind, submit.
    rewrite Hf. eexists. split; [reflexivity|].
    cbn [logs record_event]. apply in_or_app. right. now left.
  - intros s last_dt Hg Hp Hlt.
    unfold determine_date_range. unfold bind at 1.
    destruct (get_last_extraction_date env w) as [o w1].
    cbn [fst] in Hg. subst o. cbv zeta.
    rewrite (strptime_truthy _ _ Hp).
    unfold bind, lift_result. rewrite Hp. unfold plus_months.
    destruct (add_months_succ last_dt (strptime_month_start _ _ Hp) Hlt)
      as (start_dt & -> & Hv & Hi).
    exists start_dt. eexists. split; [reflexivity|]. auto.
  - intros Hg Hm Hy Hi.
    unfold determine_date_range. unfold bind at 1.
    destruct (get_last_extraction_date env w) as [o w1].
    cbn [fst] in Hg. subst o. cbv zeta.
    unfold bind, lift_result, plus_months.
    destruct (add_months_back3 (now env) Hm Hy Hi)
      as (start_dt & -> & Hv & Hs).
    exists start_dt. eexists. split; [reflexivity|]. auto.
Qed.

Lemma C6_witness :
  fst (determine_date_range (env_with no_fault (Some (Some "2026-08"%string)))
         true fresh_world)
  = Ok ("2026-09", "2026-11")%string
  /\ fst (determine_date_range (env_with refuse_select None) true fresh_world)
     = Ok ("2026-08", "2026-11")%string.
Proof.
  destruct (C6_incremental_range
              (env_with no_fault (Some (Some "2026-08"%string))) fresh_world)
    as (_ & _ & H3 & _).
  destruct (H3 "2026-08"%string (first_of_month 2026 8) eq_refl eq_refl
              ltac:(vm_compute; reflexivity))
    as (start_dt & w' & E & Hv & Hi).
  destruct (C6_incremental_range (env_with refuse_select None) fresh_world)
    as (_ & H2 & _ & H4).
  destruct (H4 eq_refl ltac:(vm_compute; split; discriminate)
              ltac:(vm_compute; split; discriminate)
              ltac:(vm_compute; discriminate))
    as (start_dt' & w'' & E' & Hv' & Hi').
  split; reflexivity.
Defined.

(* ================================================================== *)
(** ** The "already up to date" check                                  *)
(* ================================================================== *)

(** [last_end_dt >= current_month] compares midnight of the first of the
    last month with the first of the current month at the current time of
    day: it holds for a later month, and for the current month only at
    midnight sharp. *)
Lemma short_circuit_condition (last_dt t : datetime) :
  is_month_start last_dt ->
  1 <= month t <= 12 ->
  0 <= hour t -> 0 <= minute t -> 0 <= second t -> 0 <= microsecond t ->
  dt_geb last_dt (replace_day1 t) = true
  <-> month_index t < month_index last_dt
      \/ (month_index t = month_index last_dt
          /\ hour t = 0 /\ minute t = 0 /\ second t = 0
          /\ microsecond t = 0).
Proof.
  destruct last_dt as [y m d h mi s u], t as [y' m' d' h' mi' s' u'].
  unfold is_month_start, dt_geb, dt_leb, dt_compare, replace_day1,
    month_index, MINYEAR, MAXYEAR.
  cbn [year month day hour minute second microsecond].
  intros (Hy & Hm & -> & -> & -> & -> & ->) Hm' Hh Hmi Hs Hu.
  rewrite Z.compare_refl. cbv iota.
  repeat match goal with
         | |- context [?a ?= ?b] =>
             destruct (Z.compare_spec a b); cbv iota
         end;
    (split; intros HH;
     [try discriminate HH; lia|try reflexivity; exfalso; lia]).
Qed.

Lemma get_last_extraction_date_some (env : Env) (w : World) (s : string) :
  fault env (db w) SelectLastExtraction = None ->
  last_successful_extraction env (db w) = Some (Some s) ->
  PyStr.truthy s = true ->
  get_last_extraction_date env w
  = (Ok (Some s), record_event (Executed SelectLastExtraction) w).
Proof.
  intros Hf Hv Ht.
  unfold get_last_extraction_date, try_except, bind, submit, get_db.
  rewrite Hf. cbn [db record_event]. rewrite Hv, Ht. reflexivity.
Qed.

(** X11 -- when the last extracted month is after the current month, the
    incremental run is a no-op: the ledger is read twice, the connection
    closed twice, nothing else happens and the run returns normally. *)
Lemma incremental_noop_when_ahead (env : Env) (args : Args) (w : World)
  (s : string) (last_dt : datetime) (locs : list string) :
  incremental args = true ->
  read_json_keys env (locations_file_path args) = Ok locs ->
  fault env (db w) SelectLastExtraction = None ->
  last_successful_extraction env (db w) = Some (Some s) ->
  strptime s = Ok last_dt ->
  month_index (now env) < month_index last_dt < last_month_index ->
  1 <= month (now env) <= 12 ->
  0 <= hour (now env) -> 0 <= minute (now env) ->
  0 <= second (now env) -> 0 <= microsecond (now env) ->
  exists w',
    extract_data env args w = (Ok tt, w')
    /\ run_events w w'
       = [Executed SelectLastExtraction; Executed SelectLastExtraction;
          Closed; Closed]
    /\ db w' = db w.
Proof.
  intros Hi Hl Hf Hv Hp [Hlt Hmax] Hm Hh Hmi Hs Hu.
  pose proof (strptime_truthy _ _ Hp) as Ht.
  pose proof (strptime_month_start _ _ Hp) as Hstart.
  destruct (add_months_succ last_dt Hstart Hmax) as (start_dt & Ea & _ & _).
  assert (Hgeb : dt_geb last_dt (replace_day1 (now env)) = true)
    by (apply short_circuit_condition; auto).
  unfold extract_data, read_location_ids, lift_result. unfold bind at 1.
  rewrite Hl. unfold try_finally, open_job, resolve_range. rewrite Hi.
  unfold determine_date_range. unfold bind at 1. unfold bind at 1.
  rewrite (get_last_extraction_date_some _ _ _ Hf Hv Ht).
  cbv zeta. rewrite Ht.
  unfold bind at 1. unfold bind at 1. unfold lift_result at 1. rewrite Hp.
  unfold bind at 1. unfold lift_result at 1. unfold plus_months. rewrite Ea.
  unfold ret at 1. unfold bind at 1. unfold logging at 1.
  unfold ret at 1. unfold bind at 1.
  unfold already_up_to_date. rewrite Hi. unfold bind at 1.
  rewrite (get_last_extraction_date_some _ _ s) by assumption.
  rewrite Ht.
  unfold bind at 1. unfold lift_result at 1. rewrite Hp. rewrite Hgeb.
  unfold bind, logging, ret.
  eexists. split; [reflexivity|]. split; [|reflexivity].
  apply run_events_app. cbn [events close_database_connection record_event].
  rewrite <- !app_assoc. reflexivity.
Qed.

(** C5, at the input on which it fails -- with 2026-11 as last extracted
    month and a clock at 2026-11-03 14:38, [current_month] keeps the time of
    day, the comparison [last_end_dt >= current_month] is false, and the
    incremental run opens a job for 2026-12..2026-11 and completes it. *)
Theorem C5_equal_month_opens_job :
  let env := env_with no_fault (Some (Some "2026-11"%string)) in
  let run := extract_data env incremental_args fresh_world in
  dt_geb (first_of_month 2026 11) (replace_day1 (now env)) = false
  /\ fst run = Ok tt
  /\ run_events fresh_world (snd run)
     = [Executed SelectLastExtraction; Executed SelectLastExtraction;
        Executed (InsertExtractionLog "2026-12" "2026-11");
        Executed (CountRange "2026-12" "2026-11");
        Executed (UpdateCompleted 1 0); Closed]
  /\ map status (extraction_log (db (snd run))) = [completed].
Proof. vm_compute. repeat split; reflexivity. Qed.

Example incremental_noop_one_month_ahead :
  exists w',
    extract_data (env_with no_fault (Some (Some "2026-12"%string)))
      incremental_args fresh_world = (Ok tt, w')
    /\ run_events fresh_world w'
       = [Executed SelectLastExtraction; Executed SelectLastExtraction;
          Closed; Closed]
    /\ db w' = db fresh_world.
Proof.
  apply (incremental_noop_when_ahead _ _ _ "2026-12"%string
           (first_of_month 2026 12) ["A"; "B"]%string);
    try reflexivity; vm_compute; repeat split; try reflexivity;
    discriminate.
Defined.

(* ================================================================== *)
(** ** The load loop                                                   *)
(* ================================================================== *)

Lemma extract_partitions_app (env : Env) (base tmpl : string)
  (pre post : list string) :
  forall (n : Z) (w : World),
    extract_partitions env base tmpl (pre ++ post) n w
    = match extract_partitions env base tmpl pre n w with
      | (Ok n1, w1) => extract_partitions env base tmpl post n1 w1
      | (Raise e, w1) => (Raise e, w1)
      end.
Proof.
  induction pre as [|p pre IH]; intros n w; [reflexivity|].
  cbn [app].
  destruct (compile_data_file_query env base p tmpl) as [q|e] eqn:Hq.
  - rewrite !(extract_partitions_step _ _ _ _ _ _ _ _ Hq). cbv zeta.
    match goal with
    | |- context [execute_query env ?s ?w0] =>
        destruct (execute_query env s w0) as [[[]|e] w1]
    end; [apply IH|].
    destruct (is_IOException e); [apply IH|reflexivity].
  - now rewrite !(extract_partitions_render_error _ _ _ _ _ _ _ _ Hq).
Qed.

(** A load refused with anything but an [IOException] ends the loop. *)
Lemma extract_partitions_hard_error (env : Env) (base tmpl p q : string)
  (rest : list string) (n : Z) (w : World) (ex : exn) :
  compile_data_file_query env base p tmpl = Ok q ->
  fault env (db w) (LoadQuery q) = Some ex ->
  is_IOException ex = false ->
  exists w',
    extract_partitions env base tmpl (p :: rest) n w = (Raise ex, w')
    /\ events w' = events w ++ [Refused (LoadQuery q) ex]
    /\ db w' = db w.
Proof.
  intros Hq Hf Hio.
  rewrite (extract_partitions_step _ _ _ _ _ _ _ _ Hq). cbv zeta.
  rewrite (execute_query_refused env (LoadQuery q) _ ex) by exact Hf.
  rewrite Hio.
  eexists. split; [reflexivity|]. split; reflexivity.
Qed.

(** When the loop ends normally, every path was loaded, in order. *)
Lemma extract_partitions_ok_events (env : Env) (base tmpl : string)
  (paths : list string) :
  forall (n : Z) (w : World) (c : Z) (w' : World),
    extract_partitions env base tmpl paths n w = (Ok c, w') ->
    exists evs, events w' = events w ++ evs
                /\ Forall2 (loads_path env base tmpl) evs paths.
Proof.
  induction paths as [|p rest IH]; intros n w c w' H.
  - injection H as _ <-. exists []. split; [now rewrite app_nil_r|constructor].
  - destruct (compile_data_file_query env base p tmpl) as [q|e] eqn:Hq.
    2:{ rewrite (extract_partitions_render_error _ _ _ _ _ _ _ _ Hq) in H.
        discriminate. }
    rewrite (extract_partitions_step _ _ _ _ _ _ _ _ Hq) in H. cbv zeta in H.
    match type of H with
    | context [execute_query env ?s ?w0] =>
        destruct (fault env (db w0) s) as [ex|] eqn:Ef;
        [rewrite (execute_query_refused _ _ _ _ Ef) in H
        |destruct (execute_query_executed _ _ _ Ef) as (w1 & E & Ev & _);
         rewrite E in H]
    end.
    + destruct (is_IOException ex); [|discriminate].
      apply IH in H as (evs & Ee & F2). cbn [events record_event] in Ee.
      exists (Refused (LoadQuery q) ex :: evs). split.
      * now rewrite Ee, <- app_assoc.
      * constructor; [|assumption]. exists q. auto.
    + apply IH in H as (evs & Ee & F2). cbn [events] in Ee, Ev.
      exists (Executed (LoadQuery q) :: evs). split.
      * now rewrite Ee, Ev, <- app_assoc.
      * constructor; [|assumption]. exists q. auto.
Qed.

Lemma loads_of_loads (env : Env) (base tmpl : string) (evs : list event)
  (paths : list string) :
  Forall2 (loads_path env base tmpl) evs paths -> loads_of evs = evs.
Proof.
  induction 1 as [|ev p evs paths (q & _ & Hs) _ IH]; [reflexivity|].
  unfold loads_of in *. cbn [filter]. unfold event_is at 1. rewrite Hs.
  cbn. now f_equal.
Qed.

Lemma loads_of_app (a b : list event) :
  loads_of (a ++ b) = loads_of a ++ loads_of b.
Proof. apply filter_app. Qed.

Lemma no_loads (p : stmt -> bool) (evs : list event) :
  (forall s, p s = true -> is_load s = false) ->
  Forall (allowed p) evs -> loads_of evs = [].
Proof. apply allowed_filter_nil. Qed.

Lemma guard_emits (env : Env) (args : Args) (s e : string) :
  emits is_delete (guard env args s e).
Proof.
  pose proof (delete_existing_data_emits env s e). unfold guard. runs.
Qed.

Lemma guard_keeps_ledger (env : Env) (args : Args) (s e : string) :
  keeps_ledger (guard env args s e).
Proof.
  pose proof (delete_existing_data_keeps_ledger env s e).
  unfold guard. runs.
Qed.

(** What a successful [open_job] leaves: no load was submitted, and the
    ledger holds the new row under the next identifier of the sequence. *)
Lemma open_job_opened (env : Env) (args : Args) (w w1 : World)
  (s e : string) (id : Z) :
  open_job env args w = (Ok (Some (s, e, id)), w1) ->
  id = next_extraction_id (db w)
  /\ extraction_log (db w1) = extraction_log (db w) ++ [new_job env id s e]
  /\ exists evs, events w1 = events w ++ evs /\ loads_of evs = [].
Proof.
  intros Ho. apply open_job_cases in Ho
    as [(_ & _ & [[=]|(? & [=])])
       |[(? & ? & ? & ? & _ & _ & _ & _ & [=])
        |(w0 & s' & e' & ((evq & Eq & Fq) & _) & _ & _ & E1 & D1
          & [= <- <- ->])]].
  split; [reflexivity|]. split; [now rewrite D1|].
  exists (evq ++ [Executed (InsertExtractionLog s e)]). split.
  - now rewrite E1, Eq, app_assoc.
  - rewrite loads_of_app, (select_no_loads _ Fq). reflexivity.
Qed.

(* ================================================================== *)
(** ** A load that fails for good                                      *)
(* ================================================================== *)

(** C3 -- when, with the job open, the load of a locator is refused with
    an exception that is not an [IOException], no later locator is loaded,
    [log_extraction_failed] is called with the message of the exception,
    and, the ledger accepting that UPDATE, the job is left [failed] with the
    message and the same exception reaches the caller. *)
Theorem C3_fail_fast (env : Env) (args : Args) (w w1 w2 w3 : World)
  (locs pre post : list string) (s e tmpl p q : string) (id n : Z)
  (ex : exn) :
  ledger_wf (db w) ->
  read_json_keys env (locations_file_path args) = Ok locs ->
  open_job env args w = (Ok (Some (s, e, id)), w1) ->
  compile_data_file_paths locs s e = Ok (pre ++ p :: post) ->
  read_query env (extract_query_template_path args) = Ok tmpl ->
  guard env args s e w1 = (Ok tt, w2) ->
  extract_partitions env (source_base_path args) tmpl pre 0 w2 = (Ok n, w3) ->
  compile_data_file_query env (source_base_path args) p tmpl = Ok q ->
  fault env (db w3) (LoadQuery q) = Some ex ->
  is_IOException ex = false ->
  fault env (db w3) (UpdateFailed id (exn_msg ex)) = None ->
  exists w',
    extract_data env args w = (Raise ex, w')
    /\ run_events w3 w'
       = [Refused (LoadQuery q) ex;
          Executed (UpdateFailed id (exn_msg ex)); Closed]
    /\ List.length (loads_of (run_events w w')) = S (List.length pre)
    /\ jobs_with_id id (db w')
       = [mkJob id (now env) (Some (now env)) s e failed None
            (Some (exn_msg ex))].
Proof.
  intros Hwf Hl Ho Hp Ht Hg Hpre Hq Hf Hio Hfail.
  destruct (open_job_opened _ _ _ _ _ _ _ Ho) as (Hid & L1 & ev1 & E1 & N1).
  destruct (guard_emits env args s e _ _ _ Hg) as (ev2 & E2 & F2).
  destruct (guard_keeps_ledger env args s e _ _ _ Hg) as [L2 _].
  destruct (extract_partitions_ok_events _ _ _ _ _ _ _ _ Hpre)
    as (ev3 & E3 & F3).
  destruct (extract_partitions_keeps_ledger _ _ _ _ _ _ _ _ Hpre) as [L3 _].
  destruct (extract_partitions_hard_error env _ tmpl p q post n w3 ex
              Hq Hf Hio) as (w4 & E4 & V4 & D4).
  rewrite (extract_data_opened _ _ _ _ _ _ _ _ Hl Ho).
  unfold try_except.
  rewrite (run_job_unfold _ _ _ _ _ _ _ _ _ Hp Ht).
  unfold bind at 1. rewrite Hg. unfold bind at 1.
  rewrite extract_partitions_app, Hpre, E4.
  destruct (on_exception env (Some id) ex w4) as [r5 w5] eqn:E5.
  apply on_exception_some_cases in E5
    as [(ex' & F & _)|(_ & -> & D5 & V5)];
    [rewrite D4 in F; congruence|].
  eexists. split; [reflexivity|].
  split; [|split].
  - apply run_events_app.
    cbn [close_database_connection record_event events].
    rewrite V5, V4, <- !app_assoc. reflexivity.
  - erewrite run_events_app
      with (evs := ev1 ++ ev2 ++ ev3
                     ++ [Refused (LoadQuery q) ex;
                         Executed (UpdateFailed id (exn_msg ex)); Closed]).
    + rewrite !loads_of_app, N1,
        (no_loads _ _ (fun st => match st with
                                  | DeleteMonth _ _ => fun _ => eq_refl
                                  | _ => fun H => False_ind _
                                                   (Bool.diff_false_true H)
                                  end) F2),
        (loads_of_loads _ _ _ _ _ F3).
      cbn. rewrite length_app. cbn.
      rewrite (Forall2_length F3). lia.
    + cbn [close_database_connection record_event events].
      rewrite V5, V4, E3, E2, E1, <- !app_assoc. reflexivity.
  - eapply jobs_with_id_failed; [exact Hwf|exact Hid|].
    cbn [close_database_connection record_event db].
    rewrite D5. cbn [update_jobs extraction_log].
    rewrite D4, L3, L2, L1. reflexivity.
Qed.

Lemma C3_witness :
  exists w',
    extract_data (env_with (refuse_load_B OtherException) None)
      (manual_args "2024-01" "2024-02") fresh_world
    = (Raise (mkExn OtherException "no files found"), w')
    /\ jobs_with_id 1 (db w')
       = [mkJob 1 an_afternoon (Some an_afternoon) "2024-01" "2024-02"
            failed None (Some "no files found"%string)].
Proof.
  pose (env := env_with (refuse_load_B OtherException) None).
  pose (args := manual_args "2024-01" "2024-02").
  pose (w1 := snd (open_job env args fresh_world)).
  pose (w2 := snd (guard env args "2024-01" "2024-02" w1)).
  pose (pre := ["locationid=A/year=2024/month=01/*";
                "locationid=A/year=2024/month=02/*"]%string).
  pose (w3 := snd (extract_partitions env "s3://bucket"
                     "COPY {{data_file_path}}" pre 0 w2)).
  destruct (C3_fail_fast env args fresh_world w1 w2 w3 ["A"; "B"]%string
              pre ["locationid=B/year=2024/month=02/*"%string]
              "2024-01" "2024-02" "COPY {{data_file_path}}"
              "locationid=B/year=2024/month=01/*"
              "COPY s3://bucket/locationid=B/year=2024/month=01/*"
              1 2 (mkExn OtherException "no files found"))
    as (w' & H1 & _ & _ & H4);
    try (vm_compute; reflexivity).
  - constructor.
  - exists w'. split; [exact H1|exact H4].
Defined.

(* ================================================================== *)
(** ** Partitions that do not exist                                    *)
(* ================================================================== *)

(** When every refused load is refused with an [IOException], the loop
    goes through all the paths and ends normally; each refusal leaves its
    warning in the log. *)
Lemma extract_partitions_tolerant (env : Env) (base tmpl : string)
  (paths : list string) :
  (forall p, In p paths ->
             exists q, compile_data_file_query env base p tmpl = Ok q) ->
  (forall d q ex, fault env d (LoadQuery q) = Some ex ->
                  is_IOException ex = true) ->
  forall (n : Z) (w : World),
    exists c w',
      extract_partitions env base tmpl paths n w = (Ok c, w')
      /\ (forall x, In x (logs w) -> In x (logs w'))
      /\ forall q ex,
          In (Refused (LoadQuery q) ex) (run_events w w') ->
          exists p, In p paths
                    /\ compile_data_file_query env base p tmpl = Ok q
                    /\ In (not_found_warning p ex) (logs w').
Proof.
  intros Hr Hio. induction paths as [|p rest IH]; intros n w.
  - exists n, w. split; [reflexivity|]. split; [auto|].
    intros q ex Hin. unfold run_events in Hin. rewrite skipn_all in Hin.
    contradiction.
  - destruct (Hr p (or_introl eq_refl)) as (q & Hq).
    assert (Hr' : forall p', In p' rest ->
                    exists q', compile_data_file_query env base p' tmpl
                               = Ok q')
      by (intros; apply Hr; now right).
    specialize (IH Hr').
    rewrite (extract_partitions_step _ _ _ _ _ _ _ _ Hq). cbv zeta.
    match goal with
    | |- context [execute_query env ?s ?w0] =>
        destruct (fault env (db w0) s) as [ex|] eqn:Ef;
        [rewrite (execute_query_refused _ _ _ _ Ef);
         rewrite (Hio _ _ _ Ef)
        |destruct (execute_query_executed _ _ _ Ef) as (w1 & E & Ev & El);
         rewrite E]
    end.
    + match goal with
      | |- context [extract_partitions env base tmpl rest n ?wm] =>
          destruct (IH n wm) as (c & w' & E & Hlogs & Hw);
          pose proof (extract_partitions_emits _ _ _ _ _ _ _ _ E)
            as (evs & Ee & _);
          pose proof (run_events_app _ _ _ Ee) as Hre
      end.
      cbn [events record_event logs] in *.
      exists c, w'. split; [exact E|]. split.
      * intros x Hx. apply Hlogs. apply in_or_app. left.
        apply in_or_app. now left.
      * intros q' ex' Hin.
        rewrite <- app_assoc in Ee.
        rewrite (run_events_app _ _ _ Ee) in Hin.
        destruct Hin as [[= <- <-]|Hin].
        -- exists p. split; [now left|]. split; [exact Hq|].
           apply Hlogs. apply in_or_app. right. now left.
        -- rewrite <- Hre in Hin.
           destruct (Hw _ _ Hin) as (p' & Hp' & Hq' & Hl').
           exists p'. split; [now right|]. auto.
    + match goal with
      | |- context [extract_partitions env base tmpl rest (n + 1) ?wm] =>
          destruct (IH (n + 1) wm) as (c & w' & E' & Hlogs & Hw);
          pose proof (extract_partitions_emits _ _ _ _ _ _ _ _ E')
            as (evs & Ee & _);
          pose proof (run_events_app _ _ _ Ee) as Hre
      end.
      cbn [events logs] in *.
      exists c, w'. split; [exact E'|]. split.
      * intros x Hx. apply Hlogs. apply in_or_app. left. rewrite El.
        apply in_or_app. now left.
      * intros q' ex' Hin.
        rewrite Ev, <- app_assoc in Ee.
        rewrite (run_events_app _ _ _ Ee) in Hin.
        destruct Hin as [[=]|Hin].
        rewrite <- Hre in Hin.
        destruct (Hw _ _ Hin) as (p' & Hp' & Hq' & Hl').
        exists p'. split; [now right|]. auto.
Qed.

(** The count and the completion, when the engine refuses neither. *)
Lemma count_and_complete (env : Env) (s e : string) (id : Z) (w : World) :
  fault env (db w) (CountRange s e) = None ->
  fault env (db w)
    (UpdateCompleted id (count_range s e (air_quality (db w)))) = None ->
  exists w',
    (records <- count_records env s e ;;
     log_extraction_complete env id records) w = (Ok tt, w')
    /\ events w'
       = events w
           ++ [Executed (CountRange s e);
               Executed (UpdateCompleted id
                           (count_range s e (air_quality (db w))))]
    /\ db w'
       = update_jobs
           (set_completed (now env) id
              (count_range s e (air_quality (db w)))) (db w)
    /\ (forall x, In x (logs w) -> In x (logs w')).
Proof.
  intros Hc Hu.
  unfold count_records, log_extraction_complete, bind, submit, get_db,
    put_db, logging, ret.
  rewrite Hc. cbn [db record_event]. rewrite Hu.
  eexists. split; [reflexivity|].
  cbn [events db logs record_event]. rewrite <- app_assoc.
  repeat split; auto. intros x Hx. apply in_or_app. now left.
Qed.

(** C4 -- when the loads of a partition sequence either succeed or are
    refused with an [IOException], every locator is loaded in order, each
    refusal is logged as a warning, and (the count and the completion being
    accepted) the job is left [completed] with the count of the range.  No
    other class is caught in the loop: in any surroundings, a load refused
    with an exception of another class ends the loop at once with that
    exception, the paths after it not being loaded. *)
Theorem C4_missing_partitions_tolerated (env : Env) (args : Args)
  (w w1 w2 : World) (locs paths : list string) (s e tmpl : string) (id : Z) :
  ledger_wf (db w) ->
  read_json_keys env (locations_file_path args) = Ok locs ->
  open_job env args w = (Ok (Some (s, e, id)), w1) ->
  compile_data_file_paths locs s e = Ok paths ->
  read_query env (extract_query_template_path args) = Ok tmpl ->
  guard env args s e w1 = (Ok tt, w2) ->
  (forall p, In p paths ->
     exists q,
       compile_data_file_query env (source_base_path args) p tmpl = Ok q) ->
  (forall d, fault env d (CountRange s e) = None) ->
  (forall d n, fault env d (UpdateCompleted id n) = None) ->
  ((forall d q ex, fault env d (LoadQuery q) = Some ex ->
                   is_IOException ex = true) ->
   exists w',
     extract_data env args w = (Ok tt, w')
     /\ Forall2 (loads_path env (source_base_path args) tmpl)
          (loads_of (run_events w w')) paths
     /\ (forall q ex,
           In (Refused (LoadQuery q) ex) (run_events w w') ->
           exists p,
             In p paths
             /\ compile_data_file_query env (source_base_path args) p tmpl
                = Ok q
             /\ In (not_found_warning p ex) (logs w'))
     /\ jobs_with_id id (db w')
        = [mkJob id (now env) (Some (now env)) s e completed
             (Some (count_range s e (air_quality (db w')))) None])
  /\ (forall env0 base tmpl0 p q rest n0 w0 ex,
        compile_data_file_query env0 base p tmpl0 = Ok q ->
        fault env0 (db w0) (LoadQuery q) = Some ex ->
        is_IOException ex = false ->
        exists w0',
          extract_partitions env0 base tmpl0 (p :: rest) n0 w0
          = (Raise ex, w0')
          /\ run_events w0 w0' = [Refused (LoadQuery q) ex]
          /\ db w0' = db w0).
Proof.
  intros Hwf Hl Ho Hp Ht Hg Hr Hc Hu. split.
  2:{ intros env0 base tmpl0 p q rest n0 w0 ex Hq Hf Hx.
      destruct (extract_partitions_hard_error env0 base tmpl0 p q rest n0 w0
                  ex Hq Hf Hx) as (w0' & E & V & D).
      exists w0'. split; [exact E|]. split; [|exact D].
      now apply run_events_app. }
  intros Hio.
  destruct (open_job_opened _ _ _ _ _ _ _ Ho) as (Hid & L1 & ev1 & E1 & N1).
  destruct (guard_emits env args s e _ _ _ Hg) as (ev2 & E2 & F2).
  destruct (guard_keeps_ledger env args s e _ _ _ Hg) as [L2 _].
  destruct (extract_partitions_tolerant env _ tmpl paths Hr Hio 0 w2)
    as (c & w3 & E3 & Hlogs3 & Hw3).
  destruct (extract_partitions_ok_events _ _ _ _ _ _ _ _ E3)
    as (ev3 & V3 & F3).
  destruct (extract_partitions_keeps_ledger _ _ _ _ _ _ _ _ E3) as [L3 _].
  destruct (count_and_complete env s e id w3 (Hc _) (Hu _ _))
    as (w4 & E4 & V4 & D4 & Hlogs4).
  rewrite (extract_data_opened _ _ _ _ _ _ _ _ Hl Ho).
  unfold try_except.
  rewrite (run_job_unfold _ _ _ _ _ _ _ _ _ Hp Ht).
  unfold bind at 1. rewrite Hg. unfold bind at 1. rewrite E3, E4.
  eexists. split; [reflexivity|].
  assert (Ev : events (close_database_connection w4)
               = events w ++ ev1 ++ ev2 ++ ev3
                   ++ [Executed (CountRange s e);
                       Executed (UpdateCompleted id
                                   (count_range s e (air_quality (db w3))));
                       Closed]).
  { cbn [close_database_connection record_event events].
    rewrite V4, V3, E2, E1, <- !app_assoc. reflexivity. }
  assert (Hnd : forall st, is_delete st = true -> is_load st = false)
    by (intros []; auto; discriminate).
  rewrite (run_events_app _ _ _ Ev).
  split; [|split].
  - rewrite !loads_of_app, N1, (no_loads _ _ Hnd F2),
      (loads_of_loads _ _ _ _ _ F3).
    cbn. now rewrite app_nil_r.
  - intros q ex Hin.
    apply in_app_or in Hin as [Hin|Hin].
    { exfalso. assert (Hin' : In (Refused (LoadQuery q) ex) (loads_of ev1))
        by (apply filter_In; split; auto).
      now rewrite N1 in Hin'. }
    apply in_app_or in Hin as [Hin|Hin].
    { exfalso. assert (Hin' : In (Refused (LoadQuery q) ex) (loads_of ev2))
        by (apply filter_In; split; auto).
      now rewrite (no_loads _ _ Hnd F2) in Hin'. }
    apply in_app_or in Hin as [Hin|Hin].
    + rewrite <- (run_events_app _ _ _ V3) in Hin.
      destruct (Hw3 _ _ Hin) as (p & Hp' & Hq & Hlog).
      exists p. repeat split; auto.
    + in_cases Hin.
  - cbn [close_database_connection record_event db].
    replace (air_quality (db w4)) with (air_quality (db w3))
      by (rewrite D4; reflexivity).
    eapply jobs_with_id_completed; [exact Hwf|exact Hid|].
    rewrite D4. cbn [update_jobs extraction_log].
    rewrite L3, L2, L1. reflexivity.
Qed.

Lemma C4_witness :
  (exists w',
     extract_data (env_with (refuse_load_B IOException) None)
       (manual_args "2024-01" "2024-02") fresh_world = (Ok tt, w')
     /\ map status (jobs_with_id 1 (db w')) = [completed]
     /\ List.length (loads_of (run_events fresh_world w')) = 4%nat)
  /\ (exists w',
        extract_partitions (env_with (refuse_load_B OtherException) None)
          "s3://bucket" "COPY {{data_file_path}}"
          ["locationid=B/year=2024/month=01/*";
           "locationid=B/year=2024/month=02/*"]%string 0 fresh_world
        = (Raise (mkExn OtherException "no files found"), w')
        /\ run_events fresh_world w'
           = [Refused
                (LoadQuery
                   "COPY s3://bucket/locationid=B/year=2024/month=01/*")
                (mkExn OtherException "no files found")]).
Proof.
  pose (env := env_with (refuse_load_B IOException) None).
  pose (args := manual_args "2024-01" "2024-02").
  pose (w1 := snd (open_job env args fresh_world)).
  pose (w2 := snd (guard env args "2024-01" "2024-02" w1)).
  destruct (C4_missing_partitions_tolerated env args fresh_world w1 w2
              ["A"; "B"]%string
              ["locationid=A/year=2024/month=01/*";
               "locationid=A/year=2024/month=02/*";
               "locationid=B/year=2024/month=01/*";
               "locationid=B/year=2024/month=02/*"]%string
              "2024-01" "2024-02" "COPY {{data_file_path}}" 1)
    as (Hsoft & Hhard);
    try (vm_compute; reflexivity).
  - constructor.
  - intros p _. eexists. reflexivity.
  - split.
    + destruct Hsoft as (w' & H1 & H2 & _ & H4).
      { intros d q ex. unfold env, env_with, refuse_load_B. cbn [fault].
        destruct (String.eqb q _); [|discriminate]. now intros [= <-]. }
      exists w'. split; [exact H1|]. split.
      * now rewrite H4.
      * apply Forall2_length in H2. exact H2.
    + destruct (Hhard (env_with (refuse_load_B OtherException) None)
                  "s3://bucket"%string "COPY {{data_file_path}}"%string
                  "locationid=B/year=2024/month=01/*"%string
                  "COPY s3://bucket/locationid=B/year=2024/month=01/*"%string
                  ["locationid=B/year=2024/month=02/*"%string] 0 fresh_world
                  (mkExn OtherException "no files found")
                  eq_refl eq_refl eq_refl) as (w' & E & V & _).
      exists w'. split; [exact E|exact V].
Defined.

(* ================================================================== *)
(** ** Further properties: texts of months and the count               *)
(* ================================================================== *)

Lemma string_compare_trans_le (a : string) :
  forall b c,
    String.compare a b <> Gt -> String.compare b c <> Gt ->
    String.compare a c <> Gt.
Proof.
  induction a as [|x a IH]; intros [|y b] [|z c]; cbn; try congruence.
  unfold Ascii.compare. intros H1 H2.
  destruct (N.compare_spec (N_of_ascii x) (N_of_ascii y));
    destruct (N.compare_spec (N_of_ascii y) (N_of_ascii z));
    destruct (N.compare_spec (N_of_ascii x) (N_of_ascii z));
    try congruence; try lia; eauto.
Qed.

Lemma string_leb_trans (a b c : string) :
  String.leb a b = true -> String.leb b c = true -> String.leb a c = true.
Proof.
  unfold String.leb. intros H1 H2.
  pose proof (string_compare_trans_le a b c) as H.
  destruct (String.compare a b); try discriminate;
    destruct (String.compare b c); try discriminate;
    destruct (String.compare a c); try reflexivity;
    exfalso; apply H; congruence.
Qed.

(** X1 -- when the lower bound is above the upper bound as strings, the count
    of [extract_data] is 0 whatever the table holds. *)
Theorem count_over_reversed_bounds_is_zero (start_d end_d : string)
  (rows : list AirRow) :
  String.leb start_d end_d = false ->
  count_range start_d end_d rows = 0.
Proof.
  intros H. unfold count_range.
  replace (filter (in_range start_d end_d) rows) with (@nil AirRow);
    [reflexivity|].
  symmetry. induction rows as [|r rows IH]; [reflexivity|].
  cbn [filter]. rewrite <- IH. unfold in_range.
  destruct (String.leb start_d (partition_key r)) eqn:H1; [|reflexivity].
  destruct (String.leb (partition_key r) end_d) eqn:H2; [|reflexivity].
  rewrite (string_leb_trans _ _ _ H1 H2) in H. discriminate.
Qed.

Lemma count_over_reversed_bounds_witness :
  count_range "2024-03" "2024-02"
    [mkAirRow 2024 "02" "pm25"; mkAirRow 2024 "03" "pm10"] = 0.
Proof.
  apply count_over_reversed_bounds_is_zero. reflexivity.
Defined.

Lemma digit_char_nonzero (m : Z) :
  1 <= m <= 9 -> Ascii.eqb (PyStr.digit_char m) "0" = false.
Proof.
  intros H.
  assert (m = 1 \/ m = 2 \/ m = 3 \/ m = 4 \/ m = 5 \/ m = 6 \/ m = 7
          \/ m = 8 \/ m = 9) as Hm by lia.
  repeat (destruct Hm as [->|Hm]; [reflexivity|]). subst. reflexivity.
Qed.

(** X2 -- a bound whose month is written on one digit parses as that month, but
    as a lower bound of the count it leaves out every row of the months 01
    to 09 of its year, its own month included. *)
Theorem one_digit_month_bound_misses_rows (y m m' : Z) :
  1000 <= y <= 9999 -> 1 <= m <= 9 -> 1 <= m' <= 9 ->
  strptime (one_digit_month y m) = Ok (first_of_month y m)
  /\ forall end_d payload,
      in_range (one_digit_month y m) end_d
        (mkAirRow y (PyStr.zfill 2 (PyStr.str_int m')) payload) = false.
Proof.
  intros Hy Hm Hm'.
  assert (D : forall n, 0 <= n mod 10 <= 9)
    by (intros n; pose proof (Z.mod_pos_bound n 10); lia).
  assert (Hk : 0 <= y / 1000 <= 9) by (Z.div_mod_to_equations; lia).
  split.
  - unfold strptime, strptime_Ym, one_digit_month, four_digits.
    cbn [String.append].
    rewrite !is_digit_char, !digit_val_char by (try apply D; lia).
    change (Ascii.eqb "-" "-") with true. cbn [andb].
    rewrite digit_char_nonzero by assumption. cbn [negb].
    replace (1000 * (y / 1000) + 100 * (y / 100 mod 10)
             + 10 * (y / 10 mod 10) + y mod 10) with y
      by (Z.div_mod_to_equations; lia).
    destruct (Z.eqb_spec y 0); [lia|reflexivity].
  - intros end_d payload. unfold in_range.
    rewrite partition_key_year_month by lia.
    replace (String.leb (one_digit_month y m) (year_month y m')) with false;
      [reflexivity|].
    unfold String.leb, one_digit_month, year_month, four_digits, two_digits.
    cbn [String.append].
    rewrite !compare_digit_cons by (try apply D; lia).
    rewrite !Z.compare_refl.
    match goal with
    | |- context [String.compare (String "-" ?s) (String "-" ?t)] =>
        change (String.compare (String "-" s) (String "-" t))
          with (String.compare s t)
    end.
    replace (m' / 10) with 0 by (Z.div_mod_to_equations; lia).
    rewrite compare_digit_cons by lia.
    destruct (Z.compare_spec m 0); solve [lia | reflexivity].
Qed.

Lemma one_digit_month_bound_witness :
  strptime "2024-1" = Ok (first_of_month 2024 1)
  /\ in_range "2024-1" "2024-3" (mkAirRow 2024 "01" "pm25") = false.
Proof.
  destruct (one_digit_month_bound_misses_rows 2024 1 1
              ltac:(lia) ltac:(lia) ltac:(lia)) as [H1 H2].
  split; [exact H1|exact (H2 "2024-3"%string "pm25"%string)].
Defined.

(** X3 -- a month with a four-digit year survives [strftime] followed by
    [strptime], which keeps the year and the month and nothing else; on what
    [strptime] accepts, formatting and parsing again changes nothing. *)
Theorem strftime_strptime_round_trip (dt : datetime) :
  1000 <= year dt <= 9999 -> 1 <= month dt <= 12 ->
  strptime (strftime_Ym dt) = Ok (first_of_month (year dt) (month dt))
  /\ (forall s, strptime s = Ok dt -> strptime (strftime_Ym dt) = Ok dt).
Proof.
  intros Hy Hm.
  assert (E : strftime_Ym dt = year_month (year dt) (month dt)).
  { unfold strftime_Ym, year_month.
    now rewrite zfill_4_year, zfill_2_month. }
  rewrite E. split; [now apply strptime_year_month|].
  intros s Hs. rewrite strptime_year_month by assumption.
  apply strptime_month_start in Hs.
  destruct dt as [y0 m0 d0 h0 mi0 s0 u0].
  destruct Hs as (_ & _ & Hd & Hh & Hmi & Hsec & Hu). cbn in *. subst.
  reflexivity.
Qed.

Lemma strftime_strptime_round_trip_witness :
  strptime (strftime_Ym an_afternoon) = Ok (first_of_month 2026 11).
Proof.
  exact (proj1 (strftime_strptime_round_trip an_afternoon
                  ltac:(vm_compute; split; discriminate)
                  ltac:(vm_compute; split; discriminate))).
Defined.

(* ================================================================== *)
(** ** Further properties: sizes                                       *)
(* ================================================================== *)

Lemma partition_sequence_length (locs : list string) (s e : datetime) :
  List.length (partition_sequence locs s e)
  = (List.length locs * List.length (months_inclusive s e))%nat.
Proof.
  unfold partition_sequence, PartitionLocator.
  induction locs as [|loc rest IH]; [reflexivity|].
  cbn [flat_map]. rewrite length_app, IH, length_map. cbn [List.length]. lia.
Qed.

(** X4 -- the compiler returns one path per location and month of the range:
    none for an empty location list or for a range whose end is before its
    start. *)
Theorem compile_data_file_paths_size (location_ids : list string)
  (start_d end_d : string) (start_dt end_dt : datetime) :
  strptime start_d = Ok start_dt ->
  strptime end_d = Ok end_dt ->
  (location_ids = [] ->
   compile_data_file_paths location_ids start_d end_d = Ok [])
  /\ (month_index end_dt < month_index start_dt ->
      compile_data_file_paths location_ids start_d end_d = Ok [])
  /\ (month_index end_dt < last_month_index ->
      exists paths,
        compile_data_file_paths location_ids start_d end_d = Ok paths
        /\ List.length paths
           = (List.length location_ids
              * Z.to_nat (month_index end_dt - month_index start_dt + 1))%nat).
Proof.
  intros Hs He.
  pose proof (strptime_month_start _ _ Hs) as Hsm.
  pose proof (strptime_month_start _ _ He) as Hem.
  unfold compile_data_file_paths. rewrite Hs, He.
  rewrite compile_locations_spec by assumption.
  split; [|split].
  - now intros ->.
  - intros Hlt.
    replace (month_index start_dt <=? month_index end_dt) with false
      by (symmetry; apply Z.leb_gt; lia).
    cbn [andb]. destruct location_ids; [reflexivity|]. f_equal.
    cbn [app].
    assert (Hl : List.length
                   (map locator_path
                      (partition_sequence (s :: location_ids)
                         start_dt end_dt)) = O).
    { rewrite length_map, partition_sequence_length.
      unfold months_inclusive. rewrite months_from_length. lia. }
    now apply length_zero_iff_nil in Hl.
  - intros Hlt.
    replace (month_index end_dt =? last_month_index) with false
      by (symmetry; apply Z.eqb_neq; lia).
    rewrite andb_false_r.
    exists (map locator_path
              (partition_sequence location_ids start_dt end_dt)).
    split; [now destruct location_ids|].
    rewrite length_map, partition_sequence_length.
    unfold months_inclusive. now rewrite months_from_length.
Qed.

Lemma compile_data_file_paths_size_witness :
  exists paths,
    compile_data_file_paths ["A"; "B"; "C"]%string "2023-11" "2024-02"
    = Ok paths
    /\ List.length paths = 12%nat.
Proof.
  destruct (compile_data_file_paths_size ["A"; "B"; "C"]%string
              "2023-11" "2024-02"
              (first_of_month 2023 11) (first_of_month 2024 2)
              eq_refl eq_refl) as (_ & _ & H).
  destruct (H ltac:(vm_compute; reflexivity)) as (paths & E & L).
  exists paths. split; [exact E|exact L].
Defined.

Lemma load_events_split (env : Env) (base tmpl : string)
  (evs : list event) (paths : list string) :
  Forall2 (loads_path env base tmpl) evs paths ->
  (List.length (filter executed_load evs)
   + List.length (filter refused_load evs))%nat = List.length paths.
Proof.
  induction 1 as [|ev p evs paths (q & _ & Hs) _ IH]; [reflexivity|].
  cbn [filter List.length].
  destruct ev as [st|st ex|]; cbn in Hs; try discriminate;
    injection Hs as ->; cbn [executed_load refused_load List.length]; lia.
Qed.

(** X5 -- when the load loop ends, [successful_extractions] has grown by the
    number of loads carried out; together with the loads refused as not
    found they account for every path, so the counter never exceeds the
    number of paths and reaches it only when nothing was refused. *)
Theorem successful_extractions_counts_loads (env : Env)
  (base tmpl : string) (paths : list string) (n c : Z) (w w' : World) :
  extract_partitions env base tmpl paths n w = (Ok c, w') ->
  let evs := run_events w w' in
  c = n + Z.of_nat (List.length (filter executed_load evs))
  /\ (List.length (filter executed_load evs)
      + List.length (filter refused_load evs))%nat = List.length paths
  /\ n <= c <= n + Z.of_nat (List.length paths)
  /\ (c = n + Z.of_nat (List.length paths) <-> filter refused_load evs = []).
Proof.
  intros H evs.
  pose proof (extract_partitions_counter _ _ _ _ _ _ _ _ H) as Hc.
  destruct (extract_partitions_ok_events _ _ _ _ _ _ _ _ H)
    as (evs' & E & F).
  pose proof (run_events_app _ _ _ E) as Hr. fold evs in Hc, Hr.
  rewrite <- Hr in F. pose proof (load_events_split _ _ _ _ _ F) as Hsplit.
  split; [exact Hc|]. split; [exact Hsplit|]. split; [lia|].
  split.
  - intros Heq. apply length_zero_iff_nil. lia.
  - intros Hnil. rewrite Hnil in Hsplit. cbn in Hsplit. lia.
Qed.

Lemma successful_extractions_witness :
  1 = 0 + Z.of_nat
            (List.length
               (filter executed_load
                  (run_events fresh_world
                     (snd (extract_partitions
                             (env_with (refuse_load_B IOException) None)
                             "s3://bucket" "COPY {{data_file_path}}"
                             ["locationid=A/year=2024/month=01/*";
                              "locationid=B/year=2024/month=01/*"]%string
                             0 fresh_world)))))
  /\ 0 <= 1 <= 0 + Z.of_nat 2.
Proof.
  destruct (successful_extractions_counts_loads
              (env_with (refuse_load_B IOException) None)
              "s3://bucket" "COPY {{data_file_path}}"
              ["locationid=A/year=2024/month=01/*";
               "locationid=B/year=2024/month=01/*"]%string
              0 1 fresh_world
              (snd (extract_partitions
                      (env_with (refuse_load_B IOException) None)
                      "s3://bucket" "COPY {{data_file_path}}"
                      ["locationid=A/year=2024/month=01/*";
                       "locationid=B/year=2024/month=01/*"]%string
                      0 fresh_world)))
    as (H1 & _ & H3 & _).
  - vm_compute. reflexivity.
  - split; [exact H1|exact H3].
Defined.

(* ================================================================== *)
(** ** Further properties: what a manual run does to the table         *)
(* ================================================================== *)

Lemma filter_filter {A : Type} (f g : A -> bool) (l : list A) :
  filter f (filter g l) = filter (fun x => g x && f x) l.
Proof.
  induction l as [|x l IH]; [reflexivity|]. cbn [filter].
  destruct (g x); cbn [filter andb]; [destruct (f x)|]; now rewrite IH.
Qed.

Lemma rows_outside_cons (m : datetime) (ms : list datetime)
  (rows : list AirRow) :
  rows_outside ms
    (delete_month (year m) (PyStr.zfill 2 (PyStr.str_int (month m))) rows)
  = rows_outside (m :: ms) rows.
Proof.
  unfold rows_outside, delete_month. rewrite filter_filter.
  apply filter_ext. intros r. cbn [in_months existsb].
  now rewrite negb_orb.
Qed.

Lemma execute_query_delete (env : Env) (y : Z) (m : string) (w : World) :
  fault env (db w) (DeleteMonth y m) = None ->
  execute_query env (DeleteMonth y m) w
  = (Ok tt,
     mkWorld (set_air_quality (delete_month y m (air_quality (db w))) (db w))
       (events w ++ [Executed (DeleteMonth y m)]) (logs w)).
Proof.
  intros H. unfold execute_query, bind, submit, get_db, put_db. now rewrite H.
Qed.

Lemma execute_query_load (env : Env) (q : string) (w : World) :
  fault env (db w) (LoadQuery q) = None ->
  execute_query env (LoadQuery q) w
  = (Ok tt,
     mkWorld (set_air_quality (load_rows env (db w) q) (db w))
       (events w ++ [Executed (LoadQuery q)]) (logs w)).
Proof.
  intros H. unfold execute_query, bind, submit, get_db, put_db. now rewrite H.
Qed.

Lemma delete_months_effect (env : Env) :
  (forall d y m, fault env d (DeleteMonth y m) = None) ->
  forall (n : nat) (idx end_dt : datetime) (w : World),
    is_month_start idx -> is_month_start end_dt ->
    n = months_fuel idx end_dt ->
    month_index end_dt < last_month_index ->
    exists w',
      delete_months env n idx end_dt w = (Ok tt, w')
      /\ air_quality (db w')
         = rows_outside (months_inclusive idx end_dt) (air_quality (db w))
      /\ extraction_log (db w') = extraction_log (db w)
      /\ next_extraction_id (db w') = next_extraction_id (db w).
Proof.
  intros Hnf. induction n as [|n IH]; intros idx end_dt w Hi He Hn Hlast.
  - exists w. unfold months_inclusive, months_fuel in *. rewrite <- Hn.
    cbn. unfold rows_outside. cbn. now rewrite filter_true.
  - assert (Hle : month_index idx <= month_index end_dt)
      by (unfold months_fuel in Hn; lia).
    cbn [delete_months]. rewrite dt_leb_month_index by assumption.
    replace (month_index idx <=? month_index end_dt) with true
      by (symmetry; now apply Z.leb_le).
    unfold bind at 1. unfold logging at 1. unfold bind at 1.
    rewrite execute_query_delete by apply Hnf.
    assert (Hm : months_inclusive idx end_dt
                 = idx :: months_from n (month_index idx + 1)).
    { unfold months_inclusive. unfold months_fuel in Hn. rewrite <- Hn.
      cbn [months_from]. now rewrite month_of_index_index. }
    unfold bind at 1, lift_result, plus_months.
    destruct (add_months_succ idx Hi) as (idx' & -> & Hi' & Hs); [lia|].
    match goal with
    | |- context [delete_months env n idx' end_dt ?w1] =>
        destruct (IH idx' end_dt w1 Hi' He) as (w' & E & Ha & Hl & Hx);
        [symmetry; eapply months_fuel_succ; eauto|assumption|]
    end.
    exists w'. split; [exact E|]. cbn [db air_quality set_air_quality] in *.
    split; [|auto].
    rewrite Ha, Hm, <- rows_outside_cons. do 2 f_equal.
    unfold months_inclusive. rewrite Hs. f_equal.
    unfold months_fuel in Hn. lia.
Qed.

(** X6 -- with no DELETE refused, the guard removes from [raw.air_quality]
    exactly the rows of the months of the range: no such row is left, every
    other row stays, in its place, and the ledger is not touched. *)
Theorem guard_removes_exactly_the_range (env : Env) (s e : string)
  (sdt edt : datetime) (w : World) :
  (forall d y m, fault env d (DeleteMonth y m) = None) ->
  strptime s = Ok sdt ->
  strptime e = Ok edt ->
  month_index edt < last_month_index ->
  exists w',
    delete_existing_data env s e w = (Ok tt, w')
    /\ air_quality (db w')
       = rows_outside (months_inclusive sdt edt) (air_quality (db w))
    /\ (forall r, In r (air_quality (db w')) ->
                  in_months (months_inclusive sdt edt) r = false)
    /\ (forall r, In r (air_quality (db w)) ->
                  in_months (months_inclusive sdt edt) r = false ->
                  In r (air_quality (db w')))
    /\ extraction_log (db w') = extraction_log (db w).
Proof.
  intros Hnf Hs He Hlast.
  destruct (delete_months_effect env Hnf _ sdt edt w
              (strptime_month_start _ _ Hs) (strptime_month_start _ _ He)
              eq_refl Hlast) as (w1 & E & Ha & Hl & _).
  unfold delete_existing_data, bind, lift_result. rewrite Hs, He, E.
  eexists. split; [reflexivity|]. cbn [db logging]. rewrite Ha.
  repeat split; auto.
  - intros r Hin. apply filter_In in Hin as [_ Hin].
    now apply negb_true_iff in Hin.
  - intros r Hin Hout. apply filter_In. split; [assumption|].
    now apply negb_true_iff.
Qed.

Lemma guard_removes_witness :
  exists w',
    delete_existing_data (env_with no_fault None) "2024-01" "2024-02"
      (mkWorld (mkDB [] 1 [mkAirRow 2023 "12" "a"; mkAirRow 2024 "01" "b";
                           mkAirRow 2024 "02" "c"; mkAirRow 2024 "03" "d"])
         [] []) = (Ok tt, w')
    /\ air_quality (db w')
       = [mkAirRow 2023 "12" "a"; mkAirRow 2024 "03" "d"].
Proof.
  destruct (guard_removes_exactly_the_range (env_with no_fault None)
              "2024-01" "2024-02"
              (first_of_month 2024 1) (first_of_month 2024 2)
              (mkWorld (mkDB [] 1 [mkAirRow 2023 "12" "a";
                                   mkAirRow 2024 "01" "b";
                                   mkAirRow 2024 "02" "c";
                                   mkAirRow 2024 "03" "d"]) [] [])
              (fun _ _ _ => eq_refl) eq_refl eq_refl
              ltac:(vm_compute; reflexivity))
    as (w' & E & Ha & _).
  exists w'. split; [exact E|exact Ha].
Defined.

Lemma extract_partitions_append (env : Env) (base tmpl : string)
  (remote : string -> list AirRow) (paths : list string) :
  (forall d q, fault env d (LoadQuery q) = None) ->
  appending_loader env remote ->
  (forall p, In p paths ->
             exists q, compile_data_file_query env base p tmpl = Ok q) ->
  forall (n : Z) (w : World),
    exists w',
      extract_partitions env base tmpl paths n w
      = (Ok (n + Z.of_nat (List.length paths)), w')
      /\ air_quality (db w')
         = air_quality (db w) ++ loaded_rows env base tmpl remote paths
      /\ extraction_log (db w') = extraction_log (db w)
      /\ next_extraction_id (db w') = next_extraction_id (db w)
      /\ events w' = events w ++ map (load_event env base tmpl) paths.
Proof.
  intros Hnf Hap Hr. induction paths as [|p rest IH]; intros n w.
  - exists w. cbn. rewrite Z.add_0_r, !app_nil_r. auto.
  - destruct (Hr p (or_introl eq_refl)) as (q & Hq).
    rewrite (extract_partitions_step _ _ _ _ _ _ _ _ Hq). cbv zeta.
    rewrite execute_query_load by apply Hnf.
    match goal with
    | |- context [extract_partitions env base tmpl rest (n + 1) ?w1] =>
        destruct (IH (fun p' H' => Hr p' (or_intror H')) (n + 1) w1)
          as (w' & E & Ha & Hl & Hx & Hv)
    end.
    exists w'. cbn [db events air_quality extraction_log next_extraction_id
                    set_air_quality] in *.
    split; [rewrite E; f_equal; f_equal; cbn [List.length]; lia|].
    split; [|split; [assumption|split; [assumption|]]].
    + rewrite Ha, Hap. unfold loaded_rows. cbn [flat_map]. rewrite Hq.
      now rewrite <- app_assoc.
    + rewrite Hv, <- app_assoc. cbn [map app]. unfold load_event at 2.
      now rewrite Hq.
Qed.

(** A manual run up to the load loop, and from the end of the loop on,
    when the engine refuses nothing. *)
Lemma manual_run_through (env : Env) (args : Args) (w : World)
  (s e tmpl : string) (sdt edt : datetime) (locs : list string) :
  incremental args = false ->
  args_start_date args = Some s -> args_end_date args = Some e ->
  strptime s = Ok sdt -> strptime e = Ok edt ->
  month_index edt < last_month_index ->
  read_json_keys env (locations_file_path args) = Ok locs ->
  read_query env (extract_query_template_path args) = Ok tmpl ->
  refuses_nothing env ->
  let id := next_extraction_id (db w) in
  let paths := map locator_path (partition_sequence locs sdt edt) in
  exists w2,
    air_quality (db w2)
    = rows_outside (months_inclusive sdt edt) (air_quality (db w))
    /\ extraction_log (db w2) = extraction_log (db w) ++ [new_job env id s e]
    /\ next_extraction_id (db w2) = id + 1
    /\ events w2
       = events w ++ Executed (InsertExtractionLog s e)
           :: map (fun m => Executed (delete_stmt m))
                (months_inclusive sdt edt)
    /\ forall c w3,
        extract_partitions env (source_base_path args) tmpl paths 0 w2
        = (Ok c, w3) ->
        exists w',
          extract_data env args w = (Ok tt, w')
          /\ db w'
             = update_jobs
                 (set_completed (now env) id
                    (count_range s e (air_quality (db w3)))) (db w3)
          /\ events w'
             = events w3
                 ++ [Executed (CountRange s e);
                     Executed (UpdateCompleted id
                                 (count_range s e (air_quality (db w3))));
                     Closed].
Proof.
  intros Hm Hs He Ps Pe Hlast Hl Ht Hnf id paths.
  pose proof (strptime_truthy _ _ Ps) as Ts.
  pose proof (strptime_truthy _ _ Pe) as Te.
  pose proof (strptime_month_start _ _ Ps) as Hsm.
  pose proof (strptime_month_start _ _ Pe) as Hem.
  assert (Hp : compile_data_file_paths locs s e = Ok paths).
  { unfold compile_data_file_paths. rewrite Ps, Pe.
    rewrite compile_locations_spec by assumption.
    replace (month_index edt =? last_month_index) with false
      by (symmetry; apply Z.eqb_neq; lia).
    rewrite andb_false_r. now destruct locs. }
  destruct (log_extraction_start env s e w) as [r1 w1] eqn:E1.
  pose proof E1 as E1'.
  apply log_extraction_start_cases in E1'
    as [(ex & F & _)|(_ & -> & D1 & V1)]; [now rewrite Hnf in F|].
  assert (Ho : open_job env args w = (Ok (Some (s, e, id)), w1)).
  { rewrite (open_job_manual _ _ s e) by assumption.
    unfold bind. rewrite E1. reflexivity. }
  set (w1' := mkWorld (db w1) (events w1)
                (logs w1 ++ [(INFO,
                   "Deleting existing data for the specified date range..."%string)])).
  destruct (delete_months_effect env (fun d y m => Hnf d _) _ sdt edt w1'
              Hsm Hem eq_refl Hlast) as (wd & Ed & Ad & Ld & Nd).
  destruct (delete_months_trace env (fun d y m => Hnf d _) _ sdt edt w1'
              Hsm Hem eq_refl) as (rt & wt & Et & Vt & _).
  rewrite Ed in Et. injection Et as <- <-.
  assert (Hg : guard env args s e w1
               = (Ok tt, mkWorld (db wd) (events wd)
                           (logs wd ++ [(INFO,
                              ("Deleted all existing data from " ++ s
                                 ++ " to " ++ e)%string)]))).
  { unfold guard. rewrite Hm. cbn [negb].
    unfold bind at 1. unfold logging at 1. fold w1'.
    unfold delete_existing_data, bind, lift_result.
    rewrite Ps, Pe, Ed. reflexivity. }
  eexists. split; [|split; [|split; [|split]]];
    [| | | |intros c w3 H3].
  5:{ rewrite (extract_data_opened _ _ _ _ _ _ _ _ Hl Ho).
      unfold try_except.
      rewrite (run_job_unfold _ _ _ _ _ _ _ _ _ Hp Ht).
      unfold bind at 1. rewrite Hg. unfold bind at 1. rewrite H3.
      destruct (count_and_complete env s e id w3 (Hnf _ _) (Hnf _ _))
        as (w4 & E4 & V4 & D4 & _).
      rewrite E4. eexists. split; [reflexivity|].
      cbn [close_database_connection record_event db events].
      split; [exact D4|]. rewrite V4, <- app_assoc. reflexivity. }
  - cbn [db]. rewrite Ad. subst w1'. cbn [db]. now rewrite D1.
  - cbn [db]. rewrite Ld. subst w1'. cbn [db]. now rewrite D1.
  - cbn [db]. rewrite Nd. subst w1'. cbn [db]. now rewrite D1.
  - cbn [events]. rewrite Vt. subst w1'. cbn [events].
    rewrite V1, <- app_assoc. reflexivity.
Qed.

(** X7 -- reloading is idempotent: when the engine refuses nothing, each load
    appends the rows of its remote file and those rows belong to months of
    the range, a second manual run over the same range leaves
    [raw.air_quality] exactly as the first run left it and records the same
    number of records. *)
Theorem manual_reload_is_idempotent (env : Env) (args : Args) (w : World)
  (s e tmpl : string) (sdt edt : datetime) (locs : list string)
  (remote : string -> list AirRow) :
  incremental args = false ->
  args_start_date args = Some s -> args_end_date args = Some e ->
  strptime s = Ok sdt -> strptime e = Ok edt ->
  month_index edt < last_month_index ->
  read_json_keys env (locations_file_path args) = Ok locs ->
  read_query env (extract_query_template_path args) = Ok tmpl ->
  refuses_nothing env ->
  appending_loader env remote ->
  (forall p, exists q,
      compile_data_file_query env (source_base_path args) p tmpl = Ok q) ->
  (forall r,
      In r (loaded_rows env (source_base_path args) tmpl remote
              (map locator_path (partition_sequence locs sdt edt))) ->
      in_months (months_inclusive sdt edt) r = true) ->
  exists w1 w2 n,
    extract_data env args w = (Ok tt, w1)
    /\ extract_data env args w1 = (Ok tt, w2)
    /\ air_quality (db w2) = air_quality (db w1)
    /\ n = count_range s e (air_quality (db w1))
    /\ In (Executed (UpdateCompleted (next_extraction_id (db w)) n))
         (run_events w w1)
    /\ In (Executed (UpdateCompleted (next_extraction_id (db w) + 1) n))
         (run_events w1 w2).
Proof.
  intros Hm Hs He Ps Pe Hlast Hl Ht Hnf Hap Hr Hin.
  set (months := months_inclusive sdt edt) in *.
  set (paths := map locator_path (partition_sequence locs sdt edt)) in *.
  set (L := loaded_rows env (source_base_path args) tmpl remote paths) in *.
  assert (Hrun : forall w0,
             exists w',
               extract_data env args w0 = (Ok tt, w')
               /\ air_quality (db w')
                  = rows_outside months (air_quality (db w0)) ++ L
               /\ next_extraction_id (db w') = next_extraction_id (db w0) + 1
               /\ In (Executed
                        (UpdateCompleted (next_extraction_id (db w0))
                           (count_range s e (air_quality (db w')))))
                    (run_events w0 w')).
  { intros w0.
    destruct (manual_run_through env args w0 s e tmpl sdt edt locs
                Hm Hs He Ps Pe Hlast Hl Ht Hnf)
      as (w2 & A2 & _ & N2 & V2 & Hrest).
    destruct (extract_partitions_append env (source_base_path args) tmpl
                remote paths (fun d q => Hnf d _) Hap
                (fun p _ => Hr p) 0 w2)
      as (w3 & E3 & A3 & _ & N3 & V3).
    destruct (Hrest _ _ E3) as (w' & E & D & V).
    exists w'. split; [exact E|]. rewrite D.
    cbn [update_jobs air_quality next_extraction_id].
    split; [now rewrite A3, A2|]. split; [now rewrite N3, N2|].
    erewrite run_events_app; [|rewrite V, V3, V2, <- !app_assoc; reflexivity].
    cbn [app In]. rewrite ?in_app_iff. cbn [In]. intuition auto. }
  destruct (Hrun w) as (w1 & E1 & A1 & N1 & I1).
  destruct (Hrun w1) as (w2 & E2 & A2 & N2 & I2).
  assert (HL : rows_outside months L = []).
  { unfold rows_outside.
    rewrite (filter_ext_in _ (fun _ => false)), filter_false; [reflexivity|].
    intros r Hr'. now rewrite (Hin r Hr'). }
  assert (Hidem : rows_outside months (rows_outside months
                                         (air_quality (db w)))
                  = rows_outside months (air_quality (db w))).
  { unfold rows_outside. rewrite filter_filter. apply filter_ext.
    intros r. now destruct (in_months months r). }
  assert (Heq : air_quality (db w2) = air_quality (db w1)).
  { rewrite A2, A1. unfold rows_outside at 1. rewrite filter_app.
    fold (rows_outside months (rows_outside months (air_quality (db w)))).
    fold (rows_outside months L). now rewrite HL, Hidem, app_nil_r. }
  exists w1, w2, (count_range s e (air_quality (db w1))).
  repeat split; auto. rewrite <- N1, <- Heq. exact I2.
Qed.

Lemma manual_reload_witness :
  exists w1 w2 n,
    extract_data (env_with no_fault None) (manual_args "2024-01" "2024-01")
      fresh_world = (Ok tt, w1)
    /\ extract_data (env_with no_fault None) (manual_args "2024-01" "2024-01")
         w1 = (Ok tt, w2)
    /\ air_quality (db w2) = air_quality (db w1)
    /\ n = count_range "2024-01" "2024-01" (air_quality (db w1))
    /\ In (Executed (UpdateCompleted (next_extraction_id (db fresh_world)) n))
         (run_events fresh_world w1)
    /\ In (Executed
             (UpdateCompleted (next_extraction_id (db fresh_world) + 1) n))
         (run_events w1 w2).
Proof.
  apply (manual_reload_is_idempotent (env_with no_fault None)
           (manual_args "2024-01" "2024-01") fresh_world
           "2024-01" "2024-01" "COPY {{data_file_path}}"
           (first_of_month 2024 1) (first_of_month 2024 1) ["A"; "B"]%string
           two_rows_per_file);
    try reflexivity.
  - intros d st. reflexivity.
  - intros d q. reflexivity.
  - intros p. eexists. reflexivity.
  - intros r Hr. vm_compute in Hr.
    repeat (destruct Hr as [<-|Hr]; [reflexivity|]). destruct Hr.
Defined.

(* ================================================================== *)
(** ** Runs off the main path                                          *)
(* ================================================================== *)

Lemma loads_of_deletes (ms : list datetime) :
  loads_of (map (fun m => Executed (delete_stmt m)) ms) = [].
Proof. induction ms as [|m ms IH]; [reflexivity|exact IH]. Qed.

(** X8 -- with an empty registry of locations a manual run still goes through:
    the job is inserted, every month of the range is deleted from
    [raw.air_quality], no load is submitted, and the job is completed with
    the count of what is left.  The rows of the range are lost. *)
Theorem manual_run_without_locations (env : Env) (args : Args) (w : World)
  (s e tmpl : string) (sdt edt : datetime) :
  incremental args = false ->
  args_start_date args = Some s -> args_end_date args = Some e ->
  strptime s = Ok sdt -> strptime e = Ok edt ->
  month_index edt < last_month_index ->
  read_json_keys env (locations_file_path args) = Ok [] ->
  read_query env (extract_query_template_path args) = Ok tmpl ->
  refuses_nothing env ->
  exists w',
    extract_data env args w = (Ok tt, w')
    /\ air_quality (db w')
       = rows_outside (months_inclusive sdt edt) (air_quality (db w))
    /\ run_events w w'
       = Executed (InsertExtractionLog s e)
           :: map (fun m => Executed (delete_stmt m))
                (months_inclusive sdt edt)
           ++ [Executed (CountRange s e);
               Executed (UpdateCompleted (next_extraction_id (db w))
                           (count_range s e (air_quality (db w'))));
               Closed]
    /\ loads_of (run_events w w') = [].
Proof.
  intros Hm Hs He Ps Pe Hlast Hl Ht Hnf.
  destruct (manual_run_through env args w s e tmpl sdt edt []
              Hm Hs He Ps Pe Hlast Hl Ht Hnf)
    as (w2 & A2 & _ & _ & V2 & Hrest).
  destruct (Hrest 0 w2 eq_refl) as (w' & E & D & V).
  exists w'. split; [exact E|].
  assert (Ha : air_quality (db w')
               = rows_outside (months_inclusive sdt edt)
                   (air_quality (db w))).
  { rewrite D. cbn [update_jobs air_quality]. exact A2. }
  split; [exact Ha|].
  assert (Hev : run_events w w'
                = Executed (InsertExtractionLog s e)
                    :: map (fun m => Executed (delete_stmt m))
                         (months_inclusive sdt edt)
                    ++ [Executed (CountRange s e);
                        Executed (UpdateCompleted (next_extraction_id (db w))
                                    (count_range s e (air_quality (db w'))));
                        Closed]).
  { apply run_events_app. rewrite V, V2, <- app_assoc.
    rewrite Ha, <- A2. reflexivity. }
  split; [exact Hev|]. rewrite Hev.
  change (loads_of ([Executed (InsertExtractionLog s e)]
                      ++ map (fun m => Executed (delete_stmt m))
                           (months_inclusive sdt edt)
                      ++ [Executed (CountRange s e);
                          Executed (UpdateCompleted (next_extraction_id (db w))
                                      (count_range s e (air_quality (db w'))));
                          Closed]) = []).
  unfold loads_of. rewrite !filter_app.
  fold (loads_of (map (fun m => Executed (delete_stmt m))
                    (months_inclusive sdt edt))).
  rewrite loads_of_deletes. reflexivity.
Qed.

Lemma manual_run_without_locations_witness :
  exists w',
    extract_data env_no_locations (manual_args "2024-01" "2024-02")
      fresh_world = (Ok tt, w')
    /\ air_quality (db w')
       = rows_outside
           (months_inclusive (first_of_month 2024 1) (first_of_month 2024 2))
           (air_quality (db fresh_world))
    /\ run_events fresh_world w'
       = Executed (InsertExtractionLog "2024-01" "2024-02")
           :: map (fun m => Executed (delete_stmt m))
                (months_inclusive (first_of_month 2024 1)
                   (first_of_month 2024 2))
           ++ [Executed (CountRange "2024-01" "2024-02");
               Executed (UpdateCompleted
                           (next_extraction_id (db fresh_world))
                           (count_range "2024-01" "2024-02"
                              (air_quality (db w'))));
               Closed]
    /\ loads_of (run_events fresh_world w') = [].
Proof.
  apply (manual_run_without_locations env_no_locations
           (manual_args "2024-01" "2024-02") fresh_world
           "2024-01" "2024-02" "COPY {{data_file_path}}");
    try reflexivity.
  intros d st. reflexivity.
Defined.

(** X9 -- the format of the manual bounds is only checked once the job row is
    in the ledger: when both bounds are given and non-empty but the paths
    cannot be compiled from them ([strptime] rejects a bound, or the month
    after the end does not exist), the run has already inserted the job;
    it marks it failed with the text of the exception, submits no DELETE,
    load or count, closes the connection and raises that exception. *)
Theorem bounds_are_parsed_after_the_insert (env : Env) (args : Args)
  (w : World) (s e : string) (locs : list string) (ex : exn) :
  incremental args = false ->
  args_start_date args = Some s -> args_end_date args = Some e ->
  PyStr.truthy s = true -> PyStr.truthy e = true ->
  read_json_keys env (locations_file_path args) = Ok locs ->
  compile_data_file_paths locs s e = Raise ex ->
  fault env (db w) (InsertExtractionLog s e) = None ->
  (forall d, fault env d
               (UpdateFailed (next_extraction_id (db w)) (exn_msg ex))
             = None) ->
  exists w',
    extract_data env args w = (Raise ex, w')
    /\ run_events w w'
       = [Executed (InsertExtractionLog s e);
          Executed (UpdateFailed (next_extraction_id (db w)) (exn_msg ex));
          Closed]
    /\ air_quality (db w') = air_quality (db w)
    /\ extraction_log (db w')
       = map (set_failed (now env) (next_extraction_id (db w)) (exn_msg ex))
           (extraction_log (db w)
              ++ [new_job env (next_extraction_id (db w)) s e]).
Proof.
  intros Hm Hs He Ts Te Hl Hc Fi Ff.
  set (id := next_extraction_id (db w)) in *.
  destruct (log_extraction_start env s e w) as [r1 w1] eqn:E1.
  pose proof E1 as E1'.
  apply log_extraction_start_cases in E1'
    as [(ex' & F & _)|(_ & -> & D1 & V1)]; [congruence|].
  assert (Ho : open_job env args w = (Ok (Some (s, e, id)), w1)).
  { rewrite (open_job_manual _ _ s e) by assumption.
    unfold bind. rewrite E1. reflexivity. }
  rewrite (extract_data_opened _ _ _ _ _ _ _ _ Hl Ho).
  unfold try_except, run_job, lift_result. unfold bind at 1. rewrite Hc.
  destruct (on_exception env (Some id) ex w1) as [r2 w2] eqn:E2.
  apply on_exception_some_cases in E2
    as [(ex' & F & _)|(_ & -> & D2 & V2)]; [now rewrite Ff in F|].
  eexists. split; [reflexivity|].
  unfold close_database_connection, record_event. cbn [db events].
  split; [|split].
  - apply run_events_app. cbn [events]. rewrite V2, V1, <- !app_assoc.
    reflexivity.
  - rewrite D2, D1. reflexivity.
  - rewrite D2, D1. reflexivity.
Qed.

Lemma bounds_are_parsed_after_the_insert_witness :
  exists w',
    extract_data (env_with no_fault None) (manual_args "2024-13" "2024-02")
      fresh_world = (Raise (strptime_error "2024-13"), w')
    /\ run_events fresh_world w'
       = [Executed (InsertExtractionLog "2024-13" "2024-02");
          Executed (UpdateFailed (next_extraction_id (db fresh_world))
                      (exn_msg (strptime_error "2024-13")));
          Closed]
    /\ air_quality (db w') = air_quality (db fresh_world)
    /\ extraction_log (db w')
       = map (set_failed (now (env_with no_fault None))
                (next_extraction_id (db fresh_world))
                (exn_msg (strptime_error "2024-13")))
           (extraction_log (db fresh_world)
              ++ [new_job (env_with no_fault None)
                    (next_extraction_id (db fresh_world))
                    "2024-13" "2024-02"]).
Proof.
  apply (bounds_are_parsed_after_the_insert (env_with no_fault None)
           (manual_args "2024-13" "2024-02") fresh_world
           "2024-13" "2024-02" ["A"; "B"]%string);
    reflexivity.
Defined.

(** X10 -- an [end_date] in [raw.last_successful_extraction] that [strptime] does
    not accept stops every incremental run before a job is opened: the view
    is read once, nothing is written, the connection is closed once, and the
    run raises the [ValueError] of [strptime], which no ledger row
    records. *)
Theorem malformed_ledger_date_stops_incremental (env : Env) (args : Args)
  (w : World) (s : string) (locs : list string) (ex : exn) :
  incremental args = true ->
  read_json_keys env (locations_file_path args) = Ok locs ->
  fault env (db w) SelectLastExtraction = None ->
  last_successful_extraction env (db w) = Some (Some s) ->
  PyStr.truthy s = true ->
  strptime s = Raise ex ->
  exists w',
    extract_data env args w = (Raise ex, w')
    /\ run_events w w' = [Executed SelectLastExtraction; Closed]
    /\ db w' = db w
    /\ logs w' = logs w ++ [(ERROR, ("Extraction failed: " ++ exn_msg ex)%string)].
Proof.
  intros Hi Hl Hf Hv Ht Hp.
  unfold extract_data, read_location_ids, lift_result. unfold bind at 1.
  rewrite Hl. unfold try_finally, open_job, resolve_range. rewrite Hi.
  unfold determine_date_range. unfold bind at 1. unfold bind at 1.
  rewrite (get_last_extraction_date_some _ _ _ Hf Hv Ht).
  cbv zeta. rewrite Ht.
  unfold bind at 1. unfold bind at 1. unfold lift_result at 1. rewrite Hp.
  eexists. split; [reflexivity|].
  unfold close_database_connection, record_event, logging.
  cbn [db events logs].
  split; [|split; reflexivity].
  apply run_events_app. cbn [events]. rewrite <- app_assoc. reflexivity.
Qed.

Lemma malformed_ledger_date_witness :
  exists w',
    extract_data (env_with no_fault (Some (Some "2024/01"%string)))
      incremental_args fresh_world
    = (Raise (strptime_error "2024/01"), w')
    /\ run_events fresh_world w' = [Executed SelectLastExtraction; Closed]
    /\ db w' = db fresh_world
    /\ logs w'
       = logs fresh_world
           ++ [(ERROR, ("Extraction failed: "
                          ++ exn_msg (strptime_error "2024/01"))%string)].
Proof.
  apply (malformed_ledger_date_stops_incremental
           (env_with no_fault (Some (Some "2024/01"%string)))
           incremental_args fresh_world "2024/01" ["A"; "B"]%string);
    reflexivity.
Defined.

(* ================================================================== *)
(** ** The connection                                                  *)
(* ================================================================== *)

Section NoClose.

Context {A B : Type}.

Lemma no_close_ret (a : A) : no_close (ret a).
Proof.
  intros w r w' [= <- <-]. exists []; split; [now rewrite app_nil_r|auto].
Qed.

Lemma no_close_raise (e : exn) : no_close (@raise A e).
Proof.
  intros w r w' [= <- <-]. exists []; split; [now rewrite app_nil_r|auto].
Qed.

Lemma no_close_lift (x : result A) : no_close (lift_result x).
Proof.
  intros w r w' [= <- <-]. exists []; split; [now rewrite app_nil_r|auto].
Qed.

Lemma no_close_bind (c : M A) (k : A -> M B) :
  no_close c -> (forall a, no_close (k a)) -> no_close (bind c k).
Proof.
  intros Hc Hk w r w' H.
  destruct (bind_inv _ _ _ _ _ H) as [(a & w1 & H1 & H2)|(e & H1 & _)].
  - destruct (Hc _ _ _ H1) as (ev1 & E1 & F1).
    destruct (Hk a _ _ _ H2) as (ev2 & E2 & F2).
    exists (ev1 ++ ev2); split.
    + now rewrite E2, E1, app_assoc.
    + now apply Forall_app.
  - eauto.
Qed.

Lemma no_close_try_except (c : M A) (h : exn -> M A) :
  no_close c -> (forall e, no_close (h e)) -> no_close (try_except c h).
Proof.
  intros Hc Hh w r w' H. unfold try_except in H.
  destruct (c w) as [[a|e] w1] eqn:E.
  - injection H as <- <-. eauto.
  - destruct (Hc _ _ _ E) as (ev1 & E1 & F1).
    destruct (Hh e _ _ _ H) as (ev2 & E2 & F2).
    exists (ev1 ++ ev2); split.
    + now rewrite E2, E1, app_assoc.
    + now apply Forall_app.
Qed.

End NoClose.

Lemma no_close_logging (lvl : log_level) (msg : string) :
  no_close (logging lvl msg).
Proof.
  intros w r w' [= <- <-]. exists []; split; [cbn; now rewrite app_nil_r|auto].
Qed.

Lemma no_close_get_db : no_close get_db.
Proof.
  intros w r w' [= <- <-]. exists []; split; [now rewrite app_nil_r|auto].
Qed.

Lemma no_close_put_db (d : DB) : no_close (put_db d).
Proof.
  intros w r w' [= <- <-]. exists []; split; [cbn; now rewrite app_nil_r|auto].
Qed.

Lemma no_close_submit (env : Env) (s : stmt) : no_close (submit env s).
Proof.
  intros w r w' H. unfold submit in H.
  destruct (fault env (db w) s); injection H as <- <-;
    eexists [_]; split; cbn; auto.
Qed.

Create HintDb conn.

#[local] Hint Resolve no_close_ret no_close_raise no_close_lift
  no_close_logging no_close_get_db no_close_put_db no_close_submit : conn.
#[local] Hint Extern 2 (no_close (bind _ _)) =>
  apply no_close_bind; [|intro] : conn.
#[local] Hint Extern 2 (no_close (try_except _ _)) =>
  apply no_close_try_except; [|intro] : conn.
#[local] Hint Extern 3 (no_close (if ?b then _ else _)) => destruct b : conn.
#[local] Hint Extern 3 (no_close (match ?x with _ => _ end)) =>
  destruct x : conn.

Ltac conn := auto 30 with conn.

Lemma get_last_extraction_date_no_close (env : Env) :
  no_close (get_last_extraction_date env).
Proof. unfold get_last_extraction_date. conn. Qed.

Lemma determine_date_range_no_close (env : Env) (b : bool) :
  no_close (determine_date_range env b).
Proof.
  pose proof (get_last_extraction_date_no_close env).
  unfold determine_date_range. conn.
Qed.

Lemma resolve_range_no_close (env : Env) (args : Args) :
  no_close (resolve_range env args).
Proof.
  pose proof (determine_date_range_no_close env true).
  unfold resolve_range. conn.
Qed.

Lemma execute_query_no_close (env : Env) (s : stmt) :
  no_close (execute_query env s).
Proof. unfold execute_query. conn. Qed.

Lemma delete_months_no_close (env : Env) (fuel : nat) :
  forall idx end_dt, no_close (delete_months env fuel idx end_dt).
Proof.
  induction fuel as [|fuel IH]; intros idx end_dt; cbn [delete_months].
  - conn.
  - pose proof (execute_query_no_close env
                  (DeleteMonth (year idx)
                     (PyStr.zfill 2 (PyStr.str_int (month idx))))).
    conn.
Qed.

Lemma delete_existing_data_no_close (env : Env) (s e : string) :
  no_close (delete_existing_data env s e).
Proof.
  pose proof (delete_months_no_close env).
  unfold delete_existing_data. conn.
Qed.

Lemma extract_partitions_no_close (env : Env) (base tmpl : string)
  (paths : list string) :
  forall n, no_close (extract_partitions env base tmpl paths n).
Proof.
  induction paths as [|p rest IH]; intros n; [cbn; conn|].
  intros w r w' H.
  destruct (compile_data_file_query env base p tmpl) as [q|e] eqn:Hq.
  - rewrite (extract_partitions_step _ _ _ _ _ _ _ _ Hq) in H. cbv zeta in H.
    match type of H with
    | context [execute_query env ?s ?w0] =>
        destruct (execute_query env s w0) as [[[]|e] w1] eqn:E;
        destruct (execute_query_no_close env s _ _ _ E)
          as (ev1 & E1 & F1)
    end; cbn [events] in E1.
    + destruct (IH _ _ _ _ H) as (ev2 & E2 & F2). cbn [events] in E2.
      exists (ev1 ++ ev2); split;
        [now rewrite E2, E1, app_assoc|now apply Forall_app].
    + destruct (is_IOException e).
      * destruct (IH _ _ _ _ H) as (ev2 & E2 & F2). cbn [events] in E2.
        exists (ev1 ++ ev2); split;
          [now rewrite E2, E1, app_assoc|now apply Forall_app].
      * injection H as <- <-. eauto.
  - rewrite (extract_partitions_render_error _ _ _ _ _ _ _ _ Hq) in H.
    injection H as <- <-. exists []; split; [cbn; now rewrite app_nil_r|auto].
Qed.

Lemma log_extraction_start_no_close (env : Env) (s e : string) :
  no_close (log_extraction_start env s e).
Proof. unfold log_extraction_start. conn. Qed.

Lemma log_extraction_complete_no_close (env : Env) (id n : Z) :
  no_close (log_extraction_complete env id n).
Proof. unfold log_extraction_complete. conn. Qed.

Lemma log_extraction_failed_no_close (env : Env) (id : Z) (msg : string) :
  no_close (log_extraction_failed env id msg).
Proof. unfold log_extraction_failed. conn. Qed.

Lemma run_job_no_close (env : Env) (args : Args) (locs : list string)
  (s e : string) (id : Z) :
  no_close (run_job env args locs s e id).
Proof.
  pose proof (delete_existing_data_no_close env).
  pose proof (extract_partitions_no_close env).
  pose proof (log_extraction_complete_no_close env).
  unfold run_job, count_records. conn.
Qed.

Lemma on_exception_no_close (env : Env) (o : option Z) (ex : exn) :
  no_close (on_exception env o ex).
Proof.
  pose proof (log_extraction_failed_no_close env).
  unfold on_exception. conn.
Qed.

Lemma closes_app (a b : list event) :
  closes (a ++ b) = (closes a + closes b)%nat.
Proof. unfold closes. now rewrite filter_app, length_app. Qed.

Lemma closes_none (evs : list event) :
  Forall (fun e => is_closed e = false) evs -> closes evs = 0%nat.
Proof.
  unfold closes. induction 1 as [|e evs He _ IH]; [reflexivity|].
  cbn [filter]. now rewrite He.
Qed.

(** The up-to-date check closes the connection when, and only when, it
    answers that the run is done; this happens in incremental mode only and
    leaves the database alone. *)
Lemma already_up_to_date_closes (env : Env) (args : Args) (w : World)
  (r : result bool) (w' : World) :
  already_up_to_date env args w = (r, w') ->
  exists evs,
    events w' = events w ++ evs
    /\ closes evs = (match r with Ok true => 1 | _ => 0 end)%nat
    /\ (r = Ok true -> incremental args = true).
Proof.
  unfold already_up_to_date. intros H.
  assert (Hq : forall (c : M bool),
             no_close c -> c w = (r, w') ->
             (forall w0 w1, c w0 <> (Ok true, w1)) ->
             exists evs,
               events w' = events w ++ evs
               /\ closes evs = (match r with Ok true => 1 | _ => 0 end)%nat
               /\ (r = Ok true -> incremental args = true)).
  { intros c Hc E Hn. destruct (Hc _ _ _ E) as (evs & Ev & F).
    exists evs. split; [exact Ev|]. rewrite (closes_none _ F).
    destruct r as [[|]|]; try (split; [reflexivity|discriminate]).
    now destruct (Hn _ _ E). }
  destruct (incremental args) eqn:Hi.
  2:{ apply (Hq (ret false)); [conn|exact H|]. intros w0 w1 [=]. }
  apply bind_inv in H as [(o & w1 & H1 & H)|(ex & H1 & ->)].
  2:{ destruct (get_last_extraction_date_no_close env _ _ _ H1)
        as (evs & Ev & F).
      exists evs. rewrite (closes_none _ F).
      split; [exact Ev|]. split; [reflexivity|discriminate]. }
  destruct (get_last_extraction_date_no_close env _ _ _ H1)
    as (ev1 & E1 & F1).
  assert (Hstep : forall evs2 (n : nat),
             events w' = events w1 ++ evs2 ->
             closes evs2 = n ->
             exists evs, events w' = events w ++ evs /\ closes evs = n).
  { intros evs2 n E2 C2. exists (ev1 ++ evs2).
    split; [now rewrite E2, E1, app_assoc|].
    now rewrite closes_app, (closes_none _ F1). }
  assert (Hfalse : (r, w') = (Ok false, w1) ->
                   exists evs,
                     events w' = events w ++ evs
                     /\ closes evs
                        = (match r with Ok true => 1 | _ => 0 end)%nat
                     /\ (r = Ok true -> true = true)).
  { intros [= -> ->]. destruct (Hstep [] 0%nat) as (evs & ? & ?);
      [now rewrite app_nil_r|reflexivity|]. exists evs. auto. }
  destruct o as [s|]; [|apply Hfalse; symmetry; exact H].
  destruct (PyStr.truthy s); [|apply Hfalse; symmetry; exact H].
  unfold bind at 1 in H. unfold lift_result at 1 in H.
  destruct (strptime s) as [dt|ex].
  2:{ injection H as <- <-.
      destruct (Hstep [] 0%nat) as (evs & ? & ?);
        [now rewrite app_nil_r|reflexivity|]. exists evs. auto. }
  destruct (dt_geb dt (replace_day1 (now env)));
    [|apply Hfalse; symmetry; exact H].
  unfold bind, logging, ret in H. injection H as <- <-.
  destruct (Hstep [Closed] 1%nat) as (evs & ? & ?);
    [reflexivity|reflexivity|]. exists evs. auto.
Qed.

(** [open_job] closes the connection once when it takes the early
    [return], and not at all otherwise. *)
Lemma open_job_closes (env : Env) (args : Args) (w : World)
  (r : result (option (string * string * Z))) (w' : World) :
  open_job env args w = (r, w') ->
  exists evs,
    events w' = events w ++ evs
    /\ closes evs = (match r with Ok None => 1 | _ => 0 end)%nat
    /\ (r = Ok None -> incremental args = true /\ db w' = db w).
Proof.
  intros H. unfold open_job in H.
  apply bind_inv in H as [(range & w1 & H1 & H)|(ex & H1 & ->)].
  2:{ destruct (resolve_range_no_close env args _ _ _ H1) as (evs & Ev & F).
      exists evs. rewrite (closes_none _ F).
      split; [exact Ev|]. split; [reflexivity|discriminate]. }
  destruct (resolve_range_no_close env args _ _ _ H1) as (ev1 & E1 & F1).
  pose proof (resolve_range_keeps_db env args _ _ _ H1) as D1.
  apply bind_inv in H as [(done & w2 & H2 & H)|(ex & H2 & ->)].
  2:{ destruct (already_up_to_date_closes _ _ _ _ _ H2) as (ev2 & E2 & C2 & _).
      exists (ev1 ++ ev2). rewrite closes_app, (closes_none _ F1), C2.
      split; [now rewrite E2, E1, app_assoc|].
      split; [reflexivity|discriminate]. }
  destruct (already_up_to_date_closes _ _ _ _ _ H2) as (ev2 & E2 & C2 & I2).
  pose proof (already_up_to_date_keeps_db env args _ _ _ H2) as D2.
  destruct done.
  - injection H as <- <-. exists (ev1 ++ ev2).
    rewrite closes_app, (closes_none _ F1), C2.
    split; [now rewrite E2, E1, app_assoc|]. split; [reflexivity|].
    intros _. split; [now apply I2|congruence].
  - assert (Hk : no_close
                   (extraction_id <-
                      log_extraction_start env (fst range) (snd range) ;;
                    ret (Some (fst range, snd range, extraction_id)))).
    { pose proof (log_extraction_start_no_close env). conn. }
    destruct (Hk _ _ _ H) as (ev3 & E3 & F3).
    exists (ev1 ++ ev2 ++ ev3).
    rewrite !closes_app, (closes_none _ F1), (closes_none _ F3), C2.
    split; [now rewrite E3, E2, E1, <- !app_assoc|].
    apply bind_inv in H as [(id & w3 & _ & [= <- _])|(ex & _ & ->)];
      (split; [reflexivity|discriminate]).
Qed.

(** X12 -- the connection over every run of [extract_data].  When the registry
    of locations cannot be read the run raises before connecting and
    nothing happens.  Otherwise the connection is closed last of all by the
    [finally], exactly once -- except on the early [return] of an
    incremental run that is up to date, which has closed it already: there
    it is closed twice, the run returns normally and the database is as it
    was. *)
Theorem connection_closed_on_every_path (env : Env) (args : Args)
  (w : World) (r : result unit) (w' : World) :
  extract_data env args w = (r, w') ->
  match read_json_keys env (locations_file_path args) with
  | Raise ex => r = Raise ex /\ w' = w
  | Ok _ =>
      (exists evs, run_events w w' = evs ++ [Closed])
      /\ closes (run_events w w')
         = (if returns_early env args w then 2 else 1)%nat
      /\ (returns_early env args w = true ->
          r = Ok tt /\ incremental args = true /\ db w' = db w)
  end.
Proof.
  intros H. unfold extract_data, read_location_ids, lift_result in H.
  unfold bind at 1 in H.
  destruct (read_json_keys env (locations_file_path args)) as [locs|ex].
  2:{ now injection H as <- <-. }
  unfold try_finally, returns_early in *.
  destruct (open_job env args w) as [ro w1] eqn:Ho.
  destruct (open_job_closes _ _ _ _ _ Ho) as (ev1 & E1 & C1 & I1).
  cbn [fst].
  assert (Hrest : forall (c : M unit) r2 w2,
             no_close c -> c w1 = (r2, w2) ->
             exists ev2, events w2 = events w1 ++ ev2 /\ closes ev2 = 0%nat).
  { intros c r2 w2 Hc E. destruct (Hc _ _ _ E) as (ev2 & E2 & F2).
    exists ev2. split; [exact E2|now apply closes_none]. }
  assert (Hend : forall w2 ev2,
             w' = close_database_connection w2 ->
             events w2 = events w1 ++ ev2 -> closes ev2 = 0%nat ->
             (exists evs, run_events w w' = evs ++ [Closed])
             /\ closes (run_events w w') = (closes ev1 + 1)%nat).
  { intros w2 ev2 -> E2 C2.
    assert (Hr : run_events w (close_database_connection w2)
                 = (ev1 ++ ev2) ++ [Closed]).
    { apply run_events_app. unfold close_database_connection, record_event.
      cbn [events]. now rewrite E2, E1, <- !app_assoc. }
    rewrite Hr. split; [eauto|].
    rewrite !closes_app, C2. cbn. lia. }
  destruct ro as [[[[s e] id]|]|ex].
  - destruct (try_except (run_job env args locs s e id)
                (on_exception env (Some id)) w1) as [r2 w2] eqn:E.
    injection H as <- <-.
    destruct (Hrest _ _ _
                (no_close_try_except _ _
                   (run_job_no_close env args locs s e id)
                   (on_exception_no_close env (Some id))) E)
      as (ev2 & E2 & C2).
    destruct (Hend w2 ev2 eq_refl E2 C2) as (Hl & Hc).
    rewrite C1 in Hc. split; [exact Hl|]. split; [exact Hc|discriminate].
  - injection H as <- <-.
    destruct (Hend w1 [] eq_refl) as (Hl & Hc);
      [now rewrite app_nil_r|reflexivity|].
    rewrite C1 in Hc. split; [exact Hl|]. split; [exact Hc|].
    intros _. destruct (I1 eq_refl) as (Hi & Hd).
    split; [reflexivity|]. split; [exact Hi|exact Hd].
  - destruct (on_exception env None ex w1) as [r2 w2] eqn:E.
    injection H as <- <-.
    destruct (Hrest _ _ _ (on_exception_no_close env None ex) E)
      as (ev2 & E2 & C2).
    destruct (Hend w2 ev2 eq_refl E2 C2) as (Hl & Hc).
    rewrite C1 in Hc. split; [exact Hl|]. split; [exact Hc|discriminate].
Qed.

Lemma connection_closed_witness :
  closes (run_events fresh_world
            (snd (extract_data (env_with no_fault (Some (Some "2026-12"%string)))
                    incremental_args fresh_world))) = 2%nat
  /\ closes (run_events fresh_world
               (snd (extract_data (env_with no_fault None)
                       (manual_args "2024-01" "2024-02") fresh_world)))
     = 1%nat.
Proof.
  split.
  - refine (proj1 (proj2
      (connection_closed_on_every_path
         (env_with no_fault (Some (Some "2026-12"%string)))
         incremental_args fresh_world
         (fst (extract_data (env_with no_fault (Some (Some "2026-12"%string)))
                 incremental_args fresh_world))
         (snd (extract_data (env_with no_fault (Some (Some "2026-12"%string)))
                 incremental_args fresh_world))
         _))).
    vm_compute. reflexivity.
  - refine (proj1 (proj2
      (connection_closed_on_every_path (env_with no_fault None)
         (manual_args "2024-01" "2024-02") fresh_world
         (fst (extract_data (env_with no_fault None)
                 (manual_args "2024-01" "2024-02") fresh_world))
         (snd (extract_data (env_with no_fault None)
                 (manual_args "2024-01" "2024-02") fresh_world))
         _))).
    vm_compute. reflexivity.
Defined.

(* ================================================================== *)
(** ** Setting the database up                                         *)
(* ================================================================== *)

Lemma setup_run_scripts_outcome (env : Setup.Env) (scripts : list string) :
  forall (w : Setup.World) (r : result unit) (w' : Setup.World),
    Setup.run_scripts env (Setup.sql_dir env) scripts w = (r, w') ->
    exists done rest pqs tail,
      scripts = done ++ rest
      /\ map fst pqs = map (Setup.script_path env) done
      /\ Forall (fun pq => Setup.read_file env (fst pq) = Ok (snd pq)) pqs
      /\ Setup.events w'
         = Setup.events w ++ Setup.script_events pqs ++ tail
      /\ match r with
         | Ok _ => rest = [] /\ tail = []
         | Raise ex =>
             exists name rest',
               rest = name :: rest' /\ Setup.failure_events env name ex tail
         end.
Proof.
  induction scripts as [|name rest IH]; intros w r w' H.
  - injection H as <- <-. exists [], [], [], [].
    cbn. rewrite app_nil_r. repeat split; auto.
  - cbn [Setup.run_scripts] in H. cbv zeta in H.
    unfold Setup.read_query in H.
    fold (Setup.script_path env name) in H.
    destruct (Setup.read_file env (Setup.script_path env name))
      as [q|ex] eqn:Er.
    2:{ injection H as <- <-.
        exists [], (name :: rest), [], [Setup.Read (Setup.script_path env name)].
        cbn. repeat split; auto.
        exists name, rest. split; [reflexivity|]. left. auto. }
    unfold Setup.execute_query in H.
    cbn [Setup.events Setup.record_event Setup.logging] in H.
    destruct (Setup.fault env _ q) as [ex|] eqn:Ef.
    + injection H as <- <-.
      exists [], (name :: rest), [],
        [Setup.Read (Setup.script_path env name); Setup.Refused q ex].
      cbn. rewrite <- app_assoc. repeat split; auto.
      exists name, rest. split; [reflexivity|]. right. eauto.
    + apply IH in H
        as (done & rest' & pqs & tail & -> & Hp & Hf & Hev & Hr).
      exists (name :: done), rest', ((Setup.script_path env name, q) :: pqs),
        tail.
      split; [reflexivity|]. split; [cbn; now rewrite Hp|].
      split; [constructor; assumption|]. split; [|exact Hr].
      rewrite Hev. cbn. rewrite <- !app_assoc. reflexivity.
Qed.

(** X14 -- [setup_database] runs the three DDL scripts in their order and stops
    at the first that cannot be read or that the engine refuses: the
    scripts before it were read and carried out one after the other, the
    scripts after it are not touched, the error is logged and raised again;
    with no failure all three are carried out.  On either path the
    connection is closed, once, as the last thing that happens. *)
Theorem setup_database_fail_fast (env : Setup.Env) (database_path : string)
  (w : Setup.World) (r : result unit) (w' : Setup.World) :
  Setup.setup_database env database_path w = (r, w') ->
  exists done rest pqs tail,
    Setup.ddl_scripts = done ++ rest
    /\ map fst pqs = map (Setup.script_path env) done
    /\ Forall (fun pq => Setup.read_file env (fst pq) = Ok (snd pq)) pqs
    /\ Setup.events w'
       = Setup.events w ++ Setup.script_events pqs ++ tail ++ [Setup.Closed]
    /\ match r with
       | Ok _ =>
           rest = [] /\ tail = []
           /\ exists l,
               Setup.logs w'
               = l ++ [(INFO, "Database setup completed successfully!"%string)]
       | Raise ex =>
           (exists name rest',
               rest = name :: rest' /\ Setup.failure_events env name ex tail)
           /\ exists l,
               Setup.logs w'
               = l ++ [(ERROR,
                        ("Database setup failed: " ++ exn_msg ex)%string)]
       end.
Proof.
  intros H. unfold Setup.setup_database in H. cbv zeta in H.
  destruct (Setup.run_scripts env (Setup.sql_dir env) Setup.ddl_scripts _)
    as [r1 w1] eqn:E.
  apply setup_run_scripts_outcome in E
    as (done & rest & pqs & tail & Hs & Hp & Hf & Hev & Hr).
  cbn [Setup.events Setup.logging] in Hev.
  exists done, rest, pqs, tail.
  split; [exact Hs|]. split; [exact Hp|]. split; [exact Hf|].
  destruct r1 as [[]|ex]; injection H as <- <-;
    cbn [Setup.close_database_connection Setup.record_event Setup.logging
         Setup.events Setup.logs];
    (split; [rewrite Hev, <- !app_assoc; reflexivity|]).
  - destruct Hr as (-> & ->). split; [reflexivity|].
    split; [reflexivity|]. eexists. reflexivity.
  - split; [exact Hr|]. eexists. reflexivity.
Qed.

Lemma setup_database_fail_fast_witness :
  exists done rest pqs tail,
    Setup.ddl_scripts = done ++ rest
    /\ map fst pqs = map (Setup.script_path (Setup.env_with Setup.refuse_second))
                       done
    /\ Forall (fun pq => Setup.read_file (Setup.env_with Setup.refuse_second)
                           (fst pq) = Ok (snd pq)) pqs
    /\ Setup.events
         (snd (Setup.setup_database (Setup.env_with Setup.refuse_second)
                 "air_quality.db" Setup.fresh_world))
       = Setup.events Setup.fresh_world
           ++ Setup.script_events pqs ++ tail ++ [Setup.Closed]
    /\ (exists name rest',
           rest = name :: rest'
           /\ Setup.failure_events (Setup.env_with Setup.refuse_second) name
                (mkExn OtherException "Catalog Error") tail)
    /\ exists l,
        Setup.logs
          (snd (Setup.setup_database (Setup.env_with Setup.refuse_second)
                  "air_quality.db" Setup.fresh_world))
        = l ++ [(ERROR, "Database setup failed: Catalog Error"%string)].
Proof.
  refine (setup_database_fail_fast (Setup.env_with Setup.refuse_second)
            "air_quality.db" Setup.fresh_world
            (Raise (mkExn OtherException "Catalog Error"))
            (snd (Setup.setup_database (Setup.env_with Setup.refuse_second)
                    "air_quality.db" Setup.fresh_world)) _).
  vm_compute. reflexivity.
Defined.








(* ================================================================== *)
(** ** Incremental runs only append                                    *)
(* ================================================================== *)

Lemma load_queries_app (a b : list event) :
  load_queries (a ++ b) = load_queries a ++ load_queries b.
Proof. unfold load_queries. apply flat_map_app. Qed.

Lemma load_queries_none (p : stmt -> bool) (evs : list event) :
  (forall s, p s = true -> is_load s = false) ->
  Forall (allowed p) evs -> load_queries evs = [].
Proof.
  intros Hp. induction 1 as [|e evs He _ IH]; [reflexivity|].
  change (load_queries ([e] ++ evs) = []). rewrite load_queries_app, IH.
  destruct e as [[]| |]; try reflexivity.
  cbn in He. apply Hp in He. discriminate.
Qed.

Section AppendsLoads.

Context {A B : Type} (remote : string -> list AirRow).

Lemma appends_loads_bind (c : M A) (k : A -> M B) :
  appends_loads remote c -> (forall a, appends_loads remote (k a)) ->
  appends_loads remote (bind c k).
Proof.
  intros Hc Hk w r w' H.
  destruct (bind_inv _ _ _ _ _ H) as [(a & w1 & H1 & H2)|(e & H1 & _)].
  - destruct (Hc _ _ _ H1) as (ev1 & E1 & T1).
    destruct (Hk a _ _ _ H2) as (ev2 & E2 & T2).
    exists (ev1 ++ ev2); split.
    + now rewrite E2, E1, app_assoc.
    + now rewrite T2, T1, load_queries_app, flat_map_app, app_assoc.
  - eauto.
Qed.

Lemma appends_loads_try_except (c : M A) (h : exn -> M A) :
  appends_loads remote c -> (forall e, appends_loads remote (h e)) ->
  appends_loads remote (try_except c h).
Proof.
  intros Hc Hh w r w' H. unfold try_except in H.
  destruct (c w) as [[a|e] w1] eqn:E.
  - injection H as <- <-. eauto.
  - destruct (Hc _ _ _ E) as (ev1 & E1 & T1).
    destruct (Hh e _ _ _ H) as (ev2 & E2 & T2).
    exists (ev1 ++ ev2); split.
    + now rewrite E2, E1, app_assoc.
    + now rewrite T2, T1, load_queries_app, flat_map_app, app_assoc.
Qed.

(** A computation that leaves the table alone and submits no load. *)
Lemma appends_loads_quiet (p : stmt -> bool) (c : M A) :
  (forall s, p s = true -> is_load s = false) ->
  emits p c ->
  (forall w r w', c w = (r, w') -> air_quality (db w') = air_quality (db w)) ->
  appends_loads remote c.
Proof.
  intros Hp He Hk w r w' H. destruct (He _ _ _ H) as (evs & E & F).
  exists evs. split; [exact E|].
  rewrite (load_queries_none p evs Hp F), (Hk _ _ _ H). cbn.
  now rewrite app_nil_r.
Qed.

End AppendsLoads.

Lemma appends_loads_keeps_db {A : Type} (remote : string -> list AirRow)
  (p : stmt -> bool) (c : M A) :
  (forall s, p s = true -> is_load s = false) ->
  emits p c -> keeps_db c -> appends_loads remote c.
Proof.
  intros Hp He Hk. apply (appends_loads_quiet remote p); auto.
  intros w r w' H. now rewrite (Hk _ _ _ H).
Qed.

Lemma select_not_load (s : stmt) : is_select s = true -> is_load s = false.
Proof. now destruct s. Qed.

Lemma count_not_load (s : stmt) : is_count s = true -> is_load s = false.
Proof. now destruct s. Qed.

Lemma ledger_write_not_load (s : stmt) :
  is_ledger_write s = true -> is_load s = false.
Proof. now destruct s. Qed.

Lemma appends_loads_ret {A : Type} (remote : string -> list AirRow) (a : A) :
  appends_loads remote (ret a).
Proof.
  apply (appends_loads_keeps_db remote is_select); runs.
  apply select_not_load.
Qed.

Lemma appends_loads_lift {A : Type} (remote : string -> list AirRow)
  (x : result A) : appends_loads remote (lift_result x).
Proof.
  apply (appends_loads_keeps_db remote is_select); runs.
  apply select_not_load.
Qed.

Lemma appends_loads_logging (remote : string -> list AirRow)
  (lvl : log_level) (msg : string) :
  appends_loads remote (logging lvl msg).
Proof.
  apply (appends_loads_keeps_db remote is_select); runs.
  apply select_not_load.
Qed.

Lemma log_extraction_start_appends (env : Env)
  (remote : string -> list AirRow) (s e : string) :
  appends_loads remote (log_extraction_start env s e).
Proof.
  intros w r w' H.
  apply log_extraction_start_cases in H
    as [(ex & _ & _ & D & E)|(_ & _ & D & E)];
    eexists; (split; [exact E|]); rewrite D; cbn; now rewrite app_nil_r.
Qed.

Lemma log_extraction_complete_appends (env : Env)
  (remote : string -> list AirRow) (id n : Z) :
  appends_loads remote (log_extraction_complete env id n).
Proof.
  intros w r w' H.
  apply log_extraction_complete_cases in H
    as [(ex & _ & _ & D & E)|(_ & _ & D & E)];
    eexists; (split; [exact E|]); rewrite D; cbn; now rewrite app_nil_r.
Qed.

Lemma log_extraction_failed_appends (env : Env)
  (remote : string -> list AirRow) (id : Z) (msg : string) :
  appends_loads remote (log_extraction_failed env id msg).
Proof.
  intros w r w' H.
  apply log_extraction_failed_cases in H
    as [(ex & _ & _ & D & E)|(_ & _ & D & E)];
    eexists; (split; [exact E|]); rewrite D; cbn; now rewrite app_nil_r.
Qed.

Lemma execute_load_appends (env : Env) (remote : string -> list AirRow)
  (q : string) :
  appending_loader env remote ->
  appends_loads remote (execute_query env (LoadQuery q)).
Proof.
  intros Hap w r w' H. unfold execute_query, bind, submit, get_db, put_db in H.
  destruct (fault env (db w) (LoadQuery q)); injection H as <- <-;
    eexists; (split; [reflexivity|]); cbn.
  - now rewrite app_nil_r.
  - now rewrite Hap, app_nil_r.
Qed.

Lemma extract_partitions_appends (env : Env)
  (remote : string -> list AirRow) (base tmpl : string)
  (paths : list string) :
  appending_loader env remote ->
  forall n, appends_loads remote (extract_partitions env base tmpl paths n).
Proof.
  intros Hap. induction paths as [|p rest IH]; intros n;
    [apply appends_loads_ret|].
  intros w r w' H.
  destruct (compile_data_file_query env base p tmpl) as [q|e] eqn:Hq.
  - rewrite (extract_partitions_step _ _ _ _ _ _ _ _ Hq) in H. cbv zeta in H.
    match type of H with
    | context [execute_query env ?s ?w0] =>
        destruct (execute_query env s w0) as [[[]|e] w1] eqn:E;
        destruct (execute_load_appends env remote q Hap _ _ _ E)
          as (ev1 & E1 & T1)
    end; cbn [events db] in E1, T1.
    + destruct (IH _ _ _ _ H) as (ev2 & E2 & T2). cbn [events db] in E2, T2.
      exists (ev1 ++ ev2); split; [now rewrite E2, E1, app_assoc|].
      now rewrite T2, T1, load_queries_app, flat_map_app, app_assoc.
    + destruct (is_IOException e).
      * destruct (IH _ _ _ _ H) as (ev2 & E2 & T2). cbn [events db] in E2, T2.
        exists (ev1 ++ ev2); split; [now rewrite E2, E1, app_assoc|].
        now rewrite T2, T1, load_queries_app, flat_map_app, app_assoc.
      * injection H as <- <-. eauto.
  - rewrite (extract_partitions_render_error _ _ _ _ _ _ _ _ Hq) in H.
    injection H as <- <-. exists []; split; cbn; now rewrite app_nil_r.
Qed.

Create HintDb appends.

#[local] Hint Resolve appends_loads_ret appends_loads_lift
  appends_loads_logging log_extraction_start_appends
  log_extraction_complete_appends log_extraction_failed_appends
  extract_partitions_appends : appends.
#[local] Hint Extern 2 (appends_loads _ (bind _ _)) =>
  apply appends_loads_bind; [|intro] : appends.
#[local] Hint Extern 2 (appends_loads _ (try_except _ _)) =>
  apply appends_loads_try_except; [|intro] : appends.

Lemma run_job_appends (env : Env) (remote : string -> list AirRow)
  (args : Args) (locs : list string) (s e : string) (id : Z) :
  incremental args = true ->
  appending_loader env remote ->
  appends_loads remote (run_job env args locs s e id).
Proof.
  intros Hi Hap. unfold run_job. rewrite Hi. cbn [negb].
  assert (Hc : appends_loads remote (count_records env s e)).
  { apply (appends_loads_keeps_db remote is_count);
      [apply count_not_load|apply count_records_emits
      |apply count_records_keeps_db]. }
  auto 30 with appends.
Qed.

Lemma on_exception_appends (env : Env) (remote : string -> list AirRow)
  (o : option Z) (ex : exn) :
  appends_loads remote (on_exception env o ex).
Proof.
  unfold on_exception.
  assert (Hr : appends_loads remote (@raise unit ex)).
  { apply (appends_loads_keeps_db remote is_select); runs.
    apply select_not_load. }
  destruct o; auto 30 with appends.
Qed.

Lemma open_job_appends (env : Env) (remote : string -> list AirRow)
  (args : Args) :
  appends_loads remote (open_job env args).
Proof.
  unfold open_job.
  assert (H1 : appends_loads remote (resolve_range env args)).
  { apply (appends_loads_keeps_db remote is_select);
      [apply select_not_load|apply resolve_range_emits
      |apply resolve_range_keeps_db]. }
  assert (H2 : appends_loads remote (already_up_to_date env args)).
  { apply (appends_loads_keeps_db remote is_select);
      [apply select_not_load|apply already_up_to_date_emits
      |apply already_up_to_date_keeps_db]. }
  apply appends_loads_bind; [exact H1|intros range].
  apply appends_loads_bind; [exact H2|intros done].
  destruct done; auto 30 with appends.
Qed.

(** X13 -- an incremental run never removes a row: whatever the engine refuses
    and however the run ends, when a load appends the rows of its remote
    file, [raw.air_quality] after the run is the table before it followed
    by the rows of the loads that were carried out, in their order. *)
Theorem incremental_run_only_appends (env : Env) (args : Args)
  (remote : string -> list AirRow) (w : World) (r : result unit)
  (w' : World) :
  incremental args = true ->
  appending_loader env remote ->
  extract_data env args w = (r, w') ->
  air_quality (db w')
  = air_quality (db w)
      ++ flat_map remote (load_queries (run_events w w')).
Proof.
  intros Hi Hap H. unfold extract_data in H.
  apply bind_inv in H as [(locs & wa & Ha & H)|(ex & Ha & ->)].
  2:{ injection Ha as _ <-. unfold run_events.
      rewrite skipn_all. cbn. now rewrite app_nil_r. }
  injection Ha as _ <-. unfold try_finally in H.
  assert (Hbody : appends_loads remote
                    (fun w =>
                       match open_job env args w with
                       | (Raise e, w1) => on_exception env None e w1
                       | (Ok None, w1) => (Ok tt, w1)
                       | (Ok (Some (start_d, end_d, extraction_id)), w1) =>
                           try_except
                             (run_job env args locs start_d end_d
                                extraction_id)
                             (on_exception env (Some extraction_id)) w1
                       end)).
  { intros w0 r0 w2 H0.
    destruct (open_job env args w0) as [ro w1] eqn:Ho.
    destruct (open_job_appends env remote args _ _ _ Ho) as (ev1 & E1 & T1).
    assert (Hk : forall (c : M unit),
               appends_loads remote c -> c w1 = (r0, w2) ->
               exists evs,
                 events w2 = events w0 ++ evs
                 /\ air_quality (db w2)
                    = air_quality (db w0)
                        ++ flat_map remote (load_queries evs)).
    { intros c Hc E. destruct (Hc _ _ _ E) as (ev2 & E2 & T2).
      exists (ev1 ++ ev2); split; [now rewrite E2, E1, app_assoc|].
      now rewrite T2, T1, load_queries_app, flat_map_app, app_assoc. }
    destruct ro as [[[[s e] id]|]|ex].
    - apply (Hk _ (appends_loads_try_except remote _ _
                     (run_job_appends env remote args locs s e id Hi Hap)
                     (on_exception_appends env remote (Some id))) H0).
    - apply (Hk (ret tt) (appends_loads_ret remote tt) H0).
    - apply (Hk _ (on_exception_appends env remote None ex) H0). }
  specialize (Hbody w). cbv beta in Hbody, H.
  match type of H with
  | (let '(_, _) := ?c in _) = _ =>
      destruct c as [rb wb] eqn:E
  end.
  injection H as Hr Hw. subst r w'.
  destruct (Hbody _ _ eq_refl) as (evs & Ev & T).
  rewrite (run_events_app w _ (evs ++ [Closed])).
  - unfold close_database_connection, record_event. cbn [db].
    rewrite T, load_queries_app, flat_map_app. cbn. now rewrite app_nil_r.
  - unfold close_database_connection, record_event. cbn [events].
    now rewrite Ev, app_assoc.
Qed.

Lemma incremental_run_only_appends_witness :
  air_quality
    (db (snd (extract_data (env_with (refuse_load_B IOException) None) incremental_args
                fresh_world)))
  = air_quality (db fresh_world)
      ++ flat_map two_rows_per_file
           (load_queries
              (run_events fresh_world
                 (snd (extract_data (env_with (refuse_load_B IOException) None)
                         incremental_args fresh_world)))).
Proof.
  refine (incremental_run_only_appends (env_with (refuse_load_B IOException) None)
            incremental_args two_rows_per_file fresh_world
            (fst (extract_data (env_with (refuse_load_B IOException) None) incremental_args
                    fresh_world))
            (snd (extract_data (env_with (refuse_load_B IOException) None) incremental_args
                    fresh_world))
            eq_refl _ _).
  - intros d q. reflexivity.
  - vm_compute. reflexivity.
Defined.

(* ================================================================== *)
(** ** The dropdowns of the dashboard                                  *)
(* ================================================================== *)

Lemma unique_In (values : list string) (x : string) :
  In x (Dashboard.unique values) <-> In x values.
Proof.
  induction values as [|v rest IH]; [reflexivity|].
  cbn [Dashboard.unique In]. rewrite filter_In, IH.
  destruct (String.eqb_spec x v) as [->|Hn]; cbn.
  - split; auto.
  - split; [intros [E|[H _]]; auto|intros [E|H]; auto].
Qed.

Lemma unique_NoDup (values : list string) : NoDup (Dashboard.unique values).
Proof.
  induction values as [|v rest IH]; [constructor|].
  cbn [Dashboard.unique]. constructor.
  - rewrite filter_In, String.eqb_refl. intros [_ [=]].
  - now apply NoDup_filter.
Qed.

Lemma fold_min_le (l : list Z) (a : Z) :
  fold_left Z.min l a <= a /\ forall x, In x l -> fold_left Z.min l a <= x.
Proof.
  revert a. induction l as [|y l IH]; intros a; cbn; [split; [lia|tauto]|].
  destruct (IH (Z.min a y)) as (H1 & H2). split; [lia|].
  intros x [<-|Hx]; [lia|auto].
Qed.

Lemma fold_max_ge (l : list Z) (a : Z) :
  a <= fold_left Z.max l a /\ forall x, In x l -> x <= fold_left Z.max l a.
Proof.
  revert a. induction l as [|y l IH]; intros a; cbn; [split; [lia|tauto]|].
  destruct (IH (Z.max a y)) as (H1 & H2). split; [lia|].
  intros x [<-|Hx]; [lia|auto].
Qed.

Lemma fold_min_attained (l : list Z) (a : Z) :
  In (fold_left Z.min l a) (a :: l).
Proof.
  revert a. induction l as [|y l IH]; intros a; cbn [fold_left];
    [now left|].
  destruct (IH (Z.min a y)) as [E|Hin]; [|right; now right].
  rewrite <- E. destruct (Z.min_spec a y) as [[_ ->]|[_ ->]];
    [now left|right; now left].
Qed.

Lemma fold_max_attained (l : list Z) (a : Z) :
  In (fold_left Z.max l a) (a :: l).
Proof.
  revert a. induction l as [|y l IH]; intros a; cbn [fold_left];
    [now left|].
  destruct (IH (Z.max a y)) as [E|Hin]; [|right; now right].
  rewrite <- E. destruct (Z.max_spec a y) as [[_ ->]|[_ ->]];
    [right; now left|now left].
Qed.

(** X16 -- [update_dropdowns] on an empty view raises the [IndexError] of
    [unique()[0]].  On a view with a row it offers each parameter of the
    view exactly once, each with its own name as label; the value it
    selects is the parameter of the first row, which is among the options;
    and the two ends of the date picker are the smallest and the largest
    measurement date of the view: each is the date of a row, and every
    date of the view lies between them. *)
Theorem update_dropdowns_options (df : list Dashboard.StatRow) :
  match df with
  | [] => Dashboard.update_dropdowns df = Raise Dashboard.index_error
  | first :: _ =>
      exists opts s e,
        Dashboard.update_dropdowns df
        = Ok (opts, Dashboard.parameter first, Some s, Some e)
        /\ NoDup (map Dashboard.value opts)
        /\ map Dashboard.label opts = map Dashboard.value opts
        /\ (forall p, In p (map Dashboard.value opts)
                      <-> exists r, In r df /\ Dashboard.parameter r = p)
        /\ In (Dashboard.parameter first) (map Dashboard.value opts)
        /\ (exists r, In r df /\ Dashboard.measurement_date r = s)
        /\ (exists r, In r df /\ Dashboard.measurement_date r = e)
        /\ forall r, In r df -> s <= Dashboard.measurement_date r <= e
  end.
Proof.
  destruct df as [|first rest]; [reflexivity|].
  unfold Dashboard.update_dropdowns. cbv zeta.
  remember (first :: rest) as df eqn:Edf.
  assert (Hu : exists tl,
             Dashboard.unique (map Dashboard.parameter df)
             = Dashboard.parameter first :: tl)
    by (subst df; cbn; eauto).
  destruct Hu as (tl & Hu).
  pose proof (unique_NoDup (map Dashboard.parameter df)) as Hnd.
  pose proof (unique_In (map Dashboard.parameter df)) as Hin.
  rewrite Hu in Hnd, Hin |- *.
  assert (Hmin : exists s,
             Dashboard.series_min (map Dashboard.measurement_date df) = Some s
             /\ (exists r, In r df /\ Dashboard.measurement_date r = s)
             /\ forall r, In r df -> s <= Dashboard.measurement_date r).
  { subst df. cbn [map Dashboard.series_min]. eexists. split; [reflexivity|].
    split.
    - pose proof (fold_min_attained (map Dashboard.measurement_date rest)
                    (Dashboard.measurement_date first)) as Hin'.
      change (In (fold_left Z.min (map Dashboard.measurement_date rest)
                    (Dashboard.measurement_date first))
                (map Dashboard.measurement_date (first :: rest))) in Hin'.
      apply in_map_iff in Hin' as (r & E & Hr). eauto.
    - destruct (fold_min_le (map Dashboard.measurement_date rest)
                  (Dashboard.measurement_date first)) as (H1 & H2).
      intros r [<-|Hr]; [exact H1|]. apply H2. now apply in_map. }
  assert (Hmax : exists e,
             Dashboard.series_max (map Dashboard.measurement_date df) = Some e
             /\ (exists r, In r df /\ Dashboard.measurement_date r = e)
             /\ forall r, In r df -> Dashboard.measurement_date r <= e).
  { subst df. cbn [map Dashboard.series_max]. eexists. split; [reflexivity|].
    split.
    - pose proof (fold_max_attained (map Dashboard.measurement_date rest)
                    (Dashboard.measurement_date first)) as Hin'.
      change (In (fold_left Z.max (map Dashboard.measurement_date rest)
                    (Dashboard.measurement_date first))
                (map Dashboard.measurement_date (first :: rest))) in Hin'.
      apply in_map_iff in Hin' as (r & E & Hr). eauto.
    - destruct (fold_max_ge (map Dashboard.measurement_date rest)
                  (Dashboard.measurement_date first)) as (H1 & H2).
      intros r [<-|Hr]; [exact H1|]. apply H2. now apply in_map. }
  destruct Hmin as (s & -> & Hsa & Hs). destruct Hmax as (e & -> & Hea & He).
  eexists _, s, e. split; [reflexivity|].
  assert (Hv : map Dashboard.value
                 (map (fun p => Dashboard.mkOption p p)
                    (Dashboard.parameter first :: tl))
               = Dashboard.parameter first :: tl).
  { rewrite map_map. cbn [Dashboard.value]. apply map_id. }
  assert (Hl : map Dashboard.label
                 (map (fun p => Dashboard.mkOption p p)
                    (Dashboard.parameter first :: tl))
               = Dashboard.parameter first :: tl).
  { rewrite map_map. cbn [Dashboard.label]. apply map_id. }
  rewrite Hl, Hv.
  split; [exact Hnd|]. split; [reflexivity|].
  split; [|split; [|split; [|split]]].
  - intros p. rewrite Hin, in_map_iff.
    split; intros (r & H1 & H2); exists r; auto.
  - now left.
  - exact Hsa.
  - exact Hea.
  - intros r Hr. split; [now apply Hs|now apply He].
Qed.

Lemma update_dropdowns_witness :
  Dashboard.update_dropdowns [] = Raise Dashboard.index_error
  /\ exists opts s e,
      Dashboard.update_dropdowns
        [Dashboard.mkStatRow "pm25" 20240102 "a";
         Dashboard.mkStatRow "pm10" 20240101 "b";
         Dashboard.mkStatRow "pm25" 20240103 "c"]
      = Ok (opts, "pm25"%string, Some s, Some e)
      /\ map Dashboard.value opts = ["pm25"; "pm10"]%string
      /\ s = 20240101 /\ e = 20240103.
Proof.
  split; [exact (update_dropdowns_options [])|].
  destruct (update_dropdowns_options
              [Dashboard.mkStatRow "pm25" 20240102 "a";
               Dashboard.mkStatRow "pm10" 20240101 "b";
               Dashboard.mkStatRow "pm25" 20240103 "c"])
    as (opts & s & e & E & _).
  exists opts, s, e. split; [exact E|].
  vm_compute in E. injection E as <- <- <-. repeat split.
Defined.
